(** * echo-jnn: the Chimera AtomSpace, cognitive kernel, A000081 generator
    and the tokenizer of the round-trip verification script

  A shallow embedding of the Python sources

    - [verification/roundtrip_verifier.py]   (module [Tokenizer])
    - [chimera/bridge/ontogenetic_atomspace_bridge.py] (module [Ontogenetic])
    - [chimera/atomspace/atomspace.py]       (module [Atomspace])
    - [chimera/kernel/cogkernel.py]          (modules [Cogkernel], [Scheduler])

  followed by the predicates the statements use and by the properties.

  Conventions of the embedding.

    - Python [int] is [Z]. Python [float] is binary64. The quantizer of
      the tokenizer (module [Tokenizer64]) and [A000081Generator.inverse]
      are embedded in binary64, on Rocq's primitive floats: that is what
      the program computes. Elsewhere, and in a second embedding of the
      quantizer (module [Tokenizer]), a float is read as the exact
      rational [Q] it stands for and the rounding of an operation is left
      out; what is stated over [Q] is the part of the behaviour that the
      rounding does not change (ranges of tokens, order, saturation, the
      formulas of the truth values as written).
    - An atom object is identified with its [uuid] ([Atom.__eq__] and
      [Atom.__hash__] compare uuids, and every constructor draws a new
      [uuid.uuid4()]): atoms live in a heap keyed by uuid, a reference to
      an atom is its uuid, and the containers hold references.
    - [dict] is [gmap]; iteration order of a dict is not modelled.
    - A raised exception is a value of [exn].
    - [json.loads], [json.load] and [json.dumps] are library code: a text
      is represented by the value the library reads from it or writes to
      it, not by its characters. *)

From Stdlib Require Import ZArith QArith Qround Qabs Lia Lqa String Ascii List.
From Stdlib Require PrimFloat SpecFloat FloatOps.
From stdpp Require Import gmap strings list sorting pretty.

Set Warnings "-register-all".

(* ================================================================== *)
(** ** Python primitives shared by the modules                          *)
(* ================================================================== *)

Module Py.

Local Open Scope Q_scope.

(** [max(a, b)]: the first argument unless the second is larger. *)
Definition max (a b : Q) : Q := if Qlt_le_dec a b then b else a.

(** [min(a, b)]: the first argument unless the second is smaller. *)
Definition min (a b : Q) : Q := if Qlt_le_dec b a then b else a.

(** [int(x)] on a float: truncation toward zero. *)
Definition int (x : Q) : Z := Z.quot (Qnum x) (Zpos (Qden x)).

End Py.

(* ================================================================== *)
(** ** Python floats as they are: binary64                              *)
(* ================================================================== *)

Module Binary64.

Import PrimFloat.

(** [max(a, b)] and [min(a, b)] on floats: the first argument unless the
    comparison with the second holds (it never holds for a NaN). *)
Definition max (a b : float) : float := if (a <? b)%float then b else a.

Definition min (a b : float) : float := if (b <? a)%float then b else a.

(** The largest int below which [float(n)] is defined: from
    2^1024 - 2^970 on, the nearest binary64 value would be 2^1024 and
    Python raises OverflowError. *)
Definition overflow_threshold : Z := 2 ^ 1024 - 2 ^ 970.

(** [float(n)], also the conversion of the int in [x * n] and [x / n]:
    the nearest binary64 value, ties to even; [None] is OverflowError. *)
Definition float_of_int (n : Z) : option float :=
  if (Z.abs n <? overflow_threshold)%Z
  then Some (FloatOps.SF2Prim (SpecFloat.binary_normalize 53 1024 n 0 false))
  else None.

(** [int(x)]: truncation toward zero; [None] is the OverflowError or
    ValueError on an infinity or a NaN. *)
Definition int (x : float) : option Z :=
  match FloatOps.Prim2SF x with
  | SpecFloat.S754_zero _ => Some 0%Z
  | SpecFloat.S754_finite s m e =>
      let a := if (0 <=? e)%Z then (Zpos m * 2 ^ e)%Z
               else (Zpos m / 2 ^ (- e))%Z in
      Some (if s then (- a)%Z else a)
  | _ => None
  end.

(** The rational a finite float stands for. *)
Definition value (x : float) : option Q :=
  match FloatOps.Prim2SF x with
  | SpecFloat.S754_zero _ => Some 0%Q
  | SpecFloat.S754_finite s m e =>
      let a := if (0 <=? e)%Z then inject_Z (Zpos m * 2 ^ e)
               else (Zpos m # Z.to_pos (2 ^ (- e)))%Q in
      Some (if s then (- a)%Q else a)
  | _ => None
  end.

End Binary64.

(* ================================================================== *)
(** ** verification/roundtrip_verifier.py                               *)
(* ================================================================== *)

Module Tokenizer.

Local Open Scope Z_scope.

(** The hard-coded table of the script (0-indexed, as the Python list). *)
Definition A000081 : list Z :=
  [1; 1; 2; 4; 9; 20; 48; 115; 286; 719;
   1842; 4766; 12486; 32973; 87811; 235381;
   634847; 1721159; 4688676; 12826228].

Definition NUM_STREAMS : Z := 3.
Definition CYCLE_LENGTH : Z := 12.
Definition PERCEPTION_DIM : nat := 4.
Definition ACTION_DIM : nat := 4.
Definition SIMULATION_DIM : nat := 9.
Definition VOCAB_SIZE : Z := 32000.
Definition MAX_LENGTH : Z := 2048.
Definition QUANTIZATION_LEVELS : Z := 256.
Definition VALUE_RANGE : Q * Q := ((-1)%Q, 1%Q).

(** The attributes [CognitiveStateTokenizer.__init__] sets. *)
Record CognitiveStateTokenizer := {
  vocab_size : Z;
  max_length : Z;
  quantization_levels : Z;
  value_range : Q * Q;
  perception_offset : Z;
  action_offset : Z;
  simulation_offset : Z;
  stream_offset : Z;
  step_offset : Z
}.

Definition init : CognitiveStateTokenizer := {|
  vocab_size := VOCAB_SIZE;
  max_length := MAX_LENGTH;
  quantization_levels := QUANTIZATION_LEVELS;
  value_range := VALUE_RANGE;
  perception_offset := 1000;
  action_offset := 2000;
  simulation_offset := 3000;
  stream_offset := 100;
  step_offset := 300
|}.

Section Methods.
Variable self : CognitiveStateTokenizer.

Definition _quantize (value : Q) : Z :=
  let lo := fst (value_range self) in
  let hi := snd (value_range self) in
  let value := Py.max lo (Py.min hi value) in
  let normalized := ((value - lo) / (hi - lo))%Q in
  Py.int (normalized * inject_Z (quantization_levels self - 1))%Q.

Definition _dequantize (token : Z) : Q :=
  let lo := fst (value_range self) in
  let hi := snd (value_range self) in
  let normalized := (inject_Z token / inject_Z (quantization_levels self - 1))%Q in
  (normalized * (hi - lo) + lo)%Q.

(** An [assert] that fails is [None]. *)
Definition encode_perception (state : list Q) : option (list Z) :=
  if Nat.eqb (length state) PERCEPTION_DIM
  then Some (map (fun v => perception_offset self + _quantize v) state)
  else None.

Definition decode_perception (tokens : list Z) : option (list Q) :=
  if Nat.eqb (length tokens) PERCEPTION_DIM
  then Some (map (fun t => _dequantize (t - perception_offset self)) tokens)
  else None.

Definition encode_action (state : list Q) : option (list Z) :=
  if Nat.eqb (length state) ACTION_DIM
  then Some (map (fun v => action_offset self + _quantize v) state)
  else None.

Definition decode_action (tokens : list Z) : option (list Q) :=
  if Nat.eqb (length tokens) ACTION_DIM
  then Some (map (fun t => _dequantize (t - action_offset self)) tokens)
  else None.

Definition encode_simulation (state : list Q) : option (list Z) :=
  if Nat.eqb (length state) SIMULATION_DIM
  then Some (map (fun v => simulation_offset self + _quantize v) state)
  else None.

Definition decode_simulation (tokens : list Z) : option (list Q) :=
  if Nat.eqb (length tokens) SIMULATION_DIM
  then Some (map (fun t => _dequantize (t - simulation_offset self)) tokens)
  else None.

Definition encode_stream_id (stream_id : Z) : option (list Z) :=
  if (1 <=? stream_id) && (stream_id <=? NUM_STREAMS)
  then Some [stream_offset self + stream_id - 1]
  else None.

Definition decode_stream_id (tokens : list Z) : option Z :=
  match tokens with
  | [t] => Some (t - stream_offset self + 1)
  | _ => None
  end.

Definition encode_step_number (step : Z) : option (list Z) :=
  if (1 <=? step) && (step <=? CYCLE_LENGTH)
  then Some [step_offset self + step - 1]
  else None.

Definition decode_step_number (tokens : list Z) : option Z :=
  match tokens with
  | [t] => Some (t - step_offset self + 1)
  | _ => None
  end.

End Methods.

(** [RoundtripVerifier.max_quantization_error], read over [Q]. *)
Definition max_quantization_error : Q :=
  ((snd VALUE_RANGE - fst VALUE_RANGE) / inject_Z (QUANTIZATION_LEVELS - 1))%Q.

(** *** Snapshots and nested shells *)

Definition PAD_TOKEN_ID : Z := 0.
Definition BOS_TOKEN_ID : Z := 1.
Definition EOS_TOKEN_ID : Z := 2.
Definition UNK_TOKEN_ID : Z := 3.
Definition NEST_1_SIZE : nat := 1.
Definition NEST_2_SIZE : nat := 2.
Definition NEST_3_SIZE : nat := 4.
Definition NEST_4_SIZE : nat := 9.
Definition TOTAL_NESTED_TERMS : nat := 16.

(** [l[i:j]] for indexes that are not negative. *)
Definition slice {A : Type} (i j : nat) (l : list A) : list A :=
  take (j - i) (drop i l).

Section Snapshots.
Variable self : CognitiveStateTokenizer.

(** [None] when one of the encoders' asserts fails. *)
Definition encode_cognitive_state (stream_id step : Z)
    (perception action simulation : list Q) : option (list Z) :=
  sid ← encode_stream_id self stream_id;
  stp ← encode_step_number self step;
  p ← encode_perception self perception;
  a ← encode_action self action;
  s ← encode_simulation self simulation;
  Some ([BOS_TOKEN_ID] ++ sid ++ stp ++ p ++ a ++ s ++ [EOS_TOKEN_ID]).

(** [None] when the list is empty ([tokens[0]] raises) or an assert
    fails. *)
Definition decode_cognitive_state (tokens : list Z)
  : option (Z * Z * list Q * list Q * list Q) :=
  match head tokens, last tokens with
  | Some first, Some final =>
      if (first =? BOS_TOKEN_ID) && (final =? EOS_TOKEN_ID) then
        let idx := 1%nat in
        stream_id ← decode_stream_id self (slice idx (idx + 1) tokens);
        let idx := (idx + 1)%nat in
        step ← decode_step_number self (slice idx (idx + 1) tokens);
        let idx := (idx + 1)%nat in
        perception ← decode_perception self (slice idx (idx + PERCEPTION_DIM) tokens);
        let idx := (idx + PERCEPTION_DIM)%nat in
        action ← decode_action self (slice idx (idx + ACTION_DIM) tokens);
        let idx := (idx + ACTION_DIM)%nat in
        simulation ← decode_simulation self (slice idx (idx + SIMULATION_DIM) tokens);
        Some (stream_id, step, perception, action, simulation)
      else None
  | _, _ => None
  end.

Definition encode_nested_shells (nest1 nest2 nest3 nest4 : list Q)
  : option (list Z) :=
  if Nat.eqb (length nest1) NEST_1_SIZE && Nat.eqb (length nest2) NEST_2_SIZE
     && Nat.eqb (length nest3) NEST_3_SIZE && Nat.eqb (length nest4) NEST_4_SIZE
  then Some (map (_quantize self) nest1 ++ map (_quantize self) nest2
             ++ map (_quantize self) nest3 ++ map (_quantize self) nest4)
  else None.

Definition decode_nested_shells (tokens : list Z)
  : option (list Q * list Q * list Q * list Q) :=
  if Nat.eqb (length tokens) TOTAL_NESTED_TERMS then
    let idx := 0%nat in
    let nest1 := map (_dequantize self) (slice idx (idx + NEST_1_SIZE) tokens) in
    let idx := (idx + NEST_1_SIZE)%nat in
    let nest2 := map (_dequantize self) (slice idx (idx + NEST_2_SIZE) tokens) in
    let idx := (idx + NEST_2_SIZE)%nat in
    let nest3 := map (_dequantize self) (slice idx (idx + NEST_3_SIZE) tokens) in
    let idx := (idx + NEST_3_SIZE)%nat in
    let nest4 := map (_dequantize self) (slice idx (idx + NEST_4_SIZE) tokens) in
    Some (nest1, nest2, nest3, nest4)
  else None.

End Snapshots.

End Tokenizer.

(** *** The quantizer in binary64

    [_quantize] and [_dequantize] of a tokenizer with the attributes
    [__init__] sets, computed as the program computes them: every
    operation rounds to the nearest binary64 value. *)

Module Tokenizer64.

Import PrimFloat.

Definition VALUE_RANGE : float * float := ((-1)%float, 1%float).

(** [None] stands for an exception of [int] or of the conversion of
    [levels - 1]; the clamp leaves neither possible. *)
Definition _quantize (value : float) : option Z :=
  let lo := fst VALUE_RANGE in
  let hi := snd VALUE_RANGE in
  let value := Binary64.max lo (Binary64.min hi value) in
  let normalized := ((value - lo) / (hi - lo))%float in
  levels ← Binary64.float_of_int (Tokenizer.QUANTIZATION_LEVELS - 1);
  Binary64.int (normalized * levels)%float.

(** [token / (levels - 1)] divides two ints and rounds once; for a token of
    at most 53 bits that is the quotient of the two floats. [None] for a
    larger token, which the embedding does not follow. *)
Definition _dequantize (token : Z) : option float :=
  let lo := fst VALUE_RANGE in
  let hi := snd VALUE_RANGE in
  if (Z.abs token <? 2 ^ 53)%Z then
    t ← Binary64.float_of_int token;
    levels ← Binary64.float_of_int (Tokenizer.QUANTIZATION_LEVELS - 1);
    let normalized := (t / levels)%float in
    Some (normalized * (hi - lo) + lo)%float
  else None.

(** [RoundtripVerifier.max_quantization_error]. *)
Definition max_quantization_error : option float :=
  levels ← Binary64.float_of_int (Tokenizer.QUANTIZATION_LEVELS - 1);
  Some ((snd VALUE_RANGE - fst VALUE_RANGE) / levels)%float.

End Tokenizer64.

(* ================================================================== *)
(** ** chimera/bridge/ontogenetic_atomspace_bridge.py                   *)
(* ================================================================== *)

Module Ontogenetic.

Local Open Scope Z_scope.

(** [A000081Generator]: the attributes the sequence computation uses
    ([_trees_cache] is only written by the tree enumerator). *)
Record A000081Generator := {
  max_order : Z;
  _cache : gmap Z Z
}.

(** [_divisors(n)]. [int(math.sqrt(n))] is the integer square root
    (exact for the orders a generator is asked for). *)
Definition _divisors (n : Z) : list Z :=
  merge_sort Z.le
    (foldl (fun divs i =>
              if n mod i =? 0
              then let divs := divs ++ [i] in
                   if negb (i =? n / i) then divs ++ [n / i] else divs
              else divs)
           [] (seqZ 1 (Z.sqrt n))).

(** The two inner loops of [_precompute]: the sum for order [i]. *)
Definition _precompute_total (cache : gmap Z Z) (i : Z) : Z :=
  foldl (fun total k =>
           foldl (fun total d =>
                    match cache !! d, cache !! (i - k) with
                    | Some a_d, Some a_ik => total + d * a_d * a_ik
                    | _, _ => total
                    end)
                 total (_divisors k))
        0 (seqZ 1 (i - 1)).

(** One round of the outer loop of [_precompute]. *)
Definition _precompute_round (cache : gmap Z Z) (i : Z) : gmap Z Z :=
  match cache !! i with
  | Some _ => cache
  | None =>
      <[i := if 1 <? i then _precompute_total cache i / (i - 1) else 1]> cache
  end.

Definition _precompute (self : A000081Generator) (n : Z) : A000081Generator :=
  {| max_order := max_order self;
     _cache := foldl _precompute_round (_cache self) (seqZ 2 (n - 1)) |}.

Definition default_max_order : Z := 20.

Definition __init__ (max_order : Z) : A000081Generator :=
  _precompute {| max_order := max_order; _cache := {[0 := 0; 1 := 1]} |}
              max_order.

(** [self[n]]: the value and the generator afterwards. *)
Definition __getitem__ (self : A000081Generator) (n : Z)
  : Z * A000081Generator :=
  let self := match _cache self !! n with
              | Some _ => self
              | None => _precompute self n
              end in
  (default 0 (_cache self !! n), self).

(** [inverse(n)]: the value and the generator afterwards. [1.0 / self[n]]
    converts the int to a float, which raises OverflowError ([None]) for a
    term too large, and divides in binary64. *)
Definition inverse (self : A000081Generator) (n : Z)
  : option PrimFloat.float * A000081Generator :=
  let '(a_n, self) := __getitem__ self n in
  if a_n =? 0 then (Some PrimFloat.zero, self)
  else let '(a_n, self) := __getitem__ self n in
       (PrimFloat.div PrimFloat.one <$> Binary64.float_of_int a_n, self).

(** *** [TreeEnumerator]: partitions *)

(** [range(m, 0, -1)]. *)
Definition descending (m : Z) : list Z := reverse (seqZ 1 m).

(** [_partition_helper], returning [result] as it is afterwards. The depth
    of the recursion is bounded by [fuel]; [None] when that is too
    little. *)
Fixpoint _partition_helper (fuel : nat) (n max_val : Z) (current : list Z)
    (result : list (list Z)) : option (list (list Z)) :=
  if n =? 0 then Some (result ++ [current])
  else
    let call i result :=
      match fuel with
      | S fuel => _partition_helper fuel (n - i) i (current ++ [i]) result
      | O => None
      end in
    foldl (fun result i => result ≫= call i) (Some result)
          (descending (Z.min n max_val)).

(** [_partitions(n)]; a call of the helper lowers [n] by 1 at least. *)
Definition _partitions (n : Z) : option (list (list Z)) :=
  if n =? 0 then Some [[]]
  else _partition_helper (Z.to_nat n) n n [] [].

(** *** Rooted trees *)

Inductive RootedTree := mkRootedTree {
  children : list RootedTree;
  label : option string;
  order : Z;
  symmetry_factor : Z
}.

(** [RootedTree(children=children)]. *)
Definition new_tree (children : list RootedTree) : RootedTree :=
  {| children := children; label := None; order := 1; symmetry_factor := 1 |}.

Definition is_leaf (self : RootedTree) : bool :=
  match children self with [] => true | _ => false end.

(** [compute_order]: the tree afterwards; the value returned is its
    [order]. The children are computed again too, as the method does. *)
Fixpoint compute_order (self : RootedTree) : RootedTree :=
  match self with
  | mkRootedTree children label _ symmetry_factor =>
      let children := compute_order <$> children in
      {| children := children; label := label;
         order := 1 + foldr Z.add 0 (order <$> children);
         symmetry_factor := symmetry_factor |}
  end.

(** The order of [str] values. *)
Definition str_le (a b : string) : Prop := String.leb a b = true.

#[local] Instance str_le_dec : RelDecision str_le.
Proof. intros a b. unfold str_le. apply _. Defined.

(** ["".join(l)]. *)
Definition join (l : list string) : string := foldr String.append "" l.

Fixpoint canonical_form (self : RootedTree) : string :=
  match self with
  | mkRootedTree children _ _ _ =>
      match children with
      | [] => "()"
      | _ => "(" +:+ join (merge_sort str_le (canonical_form <$> children))
             +:+ ")"
      end
  end.

(** [math.factorial] on a count. *)
Definition factorial (n : Z) : Z := Z.of_nat (fact (Z.to_nat n)).

(** The first loop of [compute_symmetry]. *)
Definition child_counts (children : list RootedTree) : gmap string Z :=
  foldl (fun counts child =>
           let key := canonical_form child in
           <[key := default 0 (counts !! key) + 1]> counts)
        ∅ children.

(** [compute_symmetry]: the tree afterwards; the value returned is its
    [symmetry_factor]. *)
Fixpoint compute_symmetry (self : RootedTree) : RootedTree :=
  match self with
  | mkRootedTree children label order _ =>
      match children with
      | [] => {| children := []; label := label; order := order;
                 symmetry_factor := 1 |}
      | _ =>
          let counts := child_counts children in
          let children := compute_symmetry <$> children in
          let result := foldl (fun result child => result * symmetry_factor child)
                              order children in
          let result := map_fold (fun _ count result => result * factorial count)
                                 result counts in
          {| children := children; label := label; order := order;
             symmetry_factor := result |}
      end
  end.

Definition set_label (self : RootedTree) (label : string) : RootedTree :=
  {| children := children self; label := Some label; order := order self;
     symmetry_factor := symmetry_factor self |}.

(** *** [TreeEnumerator] *)

(** [_children_helper] from an index on, for the rest of the partition
    from there; [enumerate] is the method of that name. *)
Fixpoint _children_helper (enumerate : Z -> option (list RootedTree))
    (partition : list Z) (current : list RootedTree)
  : option (list (list RootedTree)) :=
  match partition with
  | [] => Some [current]
  | order :: partition =>
      trees ← enumerate order;
      results ← mapM (fun tree =>
                        _children_helper enumerate partition (current ++ [tree]))
                     trees;
      Some (concat results)
  end.

Definition _generate_children (enumerate : Z -> option (list RootedTree))
    (partition : list Z) : option (list (list RootedTree)) :=
  match partition with
  | [] => Some [[]]
  | _ => _children_helper enumerate partition []
  end.

(** The body of the two loops of [enumerate] for one list of children, the
    list [trees] being as it is then. *)
Definition enumerated (order : Z) (trees : list RootedTree)
    (children : list RootedTree) : list RootedTree :=
  let tree := compute_symmetry (compute_order (new_tree children)) in
  trees ++ [set_label tree ("τ_" +:+ pretty order +:+ "_"
                            +:+ pretty (Z.of_nat (length trees) + 1))].

(** [enumerate(order)]. The cache holds what a call has returned and spares
    the work of a second call: it is not modelled. The depth of the
    recursion is bounded by [fuel]; [None] when that is too little. *)
Fixpoint enumerate (fuel : nat) (order : Z) : option (list RootedTree) :=
  match fuel with
  | O => None
  | S fuel =>
      if order =? 1 then
        Some [{| children := []; label := Some "τ_1_1"; order := 1;
                 symmetry_factor := 1 |}]
      else
        partitions ← _partitions (order - 1);
        combinations ← mapM (_generate_children (enumerate fuel)) partitions;
        Some (foldl (enumerated order) [] (concat combinations))
  end.

End Ontogenetic.

(* ================================================================== *)
(** ** chimera/atomspace/atomspace.py                                   *)
(* ================================================================== *)

Module Atomspace.

(** *** Values of the [json] library *)

(** What [json.load] returns and [json.dumps] takes. The pairs of a [JObj]
    are the items of a Python [dict]: their keys are distinct. A dict given
    to [json.dumps] can hold a value that is no JSON value; the one that
    occurs is [JMethod], the bound method [TruthValue.count]. *)
Inductive json :=
| JNull
| JBool (b : bool)
| JInt (z : Z)
| JFloat (q : Q)
| JStr (s : string)
| JArr (items : list json)
| JObj (items : list (string * json))
| JMethod.

(** [json.dumps(value)] returns: it raises TypeError on a value that holds
    an object it cannot serialize. *)
Fixpoint serializable (value : json) : bool :=
  match value with
  | JArr items => forallb serializable items
  | JObj items => forallb (fun item => serializable (snd item)) items
  | JMethod => false
  | _ => true
  end.

(** [d.get(key)] on the items of a dict. *)
Fixpoint dict_get (key : string) (items : list (string * json)) : option json :=
  match items with
  | [] => None
  | (k, v) :: items => if String.eqb k key then Some v else dict_get key items
  end.

Inductive exn :=
| ValueError | IndexError | KeyError | TypeError | AttributeError
| JSONDecodeError | FileNotFoundError.

(** *** Truth values *)

Inductive TruthValueType := SIMPLE | COUNT | INDEFINITE | FUZZY.

(** What the attribute [count] of a truth value holds. The class body
    binds the name [count] twice, to the field's default 1 and then to the
    classmethod [count]; the dataclass takes the second as the default of
    the field. A truth value made without a count therefore holds the bound
    method [TruthValue.count] there, and no int. *)
Inductive count_value :=
| IntCount (n : Z)
| MethodCount.

Record TruthValue := {
  strength : Q;
  confidence : Q;
  count : count_value;
  tv_type : TruthValueType
}.

Module TV.

Definition simple (strength confidence : Q) : TruthValue :=
  {| strength := strength; confidence := confidence;
     count := MethodCount; tv_type := SIMPLE |}.

(** [TruthValue.simple()] with its defaults. *)
Definition simple_default : TruthValue := simple 1 (9 # 10).

Definition indefinite : TruthValue :=
  {| strength := 1 # 2; confidence := 0; count := MethodCount;
     tv_type := INDEFINITE |}.

Definition is_indefinite (t : TruthValue) : bool :=
  match tv_type t with INDEFINITE => true | _ => false end.

Definition merge (self other : TruthValue) : TruthValue :=
  if is_indefinite self then other
  else if is_indefinite other then self
  else
    let total_weight := (confidence self + confidence other)%Q in
    if Qeq_bool total_weight 0 then indefinite
    else
      let new_strength :=
        ((strength self * confidence self + strength other * confidence other)
         / total_weight)%Q in
      let new_confidence := Py.min 1 (total_weight / 2)%Q in
      simple new_strength new_confidence.

(** [TruthValueType.X.name]. *)
Definition type_name (t : TruthValueType) : string :=
  match t with
  | SIMPLE => "SIMPLE" | COUNT => "COUNT"
  | INDEFINITE => "INDEFINITE" | FUZZY => "FUZZY"
  end.

Definition to_dict (self : TruthValue) : json :=
  JObj [("strength", JFloat (strength self));
        ("confidence", JFloat (confidence self));
        ("count", match count self with
                  | IntCount n => JInt n
                  | MethodCount => JMethod
                  end);
        ("type", JStr (type_name (tv_type self)))].

(** The classmethod [count]: the one constructor that sets the field. *)
Definition count (strength confidence : Q) (count : Z) : TruthValue :=
  {| strength := strength; confidence := confidence;
     count := IntCount count; tv_type := COUNT |}.

End TV.

(** *** Attention values *)

Record AttentionValue := {
  sti : Q;
  lti : Q;
  vlti : bool
}.

Module AV.

(** [AttentionValue()] with its defaults. *)
Definition default : AttentionValue := {| sti := 0; lti := 0; vlti := false |}.

Definition stimulate (self : AttentionValue) (amount : Q) : AttentionValue :=
  {| sti := (sti self + amount)%Q; lti := lti self; vlti := vlti self |}.

Definition decay (self : AttentionValue) (rate : Q) : AttentionValue :=
  {| sti := (sti self * (1 - rate))%Q; lti := lti self; vlti := vlti self |}.

Definition to_dict (self : AttentionValue) : json :=
  JObj [("sti", JFloat (sti self)); ("lti", JFloat (lti self));
        ("vlti", JBool (vlti self))].

End AV.

(** *** Atoms *)

(** A reference to an atom object is its uuid: [atom.uuid] is the
    reference itself, and two references are [==] when they are equal. *)
Abbreviation ref := string.

(** The two concrete classes under [Atom], with the attribute each adds. *)
Inductive atom_class :=
| Node (_name : string)
| Link (_outgoing : list ref).

(** An atom object. Its truth value and attention value are kept by value:
    every atom has objects of its own for them. A caller can hand one
    AttentionValue object to two atoms, which then change together; the
    properties that speak of attention values are stated for atoms that
    share none. *)
Record Atom := {
  atom_type : string;
  tv : TruthValue;
  av : AttentionValue;
  _incoming : list ref;
  class : atom_class
}.

Definition set_tv (a : Atom) (t : TruthValue) : Atom :=
  {| atom_type := atom_type a; tv := t; av := av a;
     _incoming := _incoming a; class := class a |}.

Definition set_av (a : Atom) (v : AttentionValue) : Atom :=
  {| atom_type := atom_type a; tv := tv a; av := v;
     _incoming := _incoming a; class := class a |}.

(** [Atom.add_incoming]; [link not in self._incoming] compares uuids. *)
Definition add_incoming (a : Atom) (link : ref) : Atom :=
  {| atom_type := atom_type a; tv := tv a; av := av a;
     _incoming := if bool_decide (link ∈ _incoming a) then _incoming a
                  else _incoming a ++ [link];
     class := class a |}.

Definition is_node (a : Atom) : bool :=
  match class a with Node _ => true | Link _ => false end.

Definition is_link (a : Atom) : bool :=
  match class a with Node _ => false | Link _ => true end.

(** [Node.to_dict] and [Link.to_dict]. *)
Definition atom_to_dict (uuid : ref) (a : Atom) : json :=
  match class a with
  | Node name =>
      JObj [("type", JStr "node"); ("atom_type", JStr (atom_type a));
            ("name", JStr name); ("uuid", JStr uuid);
            ("tv", TV.to_dict (tv a)); ("av", AV.to_dict (av a))]
  | Link outgoing =>
      JObj [("type", JStr "link"); ("atom_type", JStr (atom_type a));
            ("outgoing", JArr (JStr <$> outgoing)); ("uuid", JStr uuid);
            ("tv", TV.to_dict (tv a)); ("av", AV.to_dict (av a))]
  end.

(** *** The container *)

(** A registered callback; only the fact that it is called is modelled. *)
Abbreviation callback := nat.

Record AtomSpace := {
  name : json;
  _atoms_by_uuid : gmap string ref;
  _atoms_by_type : gmap string (list ref);
  _atoms_by_name : gmap (string * string) ref;
  _callbacks : gmap string (list callback)
}.

(** The program state an AtomSpace method runs in: the atom objects, the
    AtomSpace, and the calls made to callbacks so far (callback, argument). *)
Record State := {
  heap : gmap ref Atom;
  space : AtomSpace;
  calls : list (callback * option ref)
}.

(** How a method ends. [Stuck] is no behaviour of the program: the model
    stops there because a reference names no object, or because a value of
    another type would be stored in a typed field. *)
Inductive outcome (A : Type) :=
| Return (a : A) (st : State)
| Raise (e : exn) (st : State)
| Stuck.
Arguments Return {A} a st.
Arguments Raise {A} e st.
Arguments Stuck {A}.

Definition __init__ (name : json) : AtomSpace :=
  {| name := name;
     _atoms_by_uuid := ∅; _atoms_by_type := ∅; _atoms_by_name := ∅;
     _callbacks := {["add" := []; "remove" := []; "update" := []; "clear" := []]} |}.

Definition with_heap (st : State) (h : gmap ref Atom) : State :=
  {| heap := h; space := space st; calls := calls st |}.

Definition with_space (st : State) (sp : AtomSpace) : State :=
  {| heap := heap st; space := sp; calls := calls st |}.

Definition register_callback (event : string) (cb : callback) (sp : AtomSpace)
  : AtomSpace :=
  match _callbacks sp !! event with
  | Some cbs =>
      {| name := name sp; _atoms_by_uuid := _atoms_by_uuid sp;
         _atoms_by_type := _atoms_by_type sp;
         _atoms_by_name := _atoms_by_name sp;
         _callbacks := <[event := cbs ++ [cb]]> (_callbacks sp) |}
  | None => sp
  end.

Definition _notify (event : string) (data : option ref) (st : State) : State :=
  {| heap := heap st; space := space st;
     calls := calls st
              ++ ((fun cb => (cb, data)) <$> default [] (_callbacks (space st) !! event)) |}.

(** The index updates of [add] once the atom is known to be new. *)
Definition add_to_indexes (atom : ref) (a : Atom) (by_name : gmap (string * string) ref)
    (sp : AtomSpace) : AtomSpace :=
  let by_type := match _atoms_by_type sp !! atom_type a with
                 | Some _ => _atoms_by_type sp
                 | None => <[atom_type a := []]> (_atoms_by_type sp)
                 end in
  {| name := name sp;
     _atoms_by_uuid := <[atom := atom]> (_atoms_by_uuid sp);
     _atoms_by_type :=
       <[atom_type a := default [] (by_type !! atom_type a) ++ [atom]]> by_type;
     _atoms_by_name := by_name;
     _callbacks := _callbacks sp |}.

Definition add (atom : ref) (st : State) : outcome ref :=
  match heap st !! atom with
  | None => Stuck
  | Some a =>
      let sp := space st in
      let insert_new by_name :=
        Return atom
               (_notify "add" (Some atom)
                        (with_space st (add_to_indexes atom a by_name sp))) in
      match class a with
      | Node name =>
          let key := (atom_type a, name) in
          match _atoms_by_name sp !! key with
          | Some existing =>
              match heap st !! existing with
              | None => Stuck
              | Some e =>
                  Return existing
                    (with_heap st
                       (<[existing := set_tv e (TV.merge (tv e) (tv a))]> (heap st)))
              end
          | None => insert_new (<[key := atom]> (_atoms_by_name sp))
          end
      | Link _ => insert_new (_atoms_by_name sp)
      end
  end.

Definition get (uuid : string) (self : AtomSpace) : option ref :=
  _atoms_by_uuid self !! uuid.

Definition get_node (node_type name : string) (self : AtomSpace) : option ref :=
  _atoms_by_name self !! (node_type, name).

(** [list.remove(x)]: drops the first element equal to [x]; [None] stands
    for the [ValueError] raised when there is none. *)
Fixpoint list_remove (x : ref) (l : list ref) : option (list ref) :=
  match l with
  | [] => None
  | y :: l => if bool_decide (y = x) then Some l
              else cons y <$> list_remove x l
  end.

Definition remove (atom : ref) (st : State) : outcome bool :=
  match heap st !! atom with
  | None => Stuck
  | Some a =>
      let sp := space st in
      match _atoms_by_uuid sp !! atom with
      | None => Return false st
      | Some _ =>
          let by_uuid := delete atom (_atoms_by_uuid sp) in
          let after_uuid :=
            with_space st
              {| name := name sp; _atoms_by_uuid := by_uuid;
                 _atoms_by_type := _atoms_by_type sp;
                 _atoms_by_name := _atoms_by_name sp;
                 _callbacks := _callbacks sp |} in
          let by_type :=
            match _atoms_by_type sp !! atom_type a with
            | Some l =>
                match list_remove atom l with
                | Some l' => Some (<[atom_type a := l']> (_atoms_by_type sp))
                | None => None
                end
            | None => Some (_atoms_by_type sp)
            end in
          match by_type with
          | None => Raise ValueError after_uuid
          | Some by_type =>
              let by_name :=
                match class a with
                | Node name => delete (atom_type a, name) (_atoms_by_name sp)
                | Link _ => _atoms_by_name sp
                end in
              Return true
                (_notify "remove" (Some atom)
                   (with_space st
                      {| name := name sp; _atoms_by_uuid := by_uuid;
                         _atoms_by_type := by_type;
                         _atoms_by_name := by_name;
                         _callbacks := _callbacks sp |}))
          end
      end
  end.

Definition clear (st : State) : State :=
  let sp := space st in
  _notify "clear" None
    (with_space st
       {| name := name sp; _atoms_by_uuid := ∅; _atoms_by_type := ∅;
          _atoms_by_name := ∅; _callbacks := _callbacks sp |}).

Definition get_atoms_by_type (atom_type : string) (self : AtomSpace) : list ref :=
  default [] (_atoms_by_type self !! atom_type).

(** [list(self._atoms_by_uuid.values())]. The program lists the atoms in
    the order of their insertion; the index of the model keeps no such
    order, and the list here is in the order of the keys: a permutation of
    the program's list. The properties below that use it hold for every
    order of the list. *)
Definition get_all_atoms (self : AtomSpace) : list ref :=
  snd <$> map_to_list (_atoms_by_uuid self).

Definition size (self : AtomSpace) : nat :=
  base.size (_atoms_by_uuid self).

(** *** Attention operations

    Every atom has an [AttentionValue] object of its own, as the
    constructors make one when none is passed. *)

(** [AtomSpace.stimulate]. *)
Definition stimulate (atom : ref) (amount : Q) (st : State) : outcome unit :=
  match heap st !! atom with
  | None => Stuck
  | Some a =>
      Return tt
        (_notify "update" (Some atom)
           (with_heap st
              (<[atom := set_av a (AV.stimulate (av a) amount)]> (heap st))))
  end.

(** One round of the loop of [decay_attention]; [None] is the model's
    [Stuck]. *)
Definition decay_atom (rate : Q) (h : option (gmap ref Atom)) (atom : ref)
  : option (gmap ref Atom) :=
  match h with
  | Some h =>
      match h !! atom with
      | Some a => Some (<[atom := set_av a (AV.decay (av a) rate)]> h)
      | None => None
      end
  | None => None
  end.

Definition decay_attention (rate : Q) (st : State) : outcome unit :=
  match foldl (decay_atom rate) (Some (heap st)) (get_all_atoms (space st)) with
  | Some h => Return tt (with_heap st h)
  | None => Stuck
  end.

(** [a.av.sti >= threshold]. *)
Definition in_focus (threshold : Q) (a : Atom) : bool :=
  Qle_bool threshold (sti (av a)).

Definition get_attentional_focus (threshold : Q) (st : State)
  : outcome (list ref) :=
  match mapM (fun r => (fun a => (r, a)) <$> heap st !! r)
             (get_all_atoms (space st)) with
  | Some atoms =>
      Return (fst <$> List.filter (fun ra => in_focus threshold (snd ra)) atoms) st
  | None => Stuck
  end.

(** *** Serialization *)

Definition to_dict (st : State) : outcome json :=
  match mapM (fun r => atom_to_dict r <$> heap st !! r) (get_all_atoms (space st)) with
  | Some atoms =>
      Return (JObj [("name", name (space st)); ("atoms", JArr atoms)]) st
  | None => Stuck
  end.

(** What a file holds, as [json.load] sees it: a text it parses to a value
    ([json.dumps] of that value is such a text), or a text it rejects. *)
Inductive contents :=
| Parses (j : json)
| Malformed.

Abbreviation filesystem := (gmap string contents).

(** [to_json]: the value whose text [json.dumps] returns. *)
Definition to_json (st : State) : outcome json :=
  match to_dict st with
  | Return j st => if serializable j then Return j st else Raise TypeError st
  | other => other
  end.

(** [save]: the file system afterwards, and how the call ends.
    [open(filepath, 'w')] leaves an empty file, which [json.load] rejects;
    [to_json] is called after it, and the file stays empty when that
    raises. *)
Definition save (filepath : string) (st : State) (fs : filesystem)
  : filesystem * outcome unit :=
  let opened := <[filepath := Malformed]> fs in
  match to_json st with
  | Return j st => (<[filepath := Parses j]> opened, Return tt st)
  | Raise e st => (opened, Raise e st)
  | Stuck => (opened, Stuck)
  end.

(** [load], a class method: it builds its own AtomSpace and touches no
    atom, so it takes the file system only. *)
Definition load (filepath : string) (fs : filesystem) : exn + AtomSpace :=
  match fs !! filepath with
  | None => inl FileNotFoundError
  | Some Malformed => inl JSONDecodeError
  | Some (Parses (JObj data)) =>
      inr (__init__ (default (JStr "loaded") (dict_get "name" data)))
  | Some (Parses _) => inl AttributeError
  end.

(** *** Sequences of operations *)

Inductive op :=
| Add (atom : ref)
| Remove (atom : ref)
| Clear.

Definition step (o : op) (st : State) : outcome unit :=
  match o with
  | Add atom =>
      match add atom st with
      | Return _ st => Return tt st
      | Raise e st => Raise e st
      | Stuck => Stuck
      end
  | Remove atom =>
      match remove atom st with
      | Return _ st => Return tt st
      | Raise e st => Raise e st
      | Stuck => Stuck
      end
  | Clear => Return tt (clear st)
  end.

(** The operations one after the other; an exception ends the run. *)
Fixpoint run (ops : list op) (st : State) : outcome unit :=
  match ops with
  | [] => Return tt st
  | o :: ops =>
      match step o st with
      | Return _ st => run ops st
      | other => other
      end
  end.

End Atomspace.

(* ================================================================== *)
(** ** chimera/kernel/cogkernel.py                                      *)
(* ================================================================== *)

Module Cogkernel.

Import Atomspace.

(** *** String methods used on paths *)

Definition is_slash (c : ascii) : bool := Ascii.eqb c "/".

Fixpoint lstrip (s : string) : string :=
  match s with
  | String c s' => if is_slash c then lstrip s' else s
  | EmptyString => s
  end.

Fixpoint rstrip (s : string) : string :=
  match s with
  | String c s' =>
      let r := rstrip s' in
      if is_slash c && String.eqb r "" then EmptyString else String c r
  | EmptyString => s
  end.

(** [s.strip('/')]. *)
Definition strip (s : string) : string := rstrip (lstrip s).

(** [s.split('/')]: never empty. *)
Fixpoint split (s : string) : list string :=
  match s with
  | EmptyString => [EmptyString]
  | String c s' =>
      if is_slash c then EmptyString :: split s'
      else match split s' with
           | part :: parts => String c part :: parts
           | [] => [String c EmptyString]
           end
  end.

(** [p in s] for two strings. *)
Fixpoint substring_of (p s : string) : bool :=
  String.prefix p s
  || match s with
     | String _ s' => substring_of p s'
     | EmptyString => false
     end.

(** *** Operators on a value returned by [json.loads] *)

(** [key in value] for a string [key]. *)
Definition contains (key : string) (value : json) : exn + bool :=
  match value with
  | JObj items => inr (bool_decide (is_Some (dict_get key items)))
  | JArr items =>
      inr (existsb (fun v => match v with
                             | JStr s => String.eqb s key
                             | _ => false
                             end) items)
  | JStr s => inr (substring_of key s)
  | _ => inl TypeError
  end.

(** [value[key]] for a string [key]. *)
Definition getitem (key : string) (value : json) : exn + json :=
  match value with
  | JObj items => match dict_get key items with
                  | Some v => inr v
                  | None => inl KeyError
                  end
  | _ => inl TypeError
  end.

(** *** [from_dict] of the two value classes *)

(** A value built from JSON: built, an exception, or a value of another
    type put in a typed field (the dataclasses store it unchecked; the
    model does not follow). *)
Inductive built (A : Type) :=
| Built (a : A)
| Failed (e : exn)
| Untyped.
Arguments Built {A} a.
Arguments Failed {A} e.
Arguments Untyped {A}.

Definition as_float (v : json) : option Q :=
  match v with
  | JFloat q => Some q
  | JInt z => Some (inject_Z z)
  | _ => None
  end.

(** What the field [count] holds: [from_dict] stores the value it is given,
    an int or, from the dict of a truth value made without a count, the
    bound method. *)
Definition as_count (v : json) : option count_value :=
  match v with
  | JInt z => Some (IntCount z)
  | JMethod => Some MethodCount
  | _ => None
  end.

Definition as_bool (v : json) : option bool :=
  match v with JBool b => Some b | _ => None end.

(** [TruthValueType[name]]. *)
Definition type_of_name (v : json) : exn + TruthValueType :=
  match v with
  | JStr s =>
      if String.eqb s "SIMPLE" then inr SIMPLE
      else if String.eqb s "COUNT" then inr COUNT
      else if String.eqb s "INDEFINITE" then inr INDEFINITE
      else if String.eqb s "FUZZY" then inr FUZZY
      else inl KeyError
  | JArr _ | JObj _ => inl TypeError
  | _ => inl KeyError
  end.

Definition tv_from_dict (data : json) : built TruthValue :=
  match data with
  | JObj items =>
      let strength := default (JFloat 1) (dict_get "strength" items) in
      let confidence := default (JFloat (9 # 10)) (dict_get "confidence" items) in
      let count := default (JInt 1) (dict_get "count" items) in
      match type_of_name (default (JStr "SIMPLE") (dict_get "type" items)) with
      | inl e => Failed e
      | inr tv_type =>
          match as_float strength, as_float confidence, as_count count with
          | Some s, Some c, Some n =>
              Built {| strength := s; confidence := c; count := n;
                       tv_type := tv_type |}
          | _, _, _ => Untyped
          end
      end
  | _ => Failed AttributeError
  end.

Definition av_from_dict (data : json) : built AttentionValue :=
  match data with
  | JObj items =>
      let sti := default (JFloat 0) (dict_get "sti" items) in
      let lti := default (JFloat 0) (dict_get "lti" items) in
      let vlti := default (JBool false) (dict_get "vlti" items) in
      match as_float sti, as_float lti, as_bool vlti with
      | Some s, Some l, Some v => Built {| sti := s; lti := l; vlti := v |}
      | _, _, _ => Untyped
      end
  | _ => Failed AttributeError
  end.

(** *** CogFS nodes *)

(** The bytes given to a write: their length, and what
    [json.loads(data.decode('utf-8'))] makes of them ([None] when the
    decoding or the parsing raises). *)
Record payload := {
  len : Z;
  loads : option json
}.

(** How a read ends: it returns [b''] or [json.dumps(j).encode('utf-8')],
    or [json.dumps] raises TypeError. *)
Inductive reading :=
| Empty
| Dumps (j : json)
| RaisesTypeError.

(** [json.dumps(j).encode('utf-8')]. *)
Definition dumps (j : json) : reading :=
  if serializable j then Dumps j else RaisesTypeError.

Inductive CogFSNode :=
| AtomNode (atom : ref)
| QueryNode (_last_query : option json) (_results : list ref).

Record CogFS := {
  _mount_point : string;
  _nodes : gmap string CogFSNode
}.

(** [CogFS.__init__]. *)
Definition cogfs_init : CogFS :=
  {| _mount_point := "/cogfs";
     _nodes := {["/atomspace/query" := QueryNode None []]} |}.

(** [AtomNode.read]. *)
Definition atom_read (atom : ref) (st : State) : option reading :=
  (fun a => dumps (atom_to_dict atom a)) <$> heap st !! atom.

(** The body of [AtomNode.write] after the parse: the first exception ends
    it with -1, keeping the assignments made before. *)
Definition atom_update (atom : ref) (data : payload) (update : json)
    (st : State) : option (Z * State) :=
  let set_field {A} (key : string) (from_dict : json -> built A)
                (set : Atom -> A -> Atom) (st : State)
      : option ((exn + unit) * State) :=
    match contains key update with
    | inl e => Some (inl e, st)
    | inr false => Some (inr tt, st)
    | inr true =>
        match getitem key update with
        | inl e => Some (inl e, st)
        | inr v =>
            match from_dict v with
            | Failed e => Some (inl e, st)
            | Untyped => None
            | Built x =>
                match heap st !! atom with
                | Some a => Some (inr tt, with_heap st (<[atom := set a x]> (heap st)))
                | None => None
                end
            end
        end
    end in
  match set_field "tv" tv_from_dict set_tv st with
  | None => None
  | Some (inl _, st) => Some ((-1)%Z, st)
  | Some (inr _, st) =>
      match set_field "av" av_from_dict set_av st with
      | None => None
      | Some (inl _, st) => Some ((-1)%Z, st)
      | Some (inr _, st) => Some (len data, st)
      end
  end.

(** [AtomNode.write]; [None] is the model's [Stuck]. *)
Definition atom_write (atom : ref) (data : payload) (st : State)
  : option (Z * State) :=
  match loads data with
  | None => Some ((-1)%Z, st)
  | Some update => atom_update atom data update st
  end.

(** [QueryNode.read]. *)
Definition query_read (results : list ref) (st : State) : option reading :=
  (fun atoms => dumps (JArr atoms))
    <$> mapM (fun r => atom_to_dict r <$> heap st !! r) results.

(** [self._atoms_by_type.get(key, []).copy()] for a key taken from JSON:
    a list or a dict cannot be hashed, another value that is no string is
    no key of the index. *)
Definition atoms_by_json_type (key : json) (st : State) : exn + list ref :=
  match key with
  | JStr s => inr (get_atoms_by_type s (space st))
  | JArr _ | JObj _ => inl TypeError
  | _ => inr []
  end.

(** [QueryNode.write]: the integer returned and the node afterwards. *)
Definition query_write (_last_query : option json) (_results : list ref)
    (data : payload) (st : State) : Z * CogFSNode :=
  match loads data with
  | None => ((-1)%Z, QueryNode _last_query _results)
  | Some query =>
      let failed := ((-1)%Z, QueryNode (Some query) _results) in
      match contains "type" query with
      | inl _ => failed
      | inr true =>
          match getitem "type" query with
          | inl _ => failed
          | inr key =>
              match atoms_by_json_type key st with
              | inl _ => failed
              | inr results => (len data, QueryNode (Some query) results)
              end
          end
      | inr false =>
          (len data, QueryNode (Some query) (get_all_atoms (space st)))
      end
  end.

(** *** CogFS *)

(** What [resolve_path] returns: the node kept in [_nodes] under a path, or
    an [AtomNode] made for this call. *)
Inductive resolved :=
| Mounted (path : string) (node : CogFSNode)
| Made (node : CogFSNode).

Definition resolve_path (path : string) (fs : CogFS) (st : State)
  : option resolved :=
  match _nodes fs !! path with
  | Some node => Some (Mounted path node)
  | None =>
      let parts := split (strip path) in
      if (length parts <? 2)%nat then None
      else if bool_decide (parts !! 0%nat = Some "atomspace") then
        if bool_decide (parts !! 1%nat = Some "nodes") && (4 <=? length parts)%nat then
          match parts !! 2%nat, parts !! 3%nat with
          | Some node_type, Some node_name =>
              (fun atom => Made (AtomNode atom))
                <$> get_node node_type node_name (space st)
          | _, _ => None
          end
        else if bool_decide (parts !! 1%nat = Some "links") && (3 <=? length parts)%nat then
          match parts !! 2%nat with
          | Some uuid =>
              (fun atom => Made (AtomNode atom)) <$> get uuid (space st)
          | None => None
          end
        else None
      else None
  end.

Definition node_of (r : resolved) : CogFSNode :=
  match r with Mounted _ node | Made node => node end.

(** [CogFS.read]; [None] is the model's [Stuck]. *)
Definition read (path : string) (fs : CogFS) (st : State) : option reading :=
  match resolve_path path fs st with
  | Some r =>
      match node_of r with
      | AtomNode atom => atom_read atom st
      | QueryNode _ results => query_read results st
      end
  | None => Some Empty
  end.

(** [CogFS.write]: the integer returned, and the file system and the state
    afterwards; [None] is the model's [Stuck]. *)
Definition write (path : string) (data : payload) (fs : CogFS) (st : State)
  : option (Z * CogFS * State) :=
  match resolve_path path fs st with
  | Some r =>
      match node_of r with
      | AtomNode atom =>
          (fun '(n, st) => (n, fs, st)) <$> atom_write atom data st
      | QueryNode last_query results =>
          let '(n, node) := query_write last_query results data st in
          let fs := match r with
                    | Mounted path _ =>
                        {| _mount_point := _mount_point fs;
                           _nodes := <[path := node]> (_nodes fs) |}
                    | Made _ => fs
                    end in
          Some (n, fs, st)
      end
  | None => Some ((-1)%Z, fs, st)
  end.

(** *** PLN system calls *)

(** The loop of [Link.__init__]: the link is registered as incoming with
    each atom of its outgoing list. *)
Fixpoint register_incoming (link : ref) (outgoing : list ref)
    (h : gmap ref Atom) : option (gmap ref Atom) :=
  match outgoing with
  | [] => Some h
  | atom :: outgoing =>
      match h !! atom with
      | Some a => register_incoming link outgoing (<[atom := add_incoming a link]> h)
      | None => None
      end
  end.

(** [Link(link_type, outgoing, tv=tv)]. The new object gets the uuid
    [fresh], standing for what [uuid.uuid4()] draws: a uuid no object has. *)
Definition new_link (fresh : ref) (link_type : string) (outgoing : list ref)
    (tv : TruthValue) (st : State) : option State :=
  match heap st !! fresh with
  | Some _ => None
  | None =>
      let link := {| atom_type := link_type; tv := tv; av := AV.default;
                     _incoming := []; class := Link outgoing |} in
      with_heap st <$> register_incoming fresh outgoing (<[fresh := link]> (heap st))
  end.

(** [isinstance(p, Link) and p.atom_type == "InheritanceLink"]. *)
Definition is_inheritance_link (a : Atom) : bool :=
  is_link a && String.eqb (atom_type a) "InheritanceLink".

(** [link.outgoing] of a link. *)
Definition outgoing (a : Atom) : list ref :=
  match class a with Link outgoing => outgoing | Node _ => [] end.

(** The end of [_deduction], from "Create conclusion A->C" on, for the
    [link1], [link2] the chaining test has settled. *)
Definition conclude (fresh : ref) (link1 link2 : Atom) (st : State)
  : outcome (option ref) :=
  match outgoing link1 !! 0%nat, outgoing link2 !! 1%nat with
  | Some A, Some C =>
      let sAB := strength (tv link1) in
      let cAB := confidence (tv link1) in
      let sBC := strength (tv link2) in
      let cBC := confidence (tv link2) in
      let sAC := (sAB * sBC)%Q in
      let cAC := (cAB * cBC * sBC)%Q in
      match new_link fresh "InheritanceLink" [A; C] (TV.simple sAC cAC) st with
      | Some st =>
          match add fresh st with
          | Return _ st => Return (Some fresh) st
          | Raise e st => Raise e st
          | Stuck => Stuck
          end
      | None => Stuck
      end
  | _, _ => Raise IndexError st
  end.

Definition _deduction (fresh : ref) (premises : list ref) (st : State)
  : outcome (option ref) :=
  match premises with
  | [p1; p2] =>
      match heap st !! p1, heap st !! p2 with
      | Some link1, Some link2 =>
          if is_inheritance_link link1 && is_inheritance_link link2 then
            match outgoing link1 !! 1%nat, outgoing link2 !! 0%nat with
            | Some b1, Some a2 =>
                if bool_decide (b1 ≠ a2) then
                  match outgoing link2 !! 1%nat, outgoing link1 !! 0%nat with
                  | Some b2, Some a1 =>
                      if bool_decide (b2 = a1) then conclude fresh link2 link1 st
                      else Return None st
                  | _, _ => Raise IndexError st
                  end
                else conclude fresh link1 link2 st
            | _, _ => Raise IndexError st
            end
          else Return None st
      | _, _ => Stuck
      end
  | _ => Return None st
  end.

Definition _induction (premises : list ref) (st : State) : outcome (option ref) :=
  Return None st.

Definition _abduction (premises : list ref) (st : State) : outcome (option ref) :=
  Return None st.

(** The loop of [_modus_ponens]: the last InheritanceLink and the last
    Node among the premises. *)
Fixpoint find_impl_ante (premises : list ref) (impl ante : option ref)
    (st : State) : option (option ref * option ref) :=
  match premises with
  | [] => Some (impl, ante)
  | p :: premises =>
      match heap st !! p with
      | Some a =>
          if is_inheritance_link a then find_impl_ante premises (Some p) ante st
          else if is_node a then find_impl_ante premises impl (Some p) st
          else find_impl_ante premises impl ante st
      | None => None
      end
  end.

Definition _modus_ponens (premises : list ref) (st : State)
  : outcome (option ref) :=
  if negb (length premises =? 2)%nat then Return None st
  else
    match find_impl_ante premises None None st with
    | None => Stuck
    | Some (Some impl, Some ante) =>
        match heap st !! impl with
        | None => Stuck
        | Some link =>
            match outgoing link !! 0%nat with
            | None => Raise IndexError st
            | Some a =>
                if bool_decide (a ≠ ante) then Return None st
                else
                  match outgoing link !! 1%nat with
                  | None => Raise IndexError st
                  | Some consequent =>
                      match heap st !! consequent with
                      | None => Stuck
                      | Some c =>
                          Return (Some consequent)
                            (with_heap st
                               (<[consequent := set_av c (AV.stimulate (av c) 10)]>
                                  (heap st)))
                      end
                  end
            end
        end
    | Some _ => Return None st
    end.

(** [PLNSyscall.sys_infer]. [fresh] is the uuid the next constructed atom
    gets. *)
Definition sys_infer (fresh : ref) (rule : string) (premises : list string)
    (st : State) : outcome (option ref) :=
  match mapM (fun uuid => get uuid (space st)) premises with
  | None => Return None st
  | Some premise_atoms =>
      if String.eqb rule "deduction" then _deduction fresh premise_atoms st
      else if String.eqb rule "induction" then _induction premise_atoms st
      else if String.eqb rule "abduction" then _abduction premise_atoms st
      else if String.eqb rule "modus_ponens" then _modus_ponens premise_atoms st
      else Return None st
  end.

End Cogkernel.

(* ================================================================== *)
(** ** chimera/kernel/cogkernel.py: processes and their scheduler       *)
(* ================================================================== *)

Module Scheduler.

Import Atomspace.

Inductive CogProcState :=
| NASCENT | READY | RUNNING | WAITING
| INFERRING | ATTENDING | SLEEPING | TERMINATED.

Inductive CogProcPriority := CRITICAL | REALTIME | HIGH | NORMAL | LOW | IDLE.

(** [CogProcPriority.X.value]. *)
Definition priority_value (p : CogProcPriority) : Z :=
  match p with
  | CRITICAL => 0%Z | REALTIME => 1%Z | HIGH => 2%Z
  | NORMAL => 3%Z | LOW => 4%Z | IDLE => 5%Z
  end.

(** The fields of a [CogProc] that the scheduler and the process
    management of the kernel read or write. *)
Record CogProc := {
  pid : Z;
  name : string;
  state : CogProcState;
  priority : CogProcPriority;
  attention : AttentionValue
}.

Definition set_state (p : CogProc) (s : CogProcState) : CogProc :=
  {| pid := pid p; name := name p; state := s;
     priority := priority p; attention := attention p |}.

Definition is_ready (p : CogProc) : bool :=
  match state p with READY => true | _ => false end.

Definition get_effective_priority (self : CogProc) : Q :=
  let base := inject_Z (priority_value (priority self)) in
  let attention_boost := (sti (attention self) / 100)%Q in
  Py.max 0 (base - attention_boost)%Q.

(** A reference to a [CogProc] object. *)
Abbreviation pref := nat.

(** An entry of the ready queue: (effective priority, pid). *)
Abbreviation entry := (Q * Z)%type.

Record CogScheduler := {
  time_slice : Q;
  ready_queue : list entry;
  running : option pref;
  waiting : gmap Z pref;
  all_procs : gmap Z pref;
  _lock : bool
}.

(** [CogScheduler()]; the lock is free. *)
Definition scheduler_init : CogScheduler :=
  {| time_slice := 1 # 10; ready_queue := []; running := None;
     waiting := ∅; all_procs := ∅; _lock := false |}.

(** The process objects and the scheduler. *)
Record Machine := {
  procs : gmap pref CogProc;
  scheduler : CogScheduler
}.

(** How a call ends. [Blocks]: it never returns, waiting for a lock that is
    held. [Stuck] is no behaviour of the program: a reference names no
    object. *)
Inductive result (A : Type) :=
| Returns (a : A) (m : Machine)
| Raises (e : exn) (m : Machine)
| Blocks
| Stuck.
Arguments Returns {A} a m.
Arguments Raises {A} e m.
Arguments Blocks {A}.
Arguments Stuck {A}.

Definition set_lock (m : Machine) (held : bool) : Machine :=
  let s := scheduler m in
  {| procs := procs m;
     scheduler := {| time_slice := time_slice s; ready_queue := ready_queue s;
                     running := running s; waiting := waiting s;
                     all_procs := all_procs s; _lock := held |} |}.

(** [with self._lock: body]: a [threading.Lock] is not reentrant, so the
    statement blocks when the lock is held, whoever holds it; the lock is
    released when the body is left. *)
Definition with_lock {A : Type} (m : Machine) (body : Machine -> result A)
  : result A :=
  if _lock (scheduler m) then Blocks
  else match body (set_lock m true) with
       | Returns a m => Returns a (set_lock m false)
       | Raises e m => Raises e (set_lock m false)
       | Blocks => Blocks
       | Stuck => Stuck
       end.

(** The order of the tuples in the queue. *)
Definition entry_le (a b : entry) : bool :=
  match (fst a ?= fst b)%Q with
  | Lt => true
  | Eq => (snd a <=? snd b)%Z
  | Gt => false
  end.

(** [ready_queue.put(e)]. *)
Definition queue_put (e : entry) (q : list entry) : list entry := q ++ [e].

Definition least (e : entry) (q : list entry) : entry :=
  foldl (fun m x => if entry_le m x then m else x) e q.

Fixpoint remove_entry (e : entry) (q : list entry) : list entry :=
  match q with
  | [] => []
  | x :: q => if entry_le x e && entry_le e x then q
              else x :: remove_entry e q
  end.

(** [ready_queue.get()] on a queue that is not empty: a least entry and the
    queue without it. *)
Definition queue_get (q : list entry) : option (entry * list entry) :=
  match q with
  | [] => None
  | x :: q' => let e := least x q' in Some (e, remove_entry e q)
  end.

Definition set_queue (m : Machine) (q : list entry) : Machine :=
  let s := scheduler m in
  {| procs := procs m;
     scheduler := {| time_slice := time_slice s; ready_queue := q;
                     running := running s; waiting := waiting s;
                     all_procs := all_procs s; _lock := _lock s |} |}.

Definition set_running (m : Machine) (r : option pref) : Machine :=
  let s := scheduler m in
  {| procs := procs m;
     scheduler := {| time_slice := time_slice s; ready_queue := ready_queue s;
                     running := r; waiting := waiting s;
                     all_procs := all_procs s; _lock := _lock s |} |}.

Definition set_proc (m : Machine) (r : pref) (p : CogProc) : Machine :=
  {| procs := <[r := p]> (procs m); scheduler := scheduler m |}.

Definition add_process (proc : pref) (m : Machine) : result unit :=
  with_lock m (fun m =>
    match procs m !! proc with
    | None => Stuck
    | Some p =>
        let s := scheduler m in
        let p := set_state p READY in
        Returns tt
          {| procs := <[proc := p]> (procs m);
             scheduler :=
               {| time_slice := time_slice s;
                  ready_queue :=
                    queue_put (get_effective_priority p, pid p) (ready_queue s);
                  running := running s; waiting := waiting s;
                  all_procs := <[pid p := proc]> (all_procs s);
                  _lock := _lock s |} |}
    end).

(** [schedule], with the calls of itself that are left to it: every call
    takes an entry from the queue, so there are no more of them than the
    queue has entries. *)
Fixpoint schedule_calls (calls_left : nat) (m : Machine)
  : result (option pref) :=
  with_lock m (fun m =>
    match queue_get (ready_queue (scheduler m)) with
    | None => Returns None m
    | Some ((_, pid), rest) =>
        let m := set_queue m rest in
        let try_next :=
          match calls_left with
          | S calls_left => schedule_calls calls_left m
          | O => Stuck
          end in
        match all_procs (scheduler m) !! pid with
        | None => try_next
        | Some proc =>
            match procs m !! proc with
            | None => Stuck
            | Some p =>
                if is_ready p then Returns (Some proc) (set_running m (Some proc))
                else try_next
            end
        end
    end).

Definition schedule (m : Machine) : result (option pref) :=
  schedule_calls (length (ready_queue (scheduler m))) m.

Definition preempt (proc : pref) (m : Machine) : result unit :=
  with_lock m (fun m =>
    match procs m !! proc with
    | None => Stuck
    | Some p =>
        match state p with
        | RUNNING =>
            let p := set_state p READY in
            let m := set_proc m proc p in
            let m := set_queue m (queue_put (get_effective_priority p, pid p)
                                            (ready_queue (scheduler m))) in
            Returns tt (set_running m None)
        | _ => Returns tt m
        end
    end).

(** The part of a [CogKernel] that its process management uses. *)
Record CogKernel := {
  machine : Machine;
  _next_pid : Z;
  stats : gmap string Z
}.

(** The process management part of [CogKernel.__init__]. *)
Definition kernel_init : CogKernel :=
  {| machine := {| procs := ∅; scheduler := scheduler_init |};
     _next_pid := 1%Z;
     stats := {["processes_created" := 0%Z; "processes_terminated" := 0%Z;
                "inferences_performed" := 0%Z; "attention_cycles" := 0%Z;
                "ontogenetic_generations" := 0%Z]} |}.

(** How a call on the kernel ends. *)
Inductive kresult (A : Type) :=
| KReturns (a : A) (k : CogKernel)
| KRaises (e : exn) (k : CogKernel)
| KBlocks
| KStuck.
Arguments KReturns {A} a k.
Arguments KRaises {A} e k.
Arguments KBlocks {A}.
Arguments KStuck {A}.

(** [self.stats[key] += 1]. *)
Definition count_up (key : string) (stats : gmap string Z)
  : option (gmap string Z) :=
  (fun n => <[key := (n + 1)%Z]> stats) <$> stats !! key.

(** [CogKernel.fork]; the new [CogProc] object is [fresh], a reference that
    names no object yet. *)
Definition fork (name : string) (fresh : pref) (k : CogKernel)
  : kresult pref :=
  match procs (machine k) !! fresh with
  | Some _ => KStuck
  | None =>
      let pid := _next_pid k in
      let proc := {| pid := pid; name := name; state := NASCENT;
                     priority := NORMAL;
                     attention := {| sti := 50; lti := 10; vlti := false |} |} in
      let m := set_proc (machine k) fresh proc in
      match add_process fresh m with
      | Returns _ m =>
          let k := {| machine := m; _next_pid := (pid + 1)%Z;
                      stats := stats k |} in
          match count_up "processes_created" (stats k) with
          | Some stats =>
              KReturns fresh {| machine := m; _next_pid := _next_pid k;
                                stats := stats |}
          | None => KRaises KeyError k
          end
      | Raises e m =>
          KRaises e {| machine := m; _next_pid := (pid + 1)%Z; stats := stats k |}
      | Blocks => KBlocks
      | Stuck => KStuck
      end
  end.

(** [CogKernel.kill]. *)
Definition kill (pid : Z) (k : CogKernel) : kresult bool :=
  match all_procs (scheduler (machine k)) !! pid with
  | None => KReturns false k
  | Some proc =>
      match procs (machine k) !! proc with
      | None => KStuck
      | Some p =>
          let k := {| machine := set_proc (machine k) proc (set_state p TERMINATED);
                      _next_pid := _next_pid k; stats := stats k |} in
          match count_up "processes_terminated" (stats k) with
          | Some stats =>
              KReturns true {| machine := machine k; _next_pid := _next_pid k;
                               stats := stats |}
          | None => KRaises KeyError k
          end
      end
  end.

End Scheduler.

(* ================================================================== *)
(** * Predicates of the statements, and sample states                   *)
(* ================================================================== *)

Section Vocabulary.
Import Atomspace Cogkernel.

(** ** Consistency of the three indexes *)

(** An atom is a value of [_atoms_by_uuid]. *)
Definition stored (sp : AtomSpace) (r : ref) : Prop :=
  exists k, _atoms_by_uuid sp !! k = Some r.

(** How often an atom occurs in the [_atoms_by_type] list of a type. *)
Definition occurrences (sp : AtomSpace) (t : string) (r : ref) : nat :=
  length (filter (fun x => x = r) (get_atoms_by_type t sp)).

(** The consistency of the indexes, for every atom object: it is a value of
    [_atoms_by_uuid] iff it occurs in the list of its type, where it then
    occurs once; and a Node is a value of [_atoms_by_uuid] iff
    [_atoms_by_name] holds it under its (atom_type, name) key. *)
Definition indexes_consistent (st : State) : Prop :=
  forall r a, heap st !! r = Some a ->
    let sp := space st in
    let t := atom_type a in
    (stored sp r <-> r ∈ get_atoms_by_type t sp)
    /\ (r ∈ get_atoms_by_type t sp -> occurrences sp t r = 1%nat)
    /\ (forall n, class a = Node n ->
          (stored sp r <-> _atoms_by_name sp !! (t, n) = Some r)).

(** The atoms a sequence of operations names. *)
Definition op_atoms (ops : list op) : list ref :=
  ops ≫= fun o => match o with
                  | Add atom | Remove atom => [atom]
                  | Clear => []
                  end.

(** No [add] of the run is given a Link that is stored at that moment. *)
Fixpoint no_link_readded (ops : list op) (st : State) : bool :=
  match ops with
  | [] => true
  | o :: ops =>
      match o with
      | Add atom =>
          match heap st !! atom with
          | Some a =>
              negb (is_link a && bool_decide (is_Some (get atom (space st))))
          | None => true
          end
      | _ => true
      end
      && match step o st with
         | Return _ st => no_link_readded ops st
         | _ => true
         end
  end.

(** What the indexes depend on in an atom: its type and its class. *)
Definition shapes (h : gmap ref Atom) : gmap ref (string * atom_class) :=
  (fun a => (atom_type a, class a)) <$> h.

(** The invariant behind the consistency: keys and values of
    [_atoms_by_uuid] agree and name objects; the by-type lists have no
    duplicates and hold stored atoms of their type; a stored atom is in the
    list of its type; [_atoms_by_name] holds stored Nodes under their keys,
    and every stored Node is held under its key. *)
Record index_inv (sh : gmap ref (string * atom_class)) (sp : AtomSpace)
  : Prop := {
  inv_uuid : forall k r,
    _atoms_by_uuid sp !! k = Some r -> k = r /\ is_Some (sh !! r);
  inv_type : forall t l,
    _atoms_by_type sp !! t = Some l ->
    NoDup l /\ forall r, r ∈ l ->
                (exists c, sh !! r = Some (t, c)) /\ _atoms_by_uuid sp !! r = Some r;
  inv_type_mem : forall r t c,
    _atoms_by_uuid sp !! r = Some r -> sh !! r = Some (t, c) ->
    r ∈ get_atoms_by_type t sp;
  inv_name : forall t n r,
    _atoms_by_name sp !! (t, n) = Some r ->
    sh !! r = Some (t, Node n) /\ _atoms_by_uuid sp !! r = Some r;
  inv_name_mem : forall r t n,
    _atoms_by_uuid sp !! r = Some r -> sh !! r = Some (t, Node n) ->
    _atoms_by_name sp !! (t, n) = Some r
}.

Definition state_inv (st : State) : Prop :=
  index_inv (shapes (heap st)) (space st).

(** ** Deduction *)

(** What [InheritanceLink(A, C, tv=t)] followed by [atomspace.add] of the
    new link does to a state: the link is a new object under the uuid
    [fresh], stored in the AtomSpace; the atoms other than A and C are as
    they were. *)
Definition link_added (fresh : ref) (A C : ref) (t : TruthValue)
    (st st' : State) : Prop :=
  heap st' !! fresh
    = Some {| atom_type := "InheritanceLink"; tv := t; av := AV.default;
              _incoming := []; class := Link [A; C] |}
  /\ get fresh (space st') = Some fresh
  /\ fresh ∈ get_atoms_by_type "InheritanceLink" (space st')
  /\ _atoms_by_uuid (space st') = <[fresh := fresh]> (_atoms_by_uuid (space st))
  /\ _atoms_by_name (space st') = _atoms_by_name (space st)
  /\ (forall r, r ≠ fresh -> r ≠ A -> r ≠ C -> heap st' !! r = heap st !! r).

(** C2 as stated, for the premises [u1], [u2] in a state: whichever of the
    two premises is read as A->B and the other as B->C, the inference
    returns the uuid of a new link A->C with strength sAB * sBC and
    confidence cAB * cBC * sBC. *)
Definition deduction_as_claimed (fresh : ref) (u1 u2 : string) (st : State)
  : Prop :=
  forall ab bc AB BC A B C,
    (u1, u2) = (ab, bc) \/ (u1, u2) = (bc, ab) ->
    get ab (space st) = Some ab -> get bc (space st) = Some bc ->
    heap st !! ab = Some AB -> heap st !! bc = Some BC ->
    atom_type AB = "InheritanceLink" -> class AB = Link [A; B] ->
    atom_type BC = "InheritanceLink" -> class BC = Link [B; C] ->
    exists st' c,
      sys_infer fresh "deduction" [u1; u2] st = Return (Some fresh) st'
      /\ heap st' !! fresh = Some c
      /\ atom_type c = "InheritanceLink"
      /\ class c = Link [A; C]
      /\ strength (tv c) = (strength (tv AB) * strength (tv BC))%Q
      /\ confidence (tv c)
         = (confidence (tv AB) * confidence (tv BC) * strength (tv BC))%Q.

(** ** Sample states *)

Definition concept (name : string) (t : TruthValue) (incoming : list ref)
  : Atom :=
  {| atom_type := "ConceptNode"; tv := t; av := AV.default;
     _incoming := incoming; class := Node name |}.

Definition inheritance (a b : ref) (s c : Q) : Atom :=
  {| atom_type := "InheritanceLink"; tv := TV.simple s c; av := AV.default;
     _incoming := []; class := Link [a; b] |}.

(** A state with one stored node "cat", a second node object of the same
    type and name, and a callback registered for "add". *)
Definition cat_state : State :=
  {| heap := {["u1" := concept "cat" (TV.simple (4 # 5) (9 # 10)) [];
               "u2" := concept "cat" (TV.simple (3 # 5) (7 # 10)) []]};
     space := register_callback "add" 7%nat
                {| name := JStr "kb";
                   _atoms_by_uuid := {["u1" := "u1"]};
                   _atoms_by_type := {["ConceptNode" := ["u1"]]};
                   _atoms_by_name := {[("ConceptNode", "cat") := "u1"]};
                   _callbacks := _callbacks (__init__ (JStr "kb")) |};
     calls := [] |}.

(** A state with one stored node "dog", whose truth value holds a count. *)
Definition dog_state : State :=
  {| heap := {["d1" := concept "dog" (TV.count (4 # 5) (9 # 10) 3) []]};
     space := {| name := JStr "kb";
                 _atoms_by_uuid := {["d1" := "d1"]};
                 _atoms_by_type := {["ConceptNode" := ["d1"]]};
                 _atoms_by_name := {[("ConceptNode", "dog") := "d1"]};
                 _callbacks := _callbacks (__init__ (JStr "kb")) |};
     calls := [] |}.

(** A heap with one Link object and an empty AtomSpace. *)
Definition link_state : State :=
  {| heap := {["l" := {| atom_type := "ListLink"; tv := TV.simple_default;
                         av := AV.default; _incoming := [];
                         class := Link [] |}]};
     space := __init__ (JStr "kb");
     calls := [] |}.

(** [link_state] with other contents of [_atoms_by_uuid] and of the
    "ListLink" list. *)
Definition link_indexes (by_uuid : gmap string ref) (of_type : list ref)
  : State :=
  {| heap := heap link_state;
     space := {| name := JStr "kb"; _atoms_by_uuid := by_uuid;
                 _atoms_by_type := {["ListLink" := of_type]};
                 _atoms_by_name := ∅;
                 _callbacks := _callbacks (__init__ (JStr "kb")) |};
     calls := [] |}.



(** The scenario of the repository's PLN test: A->B and B->C, stored. *)
Definition pln_state : State :=
  {| heap := {["uA" := concept "A" TV.simple_default ["l1"];
               "uB" := concept "B" TV.simple_default ["l1"; "l2"];
               "uC" := concept "C" TV.simple_default ["l2"];
               "l1" := inheritance "uA" "uB" (9 # 10) (8 # 10);
               "l2" := inheritance "uB" "uC" (8 # 10) (7 # 10)]};
     space := {| name := JStr "test-kernel-space";
                 _atoms_by_uuid := {["uA" := "uA"; "uB" := "uB"; "uC" := "uC";
                                     "l1" := "l1"; "l2" := "l2"]};
                 _atoms_by_type := {["ConceptNode" := ["uA"; "uB"; "uC"];
                                     "InheritanceLink" := ["l1"; "l2"]]};
                 _atoms_by_name := {[("ConceptNode", "A") := "uA";
                                     ("ConceptNode", "B") := "uB";
                                     ("ConceptNode", "C") := "uC"]};
                 _callbacks := _callbacks (__init__ JNull) |};
     calls := [] |}.

(** Two stored links that chain both ways: p is x->y and q is y->x. *)
Definition cycle_state : State :=
  {| heap := {["x" := concept "X" TV.simple_default ["p"; "q"];
               "y" := concept "Y" TV.simple_default ["p"; "q"];
               "p" := inheritance "x" "y" (9 # 10) (8 # 10);
               "q" := inheritance "y" "x" (1 # 2) (7 # 10)]};
     space := {| name := JStr "kb";
                 _atoms_by_uuid := {["x" := "x"; "y" := "y";
                                     "p" := "p"; "q" := "q"]};
                 _atoms_by_type := {["ConceptNode" := ["x"; "y"];
                                     "InheritanceLink" := ["p"; "q"]]};
                 _atoms_by_name := {[("ConceptNode", "X") := "x";
                                     ("ConceptNode", "Y") := "y"]};
                 _callbacks := _callbacks (__init__ JNull) |};
     calls := [] |}.

(** Bytes that are no JSON text. *)
Definition garbage : payload := {| len := 7; loads := None |}.

End Vocabulary.

(* ================================================================== *)
(** * Predicates of the further properties                              *)
(* ================================================================== *)

Section TokenizerVocabulary.
Import Tokenizer.
Local Open Scope Q_scope.

(** The decoded vector holds, entry by entry, the value decoded from the
    token of the original entry. *)
Definition requantized (original decoded : list Q) : Prop :=
  decoded = map (fun x => _dequantize init (_quantize init x)) original.

(** Every entry is in the value range. *)
Definition in_range (state : list Q) : Prop :=
  Forall (fun x => -1 <= x <= 1) state.



(** The tokens of a snapshot, by position. *)
Definition snapshot_layout (tokens : list Z) : Prop :=
  length tokens = 21%nat
  /\ head tokens = Some BOS_TOKEN_ID /\ last tokens = Some EOS_TOKEN_ID
  /\ forall (i : nat) (t : Z), tokens !! i = Some t ->
       (i = 1%nat -> (100 <= t <= 102)%Z)
       /\ (i = 2%nat -> (300 <= t <= 311)%Z)
       /\ ((3 <= i <= 6)%nat -> (1000 <= t <= 1255)%Z)
       /\ ((7 <= i <= 10)%nat -> (2000 <= t <= 2255)%Z)
       /\ ((11 <= i <= 19)%nat -> (3000 <= t <= 3255)%Z).

End TokenizerVocabulary.

Section OntogeneticVocabulary.
Import Ontogenetic.
Local Open Scope Z_scope.

(** What has been collected before the round for [i]: exact divisors,
    each below [i] or with its cofactor below [i], none twice. *)
Definition collected (n i : Z) (acc : list Z) : Prop :=
  NoDup acc
  /\ forall x, x ∈ acc -> 0 < x /\ x * (n / x) = n /\ (x < i \/ n / x < i).

(** The entries for the orders 1, ..., [m] are there and positive, and
    there is no entry for a larger order. *)
Definition positive_upto (cache : gmap Z Z) (m : Z) : Prop :=
  (forall k, 1 <= k <= m -> exists v, cache !! k = Some v /\ 1 <= v)
  /\ (forall k, m < k -> cache !! k = None).

(** [p] is a partition of [n] into parts of at most [max_val]: positive
    integers in non-increasing order with sum [n]. *)
Fixpoint partition_of (n max_val : Z) (p : list Z) : bool :=
  match p with
  | [] => n =? 0
  | i :: p => (1 <=? i) && (i <=? max_val) && partition_of (n - i) i p
  end.

(** The number of nodes of a tree. *)
Fixpoint nodes (t : RootedTree) : Z :=
  match t with
  | mkRootedTree children _ _ _ => 1 + foldr Z.add 0 (nodes <$> children)
  end.

(** Every [order] field in the tree is what [compute_order] stores there. *)
Fixpoint ordered (t : RootedTree) : Prop :=
  match t with
  | mkRootedTree children _ order _ =>
      order = 1 + foldr Z.add 0 (Ontogenetic.order <$> children)
      /\ foldr (fun c rest => ordered c /\ rest) True children
  end.

(** A tree of the order [n], with all its [order] fields right. *)
Definition of_order (n : Z) (t : RootedTree) : Prop :=
  ordered t /\ order t = n.

End OntogeneticVocabulary.

Section AtomspaceVocabulary.
Import Atomspace Cogkernel.

(** The calls [_notify(event, atom)] makes. *)
Definition notified (event : string) (atom : option ref) (sp : AtomSpace)
  : list (callback * option ref) :=
  (fun cb => (cb, atom)) <$> default [] (_callbacks sp !! event).

(** No character of the string is a slash. *)
Fixpoint slash_free (s : string) : bool :=
  match s with
  | EmptyString => true
  | String c s' => negb (is_slash c) && slash_free s'
  end.

(** The dicts [to_dict()] gives for the atoms of a list. *)
Definition dicts_of (st : State) (atoms : list ref) (dicts : list json) : Prop :=
  Forall2 (fun r d => exists a, heap st !! r = Some a /\ d = atom_to_dict r a)
          atoms dicts.

(** The truth value of the atom [r] holds an int count, or it holds none
    (the atom's truth value was made by [simple], [indefinite] or
    [merge]). *)
Definition counted (st : State) (r : ref) : Prop :=
  exists a k, heap st !! r = Some a /\ count (tv a) = IntCount k.

Definition uncounted (st : State) (r : ref) : Prop :=
  exists a, heap st !! r = Some a /\ count (tv a) = MethodCount.

End AtomspaceVocabulary.

Section SchedulerVocabulary.
Import Atomspace Scheduler.

(** What [schedule] does with the least entry of the ready queue, from a
    scheduler whose lock is free. *)
Definition taken (m : Machine) (rest : list entry) (r : option pref) : Machine :=
  set_lock (set_running (set_queue (set_lock m true) rest) r) false.

(** A forked process: what [fork] constructs, after [add_process]. *)
Definition forked (id : Z) (name : string) : CogProc :=
  {| pid := id; name := name; state := READY; priority := NORMAL;
     attention := {| sti := 50; lti := 10; vlti := false |} |}.

End SchedulerVocabulary.

(* ================================================================== *)
(** * Properties                                                        *)
(* ================================================================== *)

(** ** Python primitives *)

Section PyFacts.
Local Open Scope Q_scope.

Lemma py_max_spec a b :
  (a < b /\ Py.max a b = b) \/ (b <= a /\ Py.max a b = a).
Proof. unfold Py.max. destruct (Qlt_le_dec a b); auto. Qed.

Lemma py_min_spec a b :
  (b < a /\ Py.min a b = b) \/ (a <= b /\ Py.min a b = a).
Proof. unfold Py.min. destruct (Qlt_le_dec b a); auto. Qed.

(** On a non-negative argument truncation is the floor. *)
Lemma py_int_floor x : 0 <= x -> Py.int x = Qfloor x.
Proof.
  destruct x as [n d]. unfold Qle, Py.int, Qfloor. simpl. intros H.
  apply Z.quot_div_nonneg; lia.
Qed.

Lemma py_int_bounds x :
  0 <= x -> inject_Z (Py.int x) <= x /\ x < inject_Z (Py.int x) + 1.
Proof.
  intros H. rewrite (py_int_floor x H). split.
  - apply Qfloor_le.
  - pose proof (Qlt_floor x) as L.
    rewrite inject_Z_plus in L. exact L.
Qed.

End PyFacts.

(** ** The tokenizer *)

Section TokenizerFacts.
Import Tokenizer.
Local Open Scope Q_scope.

(** The clamp of [_quantize] lands in the value range. *)
Lemma clamp_range (x : Q) :
  -1 <= Py.max (-1) (Py.min 1 x) <= 1.
Proof.
  destruct (py_min_spec 1 x) as [[? ->]|[? ->]];
    destruct (py_max_spec (-1) x) as [[? E]|[? E]];
    destruct (py_max_spec (-1) 1) as [[? E']|[? E']];
    rewrite ?E, ?E'; lra.
Qed.

(** Inside the range the clamp is the identity. *)
Lemma clamp_id (x : Q) :
  -1 <= x <= 1 -> Py.max (-1) (Py.min 1 x) == x.
Proof.
  intros [L U].
  destruct (py_min_spec 1 x) as [[? ->]|[? ->]].
  - destruct (py_max_spec (-1) x) as [[? ->]|[? ->]]; lra.
  - destruct (py_max_spec (-1) 1) as [[? ->]|[? ->]]; lra.
Qed.

(** What [_quantize] truncates: the clamped value scaled to [0, 255]. *)
Local Abbreviation scaled x :=
  ((Py.max (-1) (Py.min 1 x) - -1) / (1 - -1) * inject_Z (256 - 1)).

Lemma quantize_unfold x : _quantize init x = Py.int (scaled x).
Proof. reflexivity. Qed.

Lemma scaled_range x : 0 <= scaled x <= 255.
Proof.
  pose proof (clamp_range x) as [L U].
  set (c := Py.max (-1) (Py.min 1 x)) in *.
  assert (E : (c - -1) / (1 - -1) * inject_Z (256 - 1) == (c + 1) * (255 # 2)).
  { change (inject_Z (256 - 1)) with (255 # 1). field. }
  rewrite E. split; lra.
Qed.

Lemma quantize_range x : (0 <= _quantize init x <= 255)%Z.
Proof.
  rewrite quantize_unfold.
  pose proof (scaled_range x) as [L U].
  rewrite (py_int_floor _ L). split.
  - change 0%Z with (Qfloor 0). apply Qfloor_resp_le. exact L.
  - rewrite <- (Qfloor_Z 255). apply Qfloor_resp_le. exact U.
Qed.

Lemma dequantize_unfold k :
  _dequantize init k == inject_Z k * (2 # 255) - 1.
Proof.
  unfold _dequantize. simpl.
  change (inject_Z (QUANTIZATION_LEVELS - 1)) with (255 # 1). field.
Qed.

Lemma max_quantization_error_value : max_quantization_error == 2 # 255.
Proof. reflexivity. Qed.

(** The bound of C1 in exact arithmetic: were no operation rounded, the
    value recovered from the token of an x with -1 <= x <= 1 would be
    within [max_quantization_error] = 2/255 of x. The program rounds, and
    the bound does not carry over to it: see
    [roundtrip_exceeds_epsilon_in_binary64]. *)
Lemma quantize_roundtrip_within_epsilon (x : Q) :
  -1 <= x <= 1 ->
  Qabs (_dequantize init (_quantize init x) - x) <= max_quantization_error
  /\ max_quantization_error == 2 # 255.
Proof.
  intros Hx. split; [|exact max_quantization_error_value].
  rewrite max_quantization_error_value, dequantize_unfold, quantize_unfold.
  pose proof (scaled_range x) as [L _].
  destruct (py_int_bounds _ L) as [Lo Hi].
  set (k := inject_Z (Py.int (scaled x))) in *.
  assert (E : scaled x == (x + 1) * (255 # 2)).
  { rewrite (clamp_id x Hx). change (inject_Z (256 - 1)) with (255 # 1). field. }
  rewrite E in Lo, Hi.
  apply Qabs_Qle_condition. split; lra.
Qed.

(** C9. The discrete encodings round-trip exactly: decoding the token of a
    stream id in {1, 2, 3} gives the stream id back, and decoding the token
    of a step in {1, ..., 12} gives the step back. *)
Theorem discrete_roundtrip_exact :
  (forall stream_id : Z, (1 <= stream_id <= 3)%Z ->
     encode_stream_id init stream_id ≫= decode_stream_id init = Some stream_id)
  /\ (forall step : Z, (1 <= step <= 12)%Z ->
     encode_step_number init step ≫= decode_step_number init = Some step).
Proof.
  split; intros v Hv.
  - unfold encode_stream_id, NUM_STREAMS.
    replace ((1 <=? v)%Z && (v <=? 3)%Z) with true
      by (symmetry; apply andb_true_intro; split; apply Z.leb_le; lia).
    simpl. f_equal. lia.
  - unfold encode_step_number, CYCLE_LENGTH.
    replace ((1 <=? v)%Z && (v <=? 12)%Z) with true
      by (symmetry; apply andb_true_intro; split; apply Z.leb_le; lia).
    simpl. f_equal. lia.
Qed.

Lemma discrete_roundtrip_exact_witness :
  encode_stream_id init 2 ≫= decode_stream_id init = Some 2%Z
  /\ encode_step_number init 12 ≫= decode_step_number init = Some 12%Z.
Proof.
  split.
  - apply (proj1 discrete_roundtrip_exact 2%Z). lia.
  - apply (proj2 discrete_roundtrip_exact 12%Z). lia.
Defined.

(** Every token of an encoded vector is the offset plus a quantized value. *)
Lemma offset_tokens_range (off : Z) (state : list Q) :
  Forall (fun t => (off <= t <= off + 255)%Z)
         (map (fun v => (off + _quantize init v)%Z) state).
Proof.
  apply Forall_map, Forall_forall. intros v _. simpl.
  pose proof (quantize_range v). lia.
Qed.

(** C10. [_quantize] returns an integer in [0, 255] for every input, also
    outside [-1, 1]; hence for vectors of the required dimension every token
    of [encode_perception], [encode_action] and [encode_simulation] lies in
    [offset, offset + 255] for the offsets 1000, 2000 and 3000, and is
    strictly below VOCAB_SIZE = 32000. *)
Theorem encoded_tokens_in_range (p a s : list Q) :
  length p = 4%nat -> length a = 4%nat -> length s = 9%nat ->
  (forall x : Q, (0 <= _quantize init x <= 255)%Z)
  /\ (exists tp, encode_perception init p = Some tp
        /\ Forall (fun t => (1000 <= t <= 1000 + 255 /\ t < VOCAB_SIZE)%Z) tp)
  /\ (exists ta, encode_action init a = Some ta
        /\ Forall (fun t => (2000 <= t <= 2000 + 255 /\ t < VOCAB_SIZE)%Z) ta)
  /\ (exists ts, encode_simulation init s = Some ts
        /\ Forall (fun t => (3000 <= t <= 3000 + 255 /\ t < VOCAB_SIZE)%Z) ts)
  /\ VOCAB_SIZE = 32000%Z.
Proof.
  intros Hp Ha Hs. split; [exact quantize_range|].
  unfold encode_perception, encode_action, encode_simulation.
  rewrite Hp, Ha, Hs. simpl.
  repeat split; try (eexists; split; [reflexivity|]).
  all: eapply Forall_impl; [apply offset_tokens_range|].
  all: unfold VOCAB_SIZE; simpl; intros; lia.
Qed.

Lemma encoded_tokens_in_range_witness :
  (forall x : Q, (0 <= _quantize init x <= 255)%Z)
  /\ (exists tp, encode_perception init [-1; 1; 0; 1 # 2] = Some tp
        /\ Forall (fun t => (1000 <= t <= 1000 + 255 /\ t < VOCAB_SIZE)%Z) tp)
  /\ (exists ta, encode_action init [5; -7; 0; 1 # 2] = Some ta
        /\ Forall (fun t => (2000 <= t <= 2000 + 255 /\ t < VOCAB_SIZE)%Z) ta)
  /\ (exists ts, encode_simulation init [0; 0; 0; 0; 0; 0; 0; 0; 3] = Some ts
        /\ Forall (fun t => (3000 <= t <= 3000 + 255 /\ t < VOCAB_SIZE)%Z) ts)
  /\ VOCAB_SIZE = 32000%Z.
Proof.
  apply (encoded_tokens_in_range
           [-1; 1; 0; 1 # 2] [5; -7; 0; 1 # 2] [0; 0; 0; 0; 0; 0; 0; 0; 3]);
    reflexivity.
Defined.

End TokenizerFacts.

(** ** The quantizer as the program computes it *)

Section QuantizerBinary64.
Import PrimFloat Tokenizer64.

(** C1 does not hold of the program, whose arithmetic is binary64. The
    float x = -0x1.ededededededfp-2 (Python prints -0.4823529411764706) is
    in [-1, 1]; [_quantize] gives it the token 65, which [_dequantize]
    decodes to x' = -0x1.f5f5f5f5f5f6p-2 (-0.4901960784313726). The
    distance of the two, 141289400074369 / 2^54, is more than 2/255, and
    computed in binary64, as the verifier computes it, [abs(x - x')] is more
    than the verifier's [max_quantization_error]. *)
Theorem roundtrip_exceeds_epsilon_in_binary64 :
  let x := (-0x1.ededededededfp-2)%float in
  let x' := (-0x1.f5f5f5f5f5f6p-2)%float in
  Binary64.value x = Some (-8689298104573663 # 18014398509481984)%Q
  /\ (-1 <= -8689298104573663 # 18014398509481984 <= 1)%Q
  /\ _quantize x = Some 65%Z
  /\ _dequantize 65 = Some x'
  /\ Binary64.value x' = Some (-8830587504648032 # 18014398509481984)%Q
  /\ (2 # 255
      < Qabs ((-8830587504648032 # 18014398509481984)
              - (-8689298104573663 # 18014398509481984)))%Q
  /\ (exists eps, max_quantization_error = Some eps
                  /\ (abs (x - x') <=? eps)%float = false).
Proof.
  repeat split; try (vm_compute; reflexivity); try (vm_compute; discriminate).
  eexists. split; vm_compute; reflexivity.
Qed.

End QuantizerBinary64.

(** ** The A000081 generator *)

Section OntogeneticFacts.
Import Ontogenetic.
Local Open Scope Z_scope.

Example divisors_12 : _divisors 12 = [1; 2; 3; 4; 6; 12].
Proof. reflexivity. Qed.

Example divisors_9 : _divisors 9 = [1; 3; 9].
Proof. reflexivity. Qed.

(** A round for order [i] writes key [i] only. *)
Lemma precompute_round_other cache i n :
  n ≠ i -> _precompute_round cache i !! n = cache !! n.
Proof.
  intros Hne. unfold _precompute_round.
  destruct (cache !! i); [reflexivity|].
  apply lookup_insert_ne. congruence.
Qed.

Lemma precompute_rounds_other cache n (l : list Z) :
  n ∉ l -> foldl _precompute_round cache l !! n = cache !! n.
Proof.
  revert cache. induction l as [|i l IH]; intros cache Hn; simpl.
  - reflexivity.
  - rewrite IH by (intros ?; apply Hn; by right).
    apply precompute_round_other. intros ->. apply Hn. by left.
Qed.

(** The cache after the rounds for the orders 2, ..., [m]. *)
Local Abbreviation cache_upto m :=
  (foldl _precompute_round {[0 := 0; 1 := 1]} (seqZ 2 (m - 1))).

(** Later rounds leave the entry of an earlier order alone. *)
Lemma cache_upto_prefix n m :
  1 <= n <= m -> cache_upto m !! n = cache_upto n !! n.
Proof.
  intros Hn.
  replace (m - 1) with ((n - 1) + (m - n)) by lia.
  rewrite seqZ_app, foldl_app by lia.
  apply precompute_rounds_other.
  rewrite elem_of_seqZ. lia.
Qed.

(** The cache of the default generator against the table of the
    verification script, entry by entry. *)
Lemma cache_upto_20_table :
  forallb (fun n => bool_decide
             (cache_upto 20 !! n = Tokenizer.A000081 !! Z.to_nat (n - 1)))
          (seqZ 1 20) = true.
Proof. vm_compute. reflexivity. Qed.

Lemma cache_upto_table n m :
  1 <= n <= m -> n <= 20 ->
  cache_upto m !! n = Tokenizer.A000081 !! Z.to_nat (n - 1).
Proof.
  intros Hn H20.
  rewrite (cache_upto_prefix n m Hn), <- (cache_upto_prefix n 20) by lia.
  pose proof cache_upto_20_table as T.
  rewrite forallb_forall in T.
  specialize (T n). rewrite bool_decide_eq_true in T. apply T.
  apply list_elem_of_In, elem_of_seqZ. lia.
Qed.

(** C3. For every n of the precomputed range, 1 <= n <= max_order, that the
    table of the verification script covers (n <= 20; max_order is 20 by
    default), [A000081Generator(max_order)[n]] is the n-th term of A000081
    as the table lists it: 1, 1, 2, 4, 9, 20, 48, 115, 286, 719, ...; the
    lookup leaves the generator as it was. *)
Theorem generator_agrees_with_table (max_order n : Z) :
  1 <= n <= max_order -> n <= 20 ->
  Tokenizer.A000081 !! Z.to_nat (n - 1)
    = Some (fst (__getitem__ (__init__ max_order) n))
  /\ snd (__getitem__ (__init__ max_order) n) = __init__ max_order.
Proof.
  intros Hn H20.
  pose proof (cache_upto_table n max_order Hn H20) as E.
  assert (is_Some (Tokenizer.A000081 !! Z.to_nat (n - 1))) as [v Hv].
  { apply lookup_lt_is_Some. simpl. lia. }
  rewrite Hv in E.
  unfold __getitem__, __init__, _precompute. simpl.
  rewrite E. simpl. rewrite E. auto.
Qed.

Lemma generator_agrees_with_table_witness :
  Tokenizer.A000081 !! Z.to_nat (20 - 1)
    = Some (fst (__getitem__ (__init__ default_max_order) 20))
  /\ snd (__getitem__ (__init__ default_max_order) 20)
     = __init__ default_max_order.
Proof.
  apply (generator_agrees_with_table default_max_order 20);
    unfold default_max_order; lia.
Defined.

Example generator_first_terms :
  map (fun n => fst (__getitem__ (__init__ default_max_order) n))
      [1; 2; 3; 4; 5; 6; 7; 8; 9; 10]
  = [1; 1; 2; 4; 9; 20; 48; 115; 286; 719].
Proof. vm_compute. reflexivity. Qed.

End OntogeneticFacts.

(** ** The AtomSpace *)

Section AtomspaceFacts.
Import Atomspace.

(** The values the repository's tests of the two value classes expect. *)
Example merge_as_tested :
  let merged := TV.merge (TV.simple (8 # 10) (9 # 10)) (TV.simple (6 # 10) (7 # 10)) in
  (6 # 10 <= strength merged <= 8 # 10)%Q /\ (0 < confidence merged)%Q.
Proof. vm_compute. intuition discriminate. Qed.

Example attention_as_tested :
  let av := AV.stimulate {| sti := 50; lti := 10; vlti := false |} 20 in
  (sti av == 70)%Q /\ (sti (AV.decay av (1 # 10)) == 63)%Q.
Proof. split; reflexivity. Qed.

(** C8. Adding a Node whose (atom_type, name) key is already present returns
    the atom stored under the key, replaces only that atom's truth value by
    the merge of its old truth value with the new node's, and changes
    nothing else: the AtomSpace with its three indexes and its callbacks is
    the same, so is its size, every other atom is as it was, and no callback
    is called. The atom returned is the argument only when the argument is
    itself the atom stored; an argument that is another object is neither
    stored nor changed. *)
Theorem add_existing_node_merges_truth_value
    (st : State) (n : ref) (a : Atom) (node_name : string)
    (existing : ref) (e : Atom) :
  heap st !! n = Some a ->
  class a = Node node_name ->
  _atoms_by_name (space st) !! (atom_type a, node_name) = Some existing ->
  heap st !! existing = Some e ->
  exists st',
    add n st = Return existing st'
    /\ heap st' = <[existing := set_tv e (TV.merge (tv e) (tv a))]> (heap st)
    /\ (forall r, r ≠ existing -> heap st' !! r = heap st !! r)
    /\ (exists e', heap st' !! existing = Some e'
          /\ tv e' = TV.merge (tv e) (tv a)
          /\ atom_type e' = atom_type e /\ av e' = av e
          /\ _incoming e' = _incoming e /\ class e' = class e)
    /\ space st' = space st
    /\ size (space st') = size (space st)
    /\ calls st' = calls st
    /\ (n ≠ existing ->
        heap st' !! n = Some a /\ _atoms_by_uuid (space st') !! n = _atoms_by_uuid (space st) !! n).
Proof.
  intros Hn Hc Hk He. unfold add. rewrite Hn, Hc, Hk, He.
  eexists. split; [reflexivity|]. simpl.
  repeat split; auto.
  - intros r Hr. apply lookup_insert_ne. congruence.
  - eexists. split; [apply lookup_insert_eq|]. repeat split.
  - rewrite lookup_insert_ne by congruence. exact Hn.
Qed.

Lemma add_existing_node_merges_truth_value_witness :
  exists st',
    add "u2" cat_state = Return "u1" st'
    /\ size (space st') = 1%nat /\ calls st' = [].
Proof.
  destruct (add_existing_node_merges_truth_value cat_state "u2"
              (concept "cat" (TV.simple (3 # 5) (7 # 10)) [])
              "cat" "u1"
              (concept "cat" (TV.simple (4 # 5) (9 # 10)) []))
    as (st' & Hadd & _ & _ & _ & Hsp & Hsz & Hcalls & _);
    try reflexivity.
  exists st'. split; [exact Hadd|]. split.
  - rewrite Hsz. reflexivity.
  - rewrite Hcalls. reflexivity.
Defined.

(** [to_dict] serialises to a JSON object that carries the name. *)
Lemma to_dict_object st j st' :
  to_dict st = Return j st' ->
  exists atoms, j = JObj [("name", name (space st)); ("atoms", JArr atoms)].
Proof.
  unfold to_dict. destruct (mapM _ _) as [atoms|]; [|discriminate].
  intros [= <- _]. eauto.
Qed.

(** Against C7 as stated: a file that holds the JSON text of an array is
    read by [json.load], and [load] then raises (a list has no [get])
    instead of returning an AtomSpace; on a text that is no JSON,
    [json.load] itself raises. *)
Lemma load_raises_on_json_array :
  load "kb.json" {["kb.json" := Parses (JArr [])]} = inl AttributeError
  /\ ~ (exists sp, load "kb.json" {["kb.json" := Parses (JArr [])]} = inr sp
                   /\ size sp = 0%nat)
  /\ load "kb.json" {["kb.json" := Malformed]} = inl JSONDecodeError.
Proof.
  split; [reflexivity|]. split; [|reflexivity].
  intros (sp & H & _). discriminate H.
Qed.

(** C7, amended. For every file whose text [json.load] reads as a JSON
    object, [load] returns an AtomSpace with no atom in any index, of size
    0, named by the object's "name" (or "loaded"). A file written by a call
    of [save] that returns is such a file, whatever the saved AtomSpace
    holds: loading it gives an empty AtomSpace with the saved name. A call
    of [save] that raises leaves an empty file, and [load] raises on it. *)
Theorem load_reconstructs_no_atoms :
  (forall (fs : gmap string contents) (filepath : string)
          (data : list (string * json)),
     fs !! filepath = Some (Parses (JObj data)) ->
     exists sp, load filepath fs = inr sp
                /\ size sp = 0%nat
                /\ _atoms_by_uuid sp = ∅ /\ _atoms_by_type sp = ∅
                /\ _atoms_by_name sp = ∅
                /\ name sp = default (JStr "loaded") (dict_get "name" data))
  /\ (forall (st st' : State) (fs fs' : gmap string contents)
             (filepath : string),
        save filepath st fs = (fs', Return tt st') ->
        exists sp, load filepath fs' = inr sp
                   /\ size sp = 0%nat /\ name sp = name (space st))
  /\ (forall (st st' : State) (fs fs' : gmap string contents)
             (filepath : string) (e : exn),
        save filepath st fs = (fs', Raise e st') ->
        fs' = <[filepath := Malformed]> fs
        /\ load filepath fs' = inl JSONDecodeError).
Proof.
  split; [|split].
  - intros fs filepath data H. unfold load. rewrite H.
    eexists. split; [reflexivity|]. repeat split.
  - intros st st' fs fs' filepath. unfold save, to_json.
    destruct (to_dict st) as [j st1| |] eqn:E; try discriminate.
    destruct (serializable j); [|discriminate].
    intros [= <- _].
    destruct (to_dict_object _ _ _ E) as [atoms ->].
    unfold load. rewrite lookup_insert_eq.
    eexists. split; [reflexivity|]. split; reflexivity.
  - intros st st' fs fs' filepath e. unfold save, to_json.
    assert (load filepath (<[filepath := Malformed]> fs) = inl JSONDecodeError)
      as Hl by (unfold load; by rewrite lookup_insert_eq).
    destruct (to_dict st) as [j st1|e1 st1|] eqn:E; try discriminate.
    + destruct (serializable j); [discriminate|].
      intros [= <- _ _]. by split.
    + intros [= <- _ _]. by split.
Qed.

Lemma load_reconstructs_no_atoms_witness :
  size (space dog_state) = 1%nat
  /\ exists fs' st' sp,
       save "kb.json" dog_state ∅ = (fs', Return tt st')
       /\ load "kb.json" fs' = inr sp
       /\ size sp = 0%nat /\ name sp = JStr "kb".
Proof.
  split; [vm_compute; reflexivity|].
  assert (exists fs', save "kb.json" dog_state ∅ = (fs', Return tt dog_state))
    as (fs' & E).
  { unfold save.
    assert (exists j, to_json dog_state = Return j dog_state) as [j ->]
      by (eexists; vm_compute; reflexivity).
    eauto. }
  destruct (proj1 (proj2 load_reconstructs_no_atoms)
              dog_state dog_state ∅ fs' "kb.json" E)
    as (sp & Hl & Hs & Hn).
  exists fs', dog_state, sp. repeat split; assumption.
Defined.

End AtomspaceFacts.

(** ** Consistency of the three indexes *)

Section IndexInvariant.
Import Atomspace.

Lemma shapes_lookup h r a :
  h !! r = Some a -> shapes h !! r = Some (atom_type a, class a).
Proof. intros H. unfold shapes. by rewrite lookup_fmap, H. Qed.

Lemma shapes_set_tv h r a t :
  h !! r = Some a -> shapes (<[r := set_tv a t]> h) = shapes h.
Proof.
  intros H. unfold shapes. rewrite fmap_insert. simpl.
  apply insert_id. by rewrite lookup_fmap, H.
Qed.

Lemma index_inv_empty sh name cbs :
  index_inv sh {| name := name; _atoms_by_uuid := ∅; _atoms_by_type := ∅;
                  _atoms_by_name := ∅; _callbacks := cbs |}.
Proof.
  split; simpl; intros *; rewrite ?lookup_empty; try discriminate.
Qed.

Lemma get_atoms_by_type_elem sh sp r t :
  index_inv sh sp -> r ∈ get_atoms_by_type t sp ->
  (exists c, sh !! r = Some (t, c)) /\ _atoms_by_uuid sp !! r = Some r.
Proof.
  intros I. unfold get_atoms_by_type.
  destruct (_atoms_by_type sp !! t) as [l|] eqn:E; simpl.
  - intros Hr. by apply (inv_type _ _ I t l E).
  - intros Hr. by apply elem_of_nil in Hr.
Qed.

Lemma get_atoms_by_type_NoDup sh sp t :
  index_inv sh sp -> NoDup (get_atoms_by_type t sp).
Proof.
  intros I. unfold get_atoms_by_type.
  destruct (_atoms_by_type sp !! t) as [l|] eqn:E; simpl.
  - by apply (inv_type _ _ I t l E).
  - constructor.
Qed.

Lemma add_to_indexes_by_type atom a bn sp :
  _atoms_by_type (add_to_indexes atom a bn sp)
  = <[atom_type a := get_atoms_by_type (atom_type a) sp ++ [atom]]>
      (_atoms_by_type sp).
Proof.
  unfold add_to_indexes, get_atoms_by_type. simpl.
  destruct (_atoms_by_type sp !! atom_type a) as [l|] eqn:E.
  - by rewrite E.
  - rewrite lookup_insert_eq. simpl. by rewrite insert_insert_eq.
Qed.

(** The indexes after an atom that is not stored has been added. *)
Lemma index_inv_add_new sh sp atom t c bn :
  index_inv sh sp ->
  sh !! atom = Some (t, c) ->
  _atoms_by_uuid sp !! atom = None ->
  match c with
  | Node n => _atoms_by_name sp !! (t, n) = None
              /\ bn = <[(t, n) := atom]> (_atoms_by_name sp)
  | Link _ => bn = _atoms_by_name sp
  end ->
  forall a, atom_type a = t ->
  index_inv sh (add_to_indexes atom a bn sp).
Proof.
  intros I Hsh Hnew Hbn a <-.
  assert (Hnotin : atom ∉ get_atoms_by_type (atom_type a) sp).
  { intros Hin. apply (get_atoms_by_type_elem _ _ _ _ I) in Hin as [_ Hin].
    congruence. }
  assert (Hother : forall r, _atoms_by_uuid sp !! r = Some r ->
            <[atom := atom]> (_atoms_by_uuid sp) !! r = Some r).
  { intros r Hr. rewrite lookup_insert_ne; [done|congruence]. }
  split.
  - simpl. intros k r. rewrite lookup_insert. case_decide as Hk.
    + intros [= <-]. subst k. split; [done|]. by rewrite Hsh.
    + apply (inv_uuid _ _ I).
  - intros t l. rewrite add_to_indexes_by_type, lookup_insert.
    case_decide as Ht.
    + intros [= <-]. subst t. split.
      * apply NoDup_app. split; [by eapply get_atoms_by_type_NoDup|].
        split; [|apply NoDup_singleton].
        intros x Hx ->%list_elem_of_singleton. done.
      * intros r [Hr| ->%list_elem_of_singleton]%elem_of_app.
        -- apply (get_atoms_by_type_elem _ _ _ _ I) in Hr as [Hc Hr].
           split; [done|]. by apply Hother.
        -- split; [eauto|]. simpl. apply lookup_insert_eq.
    + intros Hl. destruct (inv_type _ _ I t l Hl) as [Hnd Hel].
      split; [done|]. intros r Hr. destruct (Hel r Hr) as [Hc Hu].
      split; [done|]. by apply Hother.
  - intros r t c'. simpl. rewrite lookup_insert.
    unfold get_atoms_by_type at 1.
    rewrite add_to_indexes_by_type, lookup_insert.
    case_decide as Hr.
    + intros _. subst r. rewrite Hsh. intros [= <- <-].
      rewrite decide_True by done. simpl. apply elem_of_app. right.
      by apply list_elem_of_singleton.
    + intros Hu Hs. pose proof (inv_type_mem _ _ I r t c' Hu Hs) as Hin.
      case_decide as Ht; simpl.
      * subst t. apply elem_of_app. by left.
      * done.
  - intros t n r. simpl. destruct c as [nm|out].
    + destruct Hbn as [Hnone ->]. rewrite lookup_insert.
      case_decide as Hk.
      * intros [= <-]. injection Hk as <- <-.
        split; [done|]. apply lookup_insert_eq.
      * intros Hn. destruct (inv_name _ _ I t n r Hn) as [Hs Hu].
        split; [done|]. by apply Hother.
    + subst bn. intros Hn. destruct (inv_name _ _ I t n r Hn) as [Hs Hu].
      split; [done|]. by apply Hother.
  - intros r t n. simpl. rewrite lookup_insert. case_decide as Hr.
    + intros _. subst r. rewrite Hsh. intros [= <- ->].
      destruct Hbn as [_ ->]. apply lookup_insert_eq.
    + intros Hu Hs. pose proof (inv_name_mem _ _ I r t n Hu Hs) as Hn.
      destruct c as [nm|out].
      * destruct Hbn as [Hnone ->]. rewrite lookup_insert_ne; [done|].
        intros [= <- <-]. congruence.
      * by subst bn.
Qed.

Lemma list_remove_spec (x : ref) (l : list ref) :
  NoDup l -> x ∈ l ->
  exists l', list_remove x l = Some l' /\ NoDup l'
             /\ forall y, y ∈ l' <-> y ∈ l /\ y ≠ x.
Proof.
  induction l as [|y l IH]; intros Hnd Hx.
  - by apply elem_of_nil in Hx.
  - apply NoDup_cons in Hnd as [Hy Hnd]. simpl. case_bool_decide as E.
    + subst y. exists l. split; [done|]. split; [done|].
      intros z. rewrite elem_of_cons. split.
      * intros Hz. split; [by right|]. by intros ->.
      * by intros [[->|Hz] Hne].
    + apply elem_of_cons in Hx as [->|Hx]; [done|].
      destruct (IH Hnd Hx) as (l' & -> & Hnd' & Hl'). simpl.
      exists (y :: l'). split; [done|]. split.
      * apply NoDup_cons. split; [|done]. rewrite Hl'. by intros [? _].
      * intros z. rewrite !elem_of_cons, Hl'. split.
        -- intros [->|[Hz Hne]]; [split; [by left|congruence]|].
           split; [by right|done].
        -- intros [[->|Hz] Hne]; [by left|by right].
Qed.



(** The indexes after a stored atom has been removed. *)
Lemma index_inv_remove sh sp atom t c v :
  index_inv sh sp ->
  sh !! atom = Some (t, c) ->
  _atoms_by_uuid sp !! atom = Some v ->
  exists l l',
    _atoms_by_type sp !! t = Some l /\ list_remove atom l = Some l'
    /\ index_inv sh
         {| name := name sp;
            _atoms_by_uuid := delete atom (_atoms_by_uuid sp);
            _atoms_by_type := <[t := l']> (_atoms_by_type sp);
            _atoms_by_name := match c with
                              | Node n => delete (t, n) (_atoms_by_name sp)
                              | Link _ => _atoms_by_name sp
                              end;
            _callbacks := _callbacks sp |}.
Proof.
  intros I Hsh Hu.
  destruct (inv_uuid _ _ I _ _ Hu) as [<- _].
  pose proof (inv_type_mem _ _ I atom t c Hu Hsh) as Hin.
  unfold get_atoms_by_type in Hin.
  destruct (_atoms_by_type sp !! t) as [l|] eqn:El; simpl in Hin;
    [|by apply elem_of_nil in Hin].
  destruct (inv_type _ _ I t l El) as [Hnd Hel].
  destruct (list_remove_spec atom l Hnd Hin) as (l' & Hrm & Hnd' & Hl').
  exists l, l'. split; [done|]. split; [done|].
  assert (Hkeep : forall r, r ≠ atom -> _atoms_by_uuid sp !! r = Some r ->
            delete atom (_atoms_by_uuid sp) !! r = Some r).
  { intros r Hr Hs. by rewrite lookup_delete_ne. }
  split; simpl.
  - intros k r [Hk Hs]%lookup_delete_Some. by apply (inv_uuid _ _ I).
  - intros t0 l0. rewrite lookup_insert. case_decide as Ht.
    + intros [= <-]. subst t0. split; [done|].
      intros r [Hr Hne]%Hl'. destruct (Hel r Hr) as [Hc Hs].
      split; [done|]. by apply Hkeep.
    + intros Hl0. destruct (inv_type _ _ I t0 l0 Hl0) as [Hnd0 Hel0].
      split; [done|]. intros r Hr. destruct (Hel0 r Hr) as [[c0 Hc] Hs].
      split; [eauto|]. apply Hkeep; [|done]. intros ->. congruence.
  - intros r t0 c0 [Hr Hs]%lookup_delete_Some Hc.
    pose proof (inv_type_mem _ _ I r t0 c0 Hs Hc) as Hin0.
    unfold get_atoms_by_type in *. simpl. rewrite lookup_insert.
    case_decide as Ht; [|done]. subst t0. simpl.
    rewrite El in Hin0. simpl in Hin0. apply Hl'. done.
  - intros t0 n r Hn.
    assert (Hold : _atoms_by_name sp !! (t0, n) = Some r
                   /\ (t0, Node n) ≠ (t, c)).
    { destruct c as [nm|out].
      - apply lookup_delete_Some in Hn as [Hk Hn]. split; [done|]. congruence.
      - split; [done|]. congruence. }
    destruct Hold as [Hn' Hne].
    destruct (inv_name _ _ I t0 n r Hn') as [Hs Hu'].
    split; [done|]. apply Hkeep; [|done]. intros ->. congruence.
  - intros r t0 n [Hr Hs]%lookup_delete_Some Hc.
    pose proof (inv_name_mem _ _ I r t0 n Hs Hc) as Hn.
    destruct c as [nm|out]; [|done].
    rewrite lookup_delete_ne; [done|]. intros [= <- <-].
    pose proof (inv_name_mem _ _ I atom t nm Hu Hsh). congruence.
Qed.

(** [add] keeps the invariant when its argument, if a Link, is not stored;
    it always returns, and changes no atom's type or class. *)
Lemma add_keeps_inv st atom a :
  state_inv st ->
  heap st !! atom = Some a ->
  (is_link a = true -> get atom (space st) = None) ->
  exists r st', add atom st = Return r st' /\ state_inv st'
                /\ shapes (heap st') = shapes (heap st).
Proof.
  intros I Ha Hlink. unfold add. rewrite Ha.
  pose proof (shapes_lookup _ _ _ Ha) as Hsh.
  assert (Hnew : forall bn,
            _atoms_by_uuid (space st) !! atom = None ->
            match class a with
            | Node n => _atoms_by_name (space st) !! (atom_type a, n) = None
                        /\ bn = <[(atom_type a, n) := atom]> (_atoms_by_name (space st))
            | Link _ => bn = _atoms_by_name (space st)
            end ->
            state_inv (_notify "add" (Some atom)
                         (with_space st (add_to_indexes atom a bn (space st))))).
  { intros bn Hu Hbn. unfold state_inv. simpl.
    by eapply index_inv_add_new. }
  destruct (class a) as [nm|out] eqn:Ec.
  - destruct (_atoms_by_name (space st) !! (atom_type a, nm)) as [ex|] eqn:Ek.
    + destruct (inv_name _ _ I _ _ _ Ek) as [Hex _].
      unfold shapes in Hex. rewrite lookup_fmap in Hex.
      destruct (heap st !! ex) as [e|] eqn:Ee; [|discriminate].
      eexists _, _. split; [done|]. unfold state_inv. simpl.
      rewrite (shapes_set_tv _ _ _ _ Ee). done.
    + eexists _, _. split; [done|]. split; [|done]. apply Hnew; [|done].
      destruct (_atoms_by_uuid (space st) !! atom) as [v|] eqn:Eu; [|done].
      destruct (inv_uuid _ _ I _ _ Eu) as [<- _].
      pose proof (inv_name_mem _ _ I atom _ _ Eu Hsh). congruence.
  - eexists _, _. split; [done|]. split; [|done]. apply Hnew; [|done].
    apply Hlink. unfold is_link. by rewrite Ec.
Qed.

(** [remove] keeps the invariant; it returns and never raises. *)
Lemma remove_keeps_inv st atom a :
  state_inv st ->
  heap st !! atom = Some a ->
  exists b st', remove atom st = Return b st' /\ state_inv st'
                /\ heap st' = heap st.
Proof.
  intros I Ha. unfold remove. rewrite Ha.
  destruct (_atoms_by_uuid (space st) !! atom) as [v|] eqn:Eu.
  - destruct (index_inv_remove _ _ _ _ _ _ I (shapes_lookup _ _ _ Ha) Eu)
      as (l & l' & -> & -> & I').
    eexists _, _. split; [done|]. split; [|done].
    unfold state_inv. simpl. by destruct (class a).
  - eexists _, _. split; [done|]. done.
Qed.

Lemma clear_keeps_inv st : state_inv st -> state_inv (clear st).
Proof. intros _. apply index_inv_empty. Qed.

(** A run whose atoms exist and which adds no stored Link returns, in a
    state that satisfies the invariant. *)
Lemma run_keeps_inv ops : forall st,
  state_inv st ->
  Forall (fun atom => is_Some (shapes (heap st) !! atom)) (op_atoms ops) ->
  no_link_readded ops st = true ->
  exists st', run ops st = Return tt st' /\ state_inv st'.
Proof.
  induction ops as [|o ops IH]; intros st I Hlive Hfresh; simpl.
  - eauto.
  - simpl in Hfresh. apply andb_true_iff in Hfresh as [Hnow Hrest].
    assert (exists st1, step o st = Return tt st1 /\ state_inv st1
                        /\ shapes (heap st1) = shapes (heap st))
      as (st1 & Hstep & I1 & Hsh).
    { destruct o as [atom|atom|]; simpl in *.
      - apply Forall_cons in Hlive as [[s Hs] _].
        unfold shapes in Hs. rewrite lookup_fmap in Hs.
        destruct (heap st !! atom) as [a|] eqn:Ea; [|discriminate].
        destruct (add_keeps_inv st atom a I Ea) as (r & st1 & -> & ? & ?).
        + intros Hl. rewrite Hl in Hnow. simpl in Hnow.
          apply negb_true_iff, bool_decide_eq_false in Hnow.
          by apply eq_None_not_Some.
        + eauto.
      - apply Forall_cons in Hlive as [[s Hs] _].
        unfold shapes in Hs. rewrite lookup_fmap in Hs.
        destruct (heap st !! atom) as [a|] eqn:Ea; [|discriminate].
        destruct (remove_keeps_inv st atom a I Ea) as (b & st1 & -> & ? & Hh).
        exists st1. by rewrite Hh.
      - eexists. split; [done|]. split; [|done]. by apply clear_keeps_inv. }
    rewrite Hstep in Hrest |- *. apply IH; [done| |done].
    rewrite Hsh. unfold op_atoms in *. simpl in Hlive.
    apply Forall_app in Hlive as [_ Hlive]. done.
Qed.


End IndexInvariant.

Section IndexConsistency.
Import Atomspace.

Lemma run_add_add :
  run [Add "l"; Add "l"] link_state
  = Return tt (link_indexes {["l" := "l"]} ["l"; "l"]).
Proof. vm_compute. reflexivity. Qed.

Lemma run_add_add_remove :
  run [Add "l"; Add "l"; Remove "l"] link_state
  = Return tt (link_indexes ∅ ["l"]).
Proof. vm_compute. reflexivity. Qed.

(** C4 does not hold of the program: [add] looks for a stored atom only
    when its argument is a Node. After the same Link is added twice it
    occurs twice in the list of its type; and after it is then removed
    once, it is no value of [_atoms_by_uuid] but still occurs in that
    list. *)
Lemma readded_link_breaks_consistency :
  match run [Add "l"; Add "l"] link_state with
  | Return _ st =>
      occurrences (space st) "ListLink" "l" = 2%nat /\ ~ indexes_consistent st
  | _ => False
  end
  /\ match run [Add "l"; Add "l"; Remove "l"] link_state with
     | Return _ st =>
         ~ stored (space st) "l"
         /\ "l" ∈ get_atoms_by_type "ListLink" (space st)
         /\ ~ indexes_consistent st
     | _ => False
     end.
Proof.
  rewrite run_add_add, run_add_add_remove.
  assert (Hl : heap link_state !! "l"
               = Some {| atom_type := "ListLink"; tv := TV.simple_default;
                         av := AV.default; _incoming := [];
                         class := Link [] |})
    by apply lookup_singleton_eq.
  split.
  - split; [reflexivity|]. intros H.
    destruct (H "l" _ Hl) as (_ & Hocc & _).
    assert (2 = 1)%nat as E; [|discriminate E].
    apply Hocc. apply elem_of_cons. by left.
  - assert (Hns : ~ stored (space (link_indexes ∅ ["l"])) "l").
    { intros [k Hk]. simpl in Hk. by rewrite lookup_empty in Hk. }
    assert (Hin : "l" ∈ get_atoms_by_type "ListLink"
                          (space (link_indexes ∅ ["l"]))).
    { apply elem_of_cons. by left. }
    split; [exact Hns|]. split; [exact Hin|].
    intros H. destruct (H "l" _ Hl) as (Hiff & _ & _).
    apply Hns, Hiff. exact Hin.
Qed.



End IndexConsistency.

(** ** The cognitive kernel *)

Section CogkernelFacts.
Import Atomspace Cogkernel.

Example path_parts :
  split (strip "/atomspace/nodes/ConceptNode/A/")
  = ["atomspace"; "nodes"; "ConceptNode"; "A"]
  /\ split (strip "/a//b") = ["a"; ""; "b"]
  /\ split (strip "///") = [""].
Proof. repeat split. Qed.

Example resolve_examples :
  resolve_path "/atomspace/query" cogfs_init pln_state
  = Some (Mounted "/atomspace/query" (QueryNode None []))
  /\ resolve_path "/atomspace/nodes/ConceptNode/A" cogfs_init pln_state
     = Some (Made (AtomNode "uA"))
  /\ resolve_path "/atomspace/links/l2" cogfs_init pln_state
     = Some (Made (AtomNode "l2"))
  /\ resolve_path "/atomspace/nodes/ConceptNode/Z" cogfs_init pln_state = None
  /\ resolve_path "/proc/1/status" cogfs_init pln_state = None.
Proof. repeat split; vm_compute; reflexivity. Qed.

Lemma register_incoming_two h fresh A C link a c :
  h !! fresh = None -> h !! A = Some a -> h !! C = Some c ->
  exists h', register_incoming fresh [A; C] (<[fresh := link]> h) = Some h'
             /\ h' !! fresh = Some link
             /\ (forall r, r ≠ fresh -> r ≠ A -> r ≠ C -> h' !! r = h !! r).
Proof.
  intros Hf HA HC.
  assert (A ≠ fresh) by congruence. assert (C ≠ fresh) by congruence.
  simpl. rewrite lookup_insert_ne, HA by done.
  destruct (decide (A = C)) as [->|Hne].
  - rewrite lookup_insert_eq. eexists. split; [done|]. split.
    + rewrite !lookup_insert_ne by done. apply lookup_insert_eq.
    + intros r ? ? ?. by rewrite !lookup_insert_ne by done.
  - rewrite !lookup_insert_ne, HC by done. eexists. split; [done|]. split.
    + rewrite !lookup_insert_ne by done. apply lookup_insert_eq.
    + intros r ? ? ?. by rewrite !lookup_insert_ne by done.
Qed.

Lemma conclude_adds fresh link1 link2 st A C a c rest1 x2 rest2 :
  outgoing link1 = A :: rest1 ->
  outgoing link2 = x2 :: C :: rest2 ->
  heap st !! fresh = None ->
  heap st !! A = Some a -> heap st !! C = Some c ->
  exists st',
    conclude fresh link1 link2 st = Return (Some fresh) st'
    /\ link_added fresh A C
         (TV.simple (strength (tv link1) * strength (tv link2))
                    (confidence (tv link1) * confidence (tv link2)
                     * strength (tv link2)))
         st st'.
Proof.
  intros H1 H2 Hf HA HC. unfold conclude, new_link. rewrite H1, H2.
  cbn [lookup list_lookup]. rewrite Hf.
  edestruct (register_incoming_two (heap st) fresh A C) as (h' & -> & Hl & Ho);
    [done..|].
  simpl. unfold add. simpl. rewrite Hl. simpl.
  eexists. split; [done|]. unfold link_added. simpl.
  split; [done|]. split; [apply lookup_insert_eq|]. split.
  - unfold get_atoms_by_type. rewrite add_to_indexes_by_type. simpl.
    rewrite lookup_insert_eq. simpl. apply elem_of_app. right.
    by apply list_elem_of_singleton.
  - done.
Qed.

(** The premise uuids resolve to the atoms they name. *)
Lemma premises_resolve st (premises : list string) :
  Forall (fun u => get u (space st) = Some u) premises ->
  mapM (fun uuid => get uuid (space st)) premises = Some premises.
Proof.
  induction 1 as [|u us Hu _ IH]; [done|].
  simpl. rewrite Hu. simpl. rewrite IH. done.
Qed.

(** C2, amended. Let the two premises resolve to Links of type
    InheritanceLink, the first A1->B1 and the second A2->B2, in the order
    given, and let [fresh] be the uuid of the next object.
    If B1 = A2, the inference adds the new InheritanceLink A1->B2 with
    strength s1 * s2 and confidence c1 * c2 * s2 and returns its uuid;
    otherwise, if B2 = A1, it adds A2->B1 with strength s2 * s1 and
    confidence c2 * c1 * s1 and returns its uuid; otherwise it returns None
    and changes nothing. It also returns None, changing nothing, when a
    premise uuid does not resolve, when the premises are not two, and when
    one of two premises is no Link of type InheritanceLink. *)
Theorem deduction_follows_given_order
    (st : State) (fresh u1 u2 : ref) (link1 link2 : Atom)
    (A1 B1 A2 B2 : ref) :
  get u1 (space st) = Some u1 -> get u2 (space st) = Some u2 ->
  heap st !! u1 = Some link1 -> heap st !! u2 = Some link2 ->
  atom_type link1 = "InheritanceLink" -> class link1 = Link [A1; B1] ->
  atom_type link2 = "InheritanceLink" -> class link2 = Link [A2; B2] ->
  heap st !! fresh = None ->
  Forall (fun r => is_Some (heap st !! r)) [A1; B1; A2; B2] ->
  let s1 := strength (tv link1) in let c1 := confidence (tv link1) in
  let s2 := strength (tv link2) in let c2 := confidence (tv link2) in
  (B1 = A2 ->
   exists st', sys_infer fresh "deduction" [u1; u2] st = Return (Some fresh) st'
               /\ link_added fresh A1 B2 (TV.simple (s1 * s2) (c1 * c2 * s2))
                             st st')
  /\ (B1 ≠ A2 -> B2 = A1 ->
      exists st', sys_infer fresh "deduction" [u1; u2] st = Return (Some fresh) st'
                  /\ link_added fresh A2 B1 (TV.simple (s2 * s1) (c2 * c1 * s1))
                                st st')
  /\ (B1 ≠ A2 -> B2 ≠ A1 ->
      sys_infer fresh "deduction" [u1; u2] st = Return None st)
  /\ (forall premises,
        mapM (fun uuid => get uuid (space st)) premises = None ->
        sys_infer fresh "deduction" premises st = Return None st)
  /\ (forall premises,
        Forall (fun u => get u (space st) = Some u) premises ->
        length premises ≠ 2%nat ->
        sys_infer fresh "deduction" premises st = Return None st)
  /\ (forall v1 v2 p1 p2,
        get v1 (space st) = Some v1 -> get v2 (space st) = Some v2 ->
        heap st !! v1 = Some p1 -> heap st !! v2 = Some p2 ->
        is_inheritance_link p1 && is_inheritance_link p2 = false ->
        sys_infer fresh "deduction" [v1; v2] st = Return None st).
Proof.
  intros G1 G2 H1 H2 T1 C1 T2 C2 Hf Hlive s1 c1 s2 c2.
  apply Forall_cons in Hlive as [[a1 HA1] Hlive].
  apply Forall_cons in Hlive as [[b1 HB1] Hlive].
  apply Forall_cons in Hlive as [[a2 HA2] Hlive].
  apply Forall_cons in Hlive as [[b2 HB2] _].
  assert (O1 : outgoing link1 = [A1; B1]) by (unfold outgoing; by rewrite C1).
  assert (O2 : outgoing link2 = [A2; B2]) by (unfold outgoing; by rewrite C2).
  assert (I1 : is_inheritance_link link1 = true)
    by (unfold is_inheritance_link, is_link; by rewrite C1, T1).
  assert (I2 : is_inheritance_link link2 = true)
    by (unfold is_inheritance_link, is_link; by rewrite C2, T2).
  assert (E : sys_infer fresh "deduction" [u1; u2] st
              = if bool_decide (B1 ≠ A2)
                then if bool_decide (B2 = A1) then conclude fresh link2 link1 st
                     else Return None st
                else conclude fresh link1 link2 st).
  { unfold sys_infer. rewrite premises_resolve by (repeat constructor; done).
    simpl. rewrite H1, H2, I1, I2, O1, O2. done. }
  split; [|split; [|split; [|split; [|split]]]].
  - intros Hchain. rewrite E, bool_decide_eq_false_2 by (intros ?; done).
    by eapply conclude_adds.
  - intros Hne Hswap. rewrite E, bool_decide_eq_true_2, bool_decide_eq_true_2 by done.
    by eapply conclude_adds.
  - intros Hne Hne'. by rewrite E, bool_decide_eq_true_2, bool_decide_eq_false_2.
  - intros premises Hnone. unfold sys_infer. by rewrite Hnone.
  - intros premises Hres Hlen. unfold sys_infer.
    rewrite premises_resolve by done. simpl.
    destruct premises as [|p [|q [|r rest]]]; simpl in *; done.
  - intros v1 v2 p1 p2 Gv1 Gv2 Hp1 Hp2 Hno. unfold sys_infer.
    rewrite premises_resolve by (repeat constructor; done).
    simpl. by rewrite Hp1, Hp2, Hno.
Qed.

Lemma deduction_follows_given_order_witness :
  exists st',
    sys_infer "new" "deduction" ["l1"; "l2"] pln_state = Return (Some "new") st'
    /\ link_added "new" "uA" "uC"
         (TV.simple ((9 # 10) * (8 # 10)) ((8 # 10) * (7 # 10) * (8 # 10)))
         pln_state st'.
Proof.
  refine (proj1 (deduction_follows_given_order pln_state "new" "l1" "l2"
                   (inheritance "uA" "uB" (9 # 10) (8 # 10))
                   (inheritance "uB" "uC" (8 # 10) (7 # 10))
                   "uA" "uB" "uB" "uC" _ _ _ _ _ _ _ _ _ _) _);
    try (vm_compute; reflexivity).
  repeat (apply Forall_cons; split; [vm_compute; eauto|]). apply Forall_nil.
  exact I.
Defined.

Lemma deduction_on_cycle :
  exists st',
    sys_infer "new" "deduction" ["p"; "q"] cycle_state = Return (Some "new") st'
    /\ heap st' !! "new"
       = Some (inheritance "x" "x" ((9 # 10) * (1 # 2))
                           ((8 # 10) * (7 # 10) * (1 # 2))).
Proof.
  eexists. split; vm_compute; reflexivity.
Qed.

(** Against C2 as stated: for p = x->y and q = y->x, given as [p, q], the
    claim read with q as A->B and p as B->C (the premises in the other
    order) asks for a new link y->y of confidence cq * cp * sp = 0.504; the
    inference adds x->x of confidence cp * cq * sq = 0.28. *)
Lemma deduction_on_cycle_not_as_claimed :
  (exists st',
     sys_infer "new" "deduction" ["p"; "q"] cycle_state = Return (Some "new") st'
     /\ heap st' !! "new"
        = Some (inheritance "x" "x" ((9 # 10) * (1 # 2))
                            ((8 # 10) * (7 # 10) * (1 # 2))))
  /\ ~ ((8 # 10) * (7 # 10) * (1 # 2) == (7 # 10) * (8 # 10) * (9 # 10))%Q
  /\ ~ deduction_as_claimed "new" "p" "q" cycle_state.
Proof.
  split; [exact deduction_on_cycle|]. split; [discriminate|].
  intros H.
  destruct (H "q" "p" (inheritance "y" "x" (1 # 2) (7 # 10))
              (inheritance "x" "y" (9 # 10) (8 # 10)) "y" "x" "y")
    as (st' & c & Hrun & Hc & _ & Hout & _); try (vm_compute; reflexivity).
  { by right. }
  destruct deduction_on_cycle as (st'' & Hrun' & Hc').
  rewrite Hrun' in Hrun. injection Hrun as <-.
  rewrite Hc' in Hc. injection Hc as <-. discriminate Hout.
Qed.

(** C5. With the rule "induction" or "abduction", [sys_infer] returns None
    for every list of premise uuids (resolving to atoms or not), and the
    state is the one it was called in: no atom is added, removed or
    modified, and no callback is called. *)
Theorem induction_abduction_return_none
    (fresh : ref) (premises : list string) (st : State) :
  sys_infer fresh "induction" premises st = Return None st
  /\ sys_infer fresh "abduction" premises st = Return None st.
Proof.
  unfold sys_infer.
  destruct (mapM _ premises); split; reflexivity.
Qed.

(** C6. For a path that [resolve_path] does not resolve, [read] returns the
    empty bytes and [write] returns -1; for a path resolved to an AtomNode,
    [write] of data that is no valid JSON returns -1; in these cases the
    file system, the AtomSpace and every atom are as before. *)
Theorem cogfs_failures_change_nothing
    (path : string) (data : payload) (fs : CogFS) (st : State) :
  (resolve_path path fs st = None ->
   read path fs st = Some Empty
   /\ write path data fs st = Some ((-1)%Z, fs, st))
  /\ (forall r atom,
        resolve_path path fs st = Some r -> node_of r = AtomNode atom ->
        loads data = None ->
        write path data fs st = Some ((-1)%Z, fs, st)).
Proof.
  split.
  - intros Hr. unfold read, write. by rewrite Hr.
  - intros r atom Hr Hn Hl. unfold write, atom_write. by rewrite Hr, Hn, Hl.
Qed.

Lemma cogfs_failures_change_nothing_witness :
  (read "/atomspace/nodes/ConceptNode" cogfs_init pln_state = Some Empty
   /\ write "/atomspace/nodes/ConceptNode" garbage cogfs_init pln_state
      = Some ((-1)%Z, cogfs_init, pln_state))
  /\ write "/atomspace/nodes/ConceptNode/A" garbage cogfs_init pln_state
     = Some ((-1)%Z, cogfs_init, pln_state).
Proof.
  split.
  - apply (proj1 (cogfs_failures_change_nothing
                    "/atomspace/nodes/ConceptNode" garbage cogfs_init pln_state)).
    vm_compute. reflexivity.
  - apply (proj2 (cogfs_failures_change_nothing
                    "/atomspace/nodes/ConceptNode/A" garbage cogfs_init pln_state)
             (Made (AtomNode "uA")) "uA"); vm_compute; reflexivity.
Defined.

End CogkernelFacts.

(* ================================================================== *)
(** * Further properties                                                *)
(* ================================================================== *)

(** ** The tokenizer: vectors, snapshots, nested shells *)

Section TokenizerVectors.
Import Tokenizer.
Local Open Scope Q_scope.
Local Arguments _quantize : simpl never.
Local Arguments _dequantize : simpl never.

(** The clamp of [_quantize] is monotone. *)
Lemma clamp_monotone (x y : Q) :
  x <= y -> Py.max (-1) (Py.min 1 x) <= Py.max (-1) (Py.min 1 y).
Proof.
  intros Hxy.
  destruct (py_min_spec 1 x) as [[? ->]|[? ->]];
    destruct (py_min_spec 1 y) as [[? ->]|[? ->]];
    try (destruct (py_max_spec (-1) x) as [[? ->]|[? ->]]);
    try (destruct (py_max_spec (-1) y) as [[? ->]|[? ->]]);
    try (destruct (py_max_spec (-1) 1) as [[? ->]|[? ->]]);
    lra.
Qed.

(** The gap between a value of the range and its decoded token, in exact
    arithmetic. *)
Lemma roundtrip_gap (x : Q) :
  -1 <= x <= 1 -> 0 <= x - _dequantize init (_quantize init x) < 2 # 255.
Proof.
  intros Hx.
  rewrite dequantize_unfold, quantize_unfold.
  pose proof (scaled_range x) as [L _].
  destruct (py_int_bounds _ L) as [Lo Hi].
  set (k := inject_Z (Py.int _)) in *.
  assert (E : (Py.max (-1) (Py.min 1 x) - -1) / (1 - -1) * inject_Z (256 - 1)
              == (x + 1) * (255 # 2)).
  { rewrite (clamp_id x Hx). change (inject_Z (256 - 1)) with (255 # 1). field. }
  rewrite E in Lo, Hi. split; lra.
Qed.

(** X2. [_quantize] is monotone: a larger value never gets a smaller
    token. *)
Theorem quantize_monotone (x y : Q) :
  x <= y -> (_quantize init x <= _quantize init y)%Z.
Proof.
  intros Hxy. rewrite !quantize_unfold.
  pose proof (scaled_range x) as [Lx _]. pose proof (scaled_range y) as [Ly _].
  rewrite (py_int_floor _ Lx), (py_int_floor _ Ly).
  apply Qfloor_resp_le.
  pose proof (clamp_monotone x y Hxy) as Hc.
  set (cx := Py.max (-1) (Py.min 1 x)) in *.
  set (cy := Py.max (-1) (Py.min 1 y)) in *.
  change (inject_Z (256 - 1)) with (255 # 1).
  assert (Ex : (cx - -1) / (1 - -1) * (255 # 1) == (cx + 1) * (255 # 2)) by field.
  assert (Ey : (cy - -1) / (1 - -1) * (255 # 1) == (cy + 1) * (255 # 2)) by field.
  rewrite Ex, Ey. lra.
Qed.

Lemma quantize_monotone_witness :
  (_quantize init (-(1 # 2)) <= _quantize init (3 # 4))%Z.
Proof.
  apply (quantize_monotone (-(1 # 2)) (3 # 4)). unfold Qle; simpl; lia.
Defined.

(** X3. Outside the value range [_quantize] saturates: every value at or
    above 1 gets the token 255, which decodes to 1, and every value at or
    below -1 gets the token 0, which decodes to -1; so the round trip of a
    value outside the range returns the nearer end of the range, not a
    value within epsilon. *)
Theorem quantize_saturates (x : Q) :
  (1 <= x -> _quantize init x = 255%Z
             /\ _dequantize init (_quantize init x) == 1)
  /\ (x <= -1 -> _quantize init x = 0%Z
                 /\ _dequantize init (_quantize init x) == -1).
Proof.
  split; intros Hx.
  - assert (E : _quantize init x = 255%Z).
    { rewrite quantize_unfold.
      destruct (py_min_spec 1 x) as [[? ->]|[? ->]]; [lra|].
      destruct (py_max_spec (-1) 1) as [[? ->]|[? ->]]; [|lra].
      reflexivity. }
    split; [exact E|]. rewrite E. reflexivity.
  - assert (E : _quantize init x = 0%Z).
    { rewrite quantize_unfold.
      destruct (py_min_spec 1 x) as [[? ->]|[? ->]]; [|lra].
      destruct (py_max_spec (-1) x) as [[? ->]|[? ->]]; [lra|].
      reflexivity. }
    split; [exact E|]. rewrite E. reflexivity.
Qed.

Lemma quantize_saturates_witness :
  (_quantize init 7 = 255%Z /\ _dequantize init (_quantize init 7) == 1)
  /\ (_quantize init (-3) = 0%Z /\ _dequantize init (_quantize init (-3)) == -1).
Proof.
  split.
  - apply (proj1 (quantize_saturates 7)). unfold Qle; simpl; lia.
  - apply (proj2 (quantize_saturates (-3))). unfold Qle; simpl; lia.
Defined.

(** The offset an encoder adds is the offset its decoder takes off. *)
Lemma decode_encode_offset (off : Z) (state : list Q) :
  map (fun t => _dequantize init (t - off))
      (map (fun v => (off + _quantize init v)%Z) state)
  = map (fun x => _dequantize init (_quantize init x)) state.
Proof.
  rewrite map_map. apply map_ext. intros x. f_equal. lia.
Qed.

(** A decoded token of the quantizer is in the value range. *)
Lemma requantized_in_range (state : list Q) :
  in_range (map (fun x => _dequantize init (_quantize init x)) state).
Proof.
  apply Forall_map, Forall_forall. intros x _.
  pose proof (quantize_range x) as [L U].
  rewrite dequantize_unfold.
  assert (0 <= inject_Z (_quantize init x) <= 255) as [L' U'].
  { split; [change 0 with (inject_Z 0)|change 255 with (inject_Z 255)];
      rewrite <- Zle_Qle; lia. }
  split; lra.
Qed.

Lemma stream_token (sid : Z) :
  (1 <= sid <= 3)%Z -> encode_stream_id init sid = Some [(100 + sid - 1)%Z].
Proof.
  intros H. unfold encode_stream_id, NUM_STREAMS.
  replace ((1 <=? sid)%Z && (sid <=? 3)%Z) with true; [reflexivity|].
  symmetry; apply andb_true_intro; split; apply Z.leb_le; lia.
Qed.

Lemma step_token (step : Z) :
  (1 <= step <= 12)%Z -> encode_step_number init step = Some [(300 + step - 1)%Z].
Proof.
  intros H. unfold encode_step_number, CYCLE_LENGTH.
  replace ((1 <=? step)%Z && (step <=? 12)%Z) with true; [reflexivity|].
  symmetry; apply andb_true_intro; split; apply Z.leb_le; lia.
Qed.

(** A list of known length, entry by entry. *)
Ltac explode l H :=
  repeat (destruct l as [|? l]; [discriminate H|]);
  destruct l; [clear H|discriminate H].

(** X5. For a stream id in 1..3, a step in 1..12 and vectors of 4, 4 and 9
    entries, [encode_cognitive_state] returns 21 tokens: BOS first, EOS last,
    and between them the stream token in [100, 102], the step token in
    [300, 311], four perception tokens in [1000, 1255], four action tokens in
    [2000, 2255] and nine simulation tokens in [3000, 3255]; no token between
    the two ends is one of the special ids 0..3. *)
Theorem snapshot_has_layout (sid step : Z) (p a s : list Q) :
  (1 <= sid <= 3)%Z -> (1 <= step <= 12)%Z ->
  length p = 4%nat -> length a = 4%nat -> length s = 9%nat ->
  exists tokens,
    encode_cognitive_state init sid step p a s = Some tokens
    /\ snapshot_layout tokens.
Proof.
  intros Hsid Hstep Lp La Ls.
  unfold encode_cognitive_state.
  rewrite (stream_token sid Hsid), (step_token step Hstep).
  unfold encode_perception, encode_action, encode_simulation.
  rewrite Lp, La, Ls.
  explode p Lp. explode a La. explode s Ls.
  eexists. split; [reflexivity|].
  split; [reflexivity|]. split; [reflexivity|]. split; [reflexivity|].
  intros i t Hi.
  do 21 (destruct i as [|i]; [injection Hi as <-; simpl;
    repeat split; intros; try lia;
    match goal with
    | |- context [_quantize init ?v] => pose proof (quantize_range v); lia
    end|]).
  discriminate Hi.
Qed.

Lemma snapshot_has_layout_witness :
  exists tokens,
    encode_cognitive_state init 2 7 [0; 1; -1; 1 # 2] [0; 0; 0; 5]
      [0; 0; 0; 0; 0; 0; 0; 0; 1 # 3] = Some tokens
    /\ snapshot_layout tokens.
Proof.
  apply (snapshot_has_layout 2 7 [0; 1; -1; 1 # 2] [0; 0; 0; 5]
           [0; 0; 0; 0; 0; 0; 0; 0; 1 # 3]); (lia || reflexivity).
Defined.

(** X6. Decoding an encoded snapshot gives the stream id and the step back
    exactly. Each of the three vectors comes back with every entry
    replaced by the value decoded from the token of that entry (the offset
    an encoder adds is the one its decoder takes off), a value in [-1, 1]
    whatever the entry was. *)
Theorem snapshot_roundtrip (sid step : Z) (p a s : list Q) :
  (1 <= sid <= 3)%Z -> (1 <= step <= 12)%Z ->
  length p = 4%nat -> length a = 4%nat -> length s = 9%nat ->
  exists p' a' s',
    encode_cognitive_state init sid step p a s ≫= decode_cognitive_state init
    = Some (sid, step, p', a', s')
    /\ requantized p p' /\ requantized a a' /\ requantized s s'
    /\ in_range p' /\ in_range a' /\ in_range s'.
Proof.
  intros Hsid Hstep Lp La Ls.
  exists (map (fun x => _dequantize init (_quantize init x)) p),
         (map (fun x => _dequantize init (_quantize init x)) a),
         (map (fun x => _dequantize init (_quantize init x)) s).
  split; [|repeat split; apply requantized_in_range].
  rewrite <- (decode_encode_offset 1000 p), <- (decode_encode_offset 2000 a),
    <- (decode_encode_offset 3000 s).
  unfold encode_cognitive_state.
  rewrite (stream_token sid Hsid), (step_token step Hstep).
  unfold encode_perception, encode_action, encode_simulation.
  rewrite Lp, La, Ls.
  explode p Lp. explode a La. explode s Ls.
  simpl. unfold decode_cognitive_state, slice. simpl.
  repeat f_equal; lia.
Qed.

Lemma snapshot_roundtrip_witness :
  exists p' a' s',
    encode_cognitive_state init 3 12 [0; 1; -1; 1 # 2] [0; 0; 0; 7]
      [0; 0; 0; 0; 0; 0; 0; 0; 1 # 3] ≫= decode_cognitive_state init
    = Some (3%Z, 12%Z, p', a', s')
    /\ requantized [0; 1; -1; 1 # 2] p' /\ in_range a'.
Proof.
  destruct (snapshot_roundtrip 3 12 [0; 1; -1; 1 # 2] [0; 0; 0; 7]
              [0; 0; 0; 0; 0; 0; 0; 0; 1 # 3])
    as (p' & a' & s' & H & Hp & _ & _ & _ & Ha & _);
    try lia; try reflexivity.
  exists p', a', s'. split; [exact H|]. split; [exact Hp|exact Ha].
Defined.

(** X7. [decode_cognitive_state] accepts exactly the lists that start with
    BOS, end with EOS and have at least 20 tokens: it does not ask for the
    21 tokens of a snapshot, so a longer list decodes too (what lies
    between position 19 and the last token is ignored), and in a list of 20
    tokens the closing EOS is also read as the last simulation token. *)
Theorem decode_accepts_framed_lists (tokens : list Z) :
  is_Some (decode_cognitive_state init tokens)
  <-> head tokens = Some BOS_TOKEN_ID /\ last tokens = Some EOS_TOKEN_ID
      /\ (20 <= length tokens)%nat.
Proof.
  unfold decode_cognitive_state. split.
  - intros [r Hr].
    destruct (head tokens) as [first|] eqn:Eh; [|discriminate].
    destruct (last tokens) as [final|] eqn:El; [|discriminate].
    destruct ((first =? BOS_TOKEN_ID)%Z && (final =? EOS_TOKEN_ID)%Z) eqn:Ec;
      [|discriminate].
    apply andb_true_iff in Ec as [->%Z.eqb_eq ->%Z.eqb_eq].
    split; [done|]. split; [done|].
    destruct (decode_stream_id init _) as [sid|]; [|discriminate].
    destruct (decode_step_number init _) as [step|]; [|discriminate].
    destruct (decode_perception init _) as [p|]; [|discriminate].
    destruct (decode_action init _) as [a|]; [|discriminate].
    destruct (decode_simulation init _) as [sim|] eqn:Es; [|discriminate].
    unfold decode_simulation, slice in Es.
    destruct (Nat.eqb _ _) eqn:En; [|discriminate].
    apply Nat.eqb_eq in En. rewrite length_take, length_drop in En.
    unfold PERCEPTION_DIM, ACTION_DIM, SIMULATION_DIM in En. lia.
  - intros (Eh & El & Hlen). rewrite Eh, El. simpl.
    do 20 (destruct tokens as [|? tokens]; [simpl in Hlen; lia|]).
    unfold slice. simpl. eauto.
Qed.

Lemma decode_accepts_framed_lists_witness :
  is_Some (decode_cognitive_state init
             [1; 100; 300; 1000; 1001; 1002; 1003; 2000; 2001; 2002; 2003;
              3000; 3001; 3002; 3003; 3004; 3005; 3006; 3007; 2]%Z)
  /\ is_Some (decode_cognitive_state init
                ([1; 100; 300; 1000; 1001; 1002; 1003; 2000; 2001; 2002; 2003;
                  3000; 3001; 3002; 3003; 3004; 3005; 3006; 3007; 3008]
                 ++ [77; 78; 79; 2])%Z).
Proof.
  split; apply decode_accepts_framed_lists; repeat split; simpl; lia.
Defined.

(** X8. For nests of 1, 2, 4 and 9 entries [encode_nested_shells] returns
    16 tokens, each in [0, 255] (they carry no offset), and
    [decode_nested_shells] splits them into four nests of 1, 2, 4 and 9
    entries again: every entry is the value decoded from the token of the
    original entry, a value in [-1, 1]. *)
Theorem nested_shells_roundtrip (n1 n2 n3 n4 : list Q) :
  length n1 = 1%nat -> length n2 = 2%nat ->
  length n3 = 4%nat -> length n4 = 9%nat ->
  exists tokens n1' n2' n3' n4',
    encode_nested_shells init n1 n2 n3 n4 = Some tokens
    /\ length tokens = 16%nat
    /\ Forall (fun t => (0 <= t <= 255)%Z) tokens
    /\ decode_nested_shells init tokens = Some (n1', n2', n3', n4')
    /\ requantized n1 n1' /\ requantized n2 n2'
    /\ requantized n3 n3' /\ requantized n4 n4'
    /\ in_range n1' /\ in_range n2' /\ in_range n3' /\ in_range n4'.
Proof.
  intros L1 L2 L3 L4. unfold encode_nested_shells.
  rewrite L1, L2, L3, L4. simpl.
  eexists.
  exists (map (fun x => _dequantize init (_quantize init x)) n1),
         (map (fun x => _dequantize init (_quantize init x)) n2),
         (map (fun x => _dequantize init (_quantize init x)) n3),
         (map (fun x => _dequantize init (_quantize init x)) n4).
  split; [reflexivity|]. split.
  { rewrite !length_app, !length_map. lia. }
  split.
  { rewrite !Forall_app. repeat split; apply Forall_map, Forall_forall;
      intros x _; apply quantize_range. }
  split; [|repeat split; apply requantized_in_range].
  explode n1 L1. explode n2 L2. explode n3 L3. explode n4 L4.
  reflexivity.
Qed.

Lemma nested_shells_roundtrip_witness :
  exists tokens n1' n2' n3' n4',
    encode_nested_shells init [0] [1; -1] [0; 0; 0; 1 # 2]
      [0; 0; 0; 0; 0; 0; 0; 0; 9] = Some tokens
    /\ length tokens = 16%nat
    /\ Forall (fun t => (0 <= t <= 255)%Z) tokens
    /\ decode_nested_shells init tokens = Some (n1', n2', n3', n4')
    /\ in_range n4'.
Proof.
  destruct (nested_shells_roundtrip [0] [1; -1] [0; 0; 0; 1 # 2]
              [0; 0; 0; 0; 0; 0; 0; 0; 9] eq_refl eq_refl eq_refl eq_refl)
    as (tokens & n1' & n2' & n3' & n4' & E & L & F & D
        & _ & _ & _ & _ & _ & _ & _ & R).
  exists tokens, n1', n2', n3', n4'. auto.
Defined.

End TokenizerVectors.

(** ** The 256 tokens in binary64 *)

Section TokensBinary64.
Import PrimFloat Tokenizer64.




End TokensBinary64.

(** ** The A000081 generator: divisors, lazy lookups, positivity *)

Section OntogeneticMore.
Import Ontogenetic.
Local Open Scope Z_scope.

(** The body of the loop of [_divisors]. *)
Local Abbreviation collect n :=
  (fun (divs : list Z) (i : Z) =>
     if n mod i =? 0
     then let divs := divs ++ [i] in
          if negb (i =? n / i) then divs ++ [n / i] else divs
     else divs).

Lemma collect_elem (n : Z) (l : list Z) : forall (acc : list Z) (x : Z),
  x ∈ foldl (collect n) acc l
  <-> x ∈ acc \/ exists i, i ∈ l /\ n mod i = 0 /\ (x = i \/ x = n / i).
Proof.
  induction l as [|i l IH]; intros acc x; simpl.
  - split; [by left|]. intros [H|(i & Hi & _)]; [done|].
    by apply elem_of_nil in Hi.
  - rewrite IH. clear IH. split.
    + intros [H|(j & Hj & Hm & Hx)].
      * destruct (n mod i =? 0) eqn:Em; [|by left].
        apply Z.eqb_eq in Em.
        destruct (i =? n / i) eqn:Eq; simpl in H.
        -- apply elem_of_app in H as [H|H%list_elem_of_singleton]; [by left|].
           right. exists i. split; [by left|]. auto.
        -- apply elem_of_app in H as [H|H%list_elem_of_singleton].
           ++ apply elem_of_app in H as [H|H%list_elem_of_singleton]; [by left|].
              right. exists i. split; [by left|]. auto.
           ++ right. exists i. split; [by left|]. auto.
      * right. exists j. split; [by right|]. auto.
    + intros [H|(j & Hj & Hm & Hx)].
      * left. destruct (n mod i =? 0); [|done].
        destruct (i =? n / i); simpl; rewrite ?elem_of_app; auto.
      * apply elem_of_cons in Hj as [->|Hj].
        -- left. rewrite Hm. simpl.
           destruct (i =? n / i) eqn:Eq; simpl.
           ++ apply Z.eqb_eq in Eq. apply elem_of_app. right.
              apply list_elem_of_singleton. destruct Hx; congruence.
           ++ rewrite !elem_of_app, !list_elem_of_singleton. tauto.
        -- right. exists j. auto.
Qed.

Lemma collected_round (n i : Z) (acc : list Z) :
  1 <= i -> i * i <= n -> collected n i acc ->
  collected n (i + 1) (collect n acc i).
Proof.
  intros Hi Hsq [Hnd Hel].
  assert (Hold : forall x, x ∈ acc ->
            0 < x /\ x * (n / x) = n /\ (x < i + 1 \/ n / x < i + 1)).
  { intros x Hx. destruct (Hel x Hx) as (? & ? & ?). repeat split; lia. }
  destruct (n mod i =? 0) eqn:Em; [|by split].
  apply Z.eqb_eq in Em.
  assert (Hq : i * (n / i) = n).
  { pose proof (Z.div_mod n i). lia. }
  assert (Hqi : i <= n / i) by nia.
  assert (Hi_new : i ∉ acc).
  { intros Hx. destruct (Hel i Hx) as (_ & _ & [?|?]); lia. }
  assert (H1 : collected n (i + 1) (acc ++ [i])).
  { split.
    - apply NoDup_app. split; [done|]. split; [|apply NoDup_singleton].
      intros x Hx ->%list_elem_of_singleton. done.
    - intros x [Hx| ->%list_elem_of_singleton]%elem_of_app; [by apply Hold|].
      repeat split; lia. }
  simpl. destruct (i =? n / i) eqn:Eq; simpl; [exact H1|].
  apply Z.eqb_neq in Eq.
  assert (Hdq : n / (n / i) = i).
  { symmetry. apply Z.div_unique_exact; [lia|]. rewrite Z.mul_comm. by symmetry. }
  destruct H1 as [Hnd1 Hel1]. split.
  - apply NoDup_app. split; [done|]. split; [|apply NoDup_singleton].
    intros x Hx ->%list_elem_of_singleton.
    apply elem_of_app in Hx as [Hx|Hx%list_elem_of_singleton]; [|lia].
    destruct (Hel _ Hx) as (_ & _ & [?|?]); lia.
  - intros x [Hx| ->%list_elem_of_singleton]%elem_of_app; [by apply Hel1|].
    rewrite Hdq. repeat split; lia.
Qed.

Lemma collected_rounds (n : Z) (len : nat) : forall (i : Z) (acc : list Z),
  1 <= i -> (i + Z.of_nat len - 1) * (i + Z.of_nat len - 1) <= n \/ len = 0%nat ->
  collected n i acc ->
  collected n (i + Z.of_nat len) (foldl (collect n) acc (seqZ i (Z.of_nat len))).
Proof.
  induction len as [|len IH]; intros i acc Hi Hsq Hc.
  - simpl. by rewrite Z.add_0_r.
  - rewrite seqZ_cons by lia. cbn [foldl].
    replace (Z.pred (Z.of_nat (S len))) with (Z.of_nat len) by lia.
    replace (i + Z.of_nat (S len)) with (Z.succ i + Z.of_nat len) by lia.
    destruct Hsq as [Hsq|?]; [|done].
    apply IH; [lia| |].
    + destruct len; [by right|left].
      replace (Z.succ i + Z.of_nat (S len) - 1)
        with (i + Z.of_nat (S (S len)) - 1) by lia. done.
    + replace (Z.succ i) with (i + 1) by lia.
      apply collected_round; [done| |done]. nia.
Qed.

Lemma StronglySorted_le_lt (l : list Z) :
  StronglySorted Z.le l -> NoDup l -> StronglySorted Z.lt l.
Proof.
  induction 1 as [|x l Hs IH Hx]; intros Hnd; constructor.
  - apply IH. by apply NoDup_cons in Hnd as [_ ?].
  - apply NoDup_cons in Hnd as [Hnx _].
    rewrite Forall_forall in Hx |- *. intros y Hy.
    assert (x ≠ y) by (intros ->; by apply Hnx, list_elem_of_In).
    specialize (Hx y Hy). lia.
Qed.

Lemma divisors_elem (n d : Z) :
  1 <= n -> d ∈ _divisors n <-> 1 <= d /\ (d | n).
Proof.
  intros Hn. pose proof (Z.sqrt_spec n ltac:(lia)) as [Hlo Hhi].
  pose proof (Z.sqrt_nonneg n) as Hr.
  unfold _divisors. rewrite merge_sort_Permutation, collect_elem. split.
  - intros [H|(i & Hi & Hm & Hd)]; [by apply elem_of_nil in H|].
    apply elem_of_seqZ in Hi.
    assert (Hq : i * (n / i) = n) by (pose proof (Z.div_mod n i); lia).
    destruct Hd as [->| ->].
    + split; [lia|]. exists (n / i). lia.
    + split; [nia|]. exists i. lia.
  - intros [Hd [q Hq]]. right.
    assert (0 < q) by nia.
    destruct (decide (d <= Z.sqrt n)) as [Hle|Hgt].
    + exists d. split; [apply elem_of_seqZ; lia|]. split.
      * subst n. apply Z.mod_mul. lia.
      * by left.
    + exists q. split; [apply elem_of_seqZ; nia|]. split.
      * subst n. rewrite Z.mul_comm. apply Z.mod_mul. lia.
      * right. subst n. symmetry. rewrite Z.mul_comm. apply Z.div_mul. lia.
Qed.

Lemma divisors_increasing (n : Z) :
  1 <= n -> StronglySorted Z.lt (_divisors n).
Proof.
  intros Hn. pose proof (Z.sqrt_spec n ltac:(lia)) as [Hlo Hhi].
  pose proof (Z.sqrt_nonneg n) as Hr.
  unfold _divisors. apply StronglySorted_le_lt.
  - apply StronglySorted_merge_sort; apply _.
  - rewrite merge_sort_Permutation.
    destruct (collected_rounds n (Z.to_nat (Z.sqrt n)) 1 []) as [Hnd _].
    + lia.
    + rewrite Z2Nat.id by lia.
      destruct (decide (Z.sqrt n = 0)) as [E|E]; [right; lia|left].
      replace (1 + Z.sqrt n - 1) with (Z.sqrt n) by lia.
      unfold Z.succ in Hhi. lia.
    + split; [constructor|]. intros x Hx. by apply elem_of_nil in Hx.
    + by rewrite Z2Nat.id in Hnd by lia.
Qed.

(** X9. For every n >= 1, [_divisors(n)] is the strictly increasing list of
    the positive divisors of n: it holds d exactly when d >= 1 divides n,
    and no divisor twice (a square's root is listed once). *)
Theorem divisors_are_the_divisors (n : Z) :
  1 <= n ->
  (forall d, d ∈ _divisors n <-> 1 <= d /\ (d | n))
  /\ StronglySorted Z.lt (_divisors n).
Proof.
  intros Hn. split.
  - intros d. by apply divisors_elem.
  - by apply divisors_increasing.
Qed.

Lemma divisors_are_the_divisors_witness :
  (forall d, d ∈ _divisors 36 <-> 1 <= d /\ (d | 36))
  /\ StronglySorted Z.lt (_divisors 36).
Proof. apply (divisors_are_the_divisors 36). lia. Defined.

Example divisors_36 : _divisors 36 = [1; 2; 3; 4; 6; 9; 12; 18; 36].
Proof. reflexivity. Qed.

(** The cache after the rounds for the orders 2, ..., [m]. *)
Local Abbreviation upto m :=
  (foldl _precompute_round {[0 := 0; 1 := 1]} (seqZ 2 (m - 1))).

Lemma round_keeps_keys cache i k :
  is_Some (cache !! k) -> is_Some (_precompute_round cache i !! k).
Proof.
  intros Hk. unfold _precompute_round. destruct (cache !! i) eqn:E; [done|].
  destruct (decide (i = k)) as [->|Hne].
  - rewrite lookup_insert_eq. eauto.
  - by rewrite lookup_insert_ne.
Qed.

Lemma rounds_present (l : list Z) : forall cache k,
  k ∈ l \/ is_Some (cache !! k) ->
  is_Some (foldl _precompute_round cache l !! k).
Proof.
  induction l as [|i l IH]; intros cache k Hk; simpl.
  - destruct Hk as [Hk|Hk]; [by apply elem_of_nil in Hk|done].
  - apply IH. destruct Hk as [[->|Hk]%elem_of_cons|Hk]; [right|by left|right].
    + unfold _precompute_round. destruct (cache !! i) eqn:E; [by rewrite E|].
      rewrite lookup_insert_eq. eauto.
    + by apply round_keeps_keys.
Qed.

(** Rounds for orders that are all present change nothing. *)
Lemma rounds_noop (l : list Z) cache :
  (forall i, i ∈ l -> is_Some (cache !! i)) ->
  foldl _precompute_round cache l = cache.
Proof.
  induction l as [|i l IH]; intros H; simpl; [done|].
  assert (E : _precompute_round cache i = cache).
  { unfold _precompute_round. destruct (H i) as [v ->]; [by left|done]. }
  rewrite E. apply IH. intros j Hj. apply H. by right.
Qed.

Lemma upto_lookup_low m k : k < 2 -> upto m !! k = ({[0 := 0; 1 := 1]} : gmap Z Z) !! k.
Proof.
  intros Hk. apply precompute_rounds_other. rewrite elem_of_seqZ. lia.
Qed.

Lemma upto_lookup_high m k : m < k -> 2 <= k -> upto m !! k = None.
Proof.
  intros Hm Hk. rewrite precompute_rounds_other by (rewrite elem_of_seqZ; lia).
  rewrite lookup_insert_ne by lia. apply lookup_singleton_ne. lia.
Qed.

(** Extending the cache of a generator to a larger order gives the cache
    of a generator made for that order. *)
Lemma upto_extend m n :
  m <= n -> foldl _precompute_round (upto m) (seqZ 2 (n - 1)) = upto n.
Proof.
  intros Hmn. destruct (decide (m < 2)) as [Hm|Hm].
  - replace (upto m) with ({[0 := 0; 1 := 1]} : gmap Z Z); [done|].
    unfold seqZ. replace (Z.to_nat (m - 1)) with 0%nat by lia. done.
  - replace (n - 1) with ((m - 1) + (n - m)) by lia.
    rewrite !seqZ_app, !foldl_app by lia.
    rewrite (rounds_noop (seqZ 2 (m - 1)) (upto m)); [done|].
    intros i Hi. apply rounds_present. by left.
Qed.

(** What a lookup returns, whatever order the generator was made for. *)
Lemma getitem_value m n :
  fst (__getitem__ (__init__ m) n) = default 0 (upto n !! n).
Proof.
  unfold __getitem__, __init__, _precompute. cbn [_cache max_order].
  destruct (decide (n < 2)) as [H2|H2].
  - assert (E : seqZ 2 (n - 1) = []).
    { unfold seqZ. by replace (Z.to_nat (n - 1)) with 0%nat by lia. }
    rewrite (upto_lookup_low n n H2), <- (upto_lookup_low m n H2).
    destruct (upto m !! n) as [v|] eqn:Ev; cbn [fst _cache].
    + by rewrite Ev.
    + rewrite E. cbn [foldl]. by rewrite Ev.
  - destruct (decide (n <= m)) as [Hle|Hgt].
    + destruct (rounds_present (seqZ 2 (m - 1)) {[0 := 0; 1 := 1]} n) as [v Hv].
      { left. apply elem_of_seqZ. lia. }
      rewrite Hv. cbn [fst _cache]. rewrite Hv.
      rewrite <- (cache_upto_prefix n m) by lia. by rewrite Hv.
    + rewrite (upto_lookup_high m n) by lia. cbn [fst _cache].
      by rewrite (upto_extend m n) by lia.
Qed.

(** X10. A lookup does not depend on the order the generator was made for:
    an order beyond [max_order] is computed on demand, with the value a
    generator made for that order has, and it agrees with the table of the
    verification script up to order 20; an order below 1 gives 0. *)
Theorem lookup_independent_of_max_order (max_order n : Z) :
  (1 <= n -> fst (__getitem__ (__init__ max_order) n)
             = fst (__getitem__ (__init__ n) n))
  /\ (1 <= n <= 20 -> Tokenizer.A000081 !! Z.to_nat (n - 1)
                       = Some (fst (__getitem__ (__init__ max_order) n)))
  /\ (n <= 0 -> fst (__getitem__ (__init__ max_order) n) = 0).
Proof.
  split; [|split]; intros Hn.
  - by rewrite !getitem_value.
  - rewrite getitem_value, <- (cache_upto_table n n) by lia.
    destruct (rounds_present (seqZ 2 (n - 1)) {[0 := 0; 1 := 1]} n) as [v ->];
      [|done].
    destruct (decide (n = 1)) as [->|]; [by right|left].
    apply elem_of_seqZ. lia.
  - rewrite getitem_value. destruct (decide (n = 0)) as [->|]; [done|].
    rewrite upto_lookup_low by lia.
    by rewrite lookup_insert_ne, lookup_singleton_ne by lia.
Qed.

Lemma lookup_independent_of_max_order_witness :
  fst (__getitem__ (__init__ 5) 12) = fst (__getitem__ (__init__ 12) 12)
  /\ Tokenizer.A000081 !! Z.to_nat (12 - 1)
     = Some (fst (__getitem__ (__init__ 5) 12))
  /\ fst (__getitem__ (__init__ 5) (-4)) = 0.
Proof.
  destruct (lookup_independent_of_max_order 5 12) as (H1 & H2 & _).
  destruct (lookup_independent_of_max_order 5 (-4)) as (_ & _ & H3).
  split; [apply H1; lia|]. split; [apply H2; lia|apply H3; lia].
Defined.

Lemma foldl_grows {A : Type} (f : Z -> A -> Z) (l : list A) : forall t,
  (forall t x, x ∈ l -> t + 1 <= f t x) ->
  t + Z.of_nat (length l) <= foldl f t l.
Proof.
  induction l as [|x l IH]; intros t Hf; simpl; [lia|].
  specialize (IH (f t x) (fun t y Hy => Hf t y (list_elem_of_further _ _ _ Hy))).
  specialize (Hf t x (list_elem_of_here _ _)). lia.
Qed.

Lemma total_lower_bound cache i :
  2 <= i -> positive_upto cache (i - 1) -> i - 1 <= _precompute_total cache i.
Proof.
  intros Hi [Hpos _]. unfold _precompute_total.
  etransitivity; [|apply foldl_grows].
  { rewrite length_seqZ. lia. }
  intros t k Hk%elem_of_seqZ.
  etransitivity; [|apply foldl_grows].
  - assert (1 ∈ _divisors k) as H1.
    { apply divisors_elem; [lia|]. split; [lia|]. apply Z.divide_1_l. }
    destruct (_divisors k); [by apply elem_of_nil in H1|]. simpl. lia.
  - intros t' d Hd. apply divisors_elem in Hd as [Hd1 Hdk]; [|lia].
    apply Z.divide_pos_le in Hdk; [|lia].
    destruct (Hpos d) as (a_d & -> & ?); [lia|].
    destruct (Hpos (i - k)) as (a_ik & -> & ?); [lia|].
    nia.
Qed.

Lemma round_positive cache i :
  2 <= i -> positive_upto cache (i - 1) ->
  positive_upto (_precompute_round cache i) i.
Proof.
  intros Hi Hc. pose proof (total_lower_bound cache i Hi Hc) as Ht.
  destruct Hc as [Hpos Hnone]. unfold _precompute_round.
  rewrite (Hnone i) by lia. split.
  - intros k Hk. destruct (decide (k = i)) as [->|Hne].
    + rewrite lookup_insert_eq. eexists. split; [done|].
      replace (1 <? i) with true by (symmetry; apply Z.ltb_lt; lia).
      apply Z.div_le_lower_bound; lia.
    + rewrite lookup_insert_ne by done. apply Hpos. lia.
  - intros k Hk. rewrite lookup_insert_ne by lia. apply Hnone. lia.
Qed.

Lemma rounds_positive (len : nat) : forall cache i,
  2 <= i -> positive_upto cache (i - 1) ->
  positive_upto (foldl _precompute_round cache (seqZ i (Z.of_nat len)))
                (i - 1 + Z.of_nat len).
Proof.
  induction len as [|len IH]; intros cache i Hi Hc.
  - simpl. by rewrite Z.add_0_r.
  - rewrite seqZ_cons by lia. cbn [foldl].
    replace (Z.pred (Z.of_nat (S len))) with (Z.of_nat len) by lia.
    replace (i - 1 + Z.of_nat (S len)) with (Z.succ i - 1 + Z.of_nat len) by lia.
    apply IH; [lia|]. replace (Z.succ i - 1) with i by lia.
    by apply round_positive.
Qed.

Lemma upto_positive n : 1 <= n -> positive_upto (upto n) n.
Proof.
  intros Hn.
  replace n with (2 - 1 + Z.of_nat (Z.to_nat (n - 1))) at 2 by lia.
  replace (n - 1) with (Z.of_nat (Z.to_nat (n - 1))) at 1 by lia.
  apply rounds_positive; [lia|]. split.
  - intros k Hk. assert (k = 1) as -> by lia. exists 1. done.
  - intros k Hk. rewrite lookup_insert_ne by lia. apply lookup_singleton_ne. lia.
Qed.

Lemma getitem_again (self : A000081Generator) (n : Z) :
  is_Some (_cache (snd (__getitem__ self n)) !! n) ->
  __getitem__ (snd (__getitem__ self n)) n = __getitem__ self n.
Proof.
  unfold __getitem__. cbn [snd].
  destruct (_cache self !! n) eqn:E.
  - intros _. rewrite !E. reflexivity.
  - intros [v Hv]. rewrite !Hv. reflexivity.
Qed.

(** X11. Every term of the sequence from order 1 on is at least 1, whatever
    order the generator was made for; so [inverse(n)] never takes its
    zero branch for n >= 1: it divides 1.0 by the term, which raises
    OverflowError exactly when the term is 2^1024 - 2^970 or more, too
    large for a float. For n <= 0 the term is 0 and [inverse(n)] is 0.0. *)
Theorem terms_positive_inverse_defined (max_order n : Z) :
  let a_n := fst (__getitem__ (__init__ max_order) n) in
  (1 <= n ->
   1 <= a_n
   /\ fst (inverse (__init__ max_order) n)
      = (PrimFloat.div PrimFloat.one <$> Binary64.float_of_int a_n)
   /\ (fst (inverse (__init__ max_order) n) = None
       <-> Binary64.overflow_threshold <= a_n))
  /\ (n <= 0 -> a_n = 0
                /\ fst (inverse (__init__ max_order) n) = Some PrimFloat.zero).
Proof.
  intros a_n.
  pose proof (eq_refl : a_n = fst (__getitem__ (__init__ max_order) n)) as Hdef.
  clearbody a_n.
  assert (Hval : a_n = default 0 (upto n !! n))
    by (rewrite Hdef; apply getitem_value).
  split; intros Hn.
  - assert (Ha : 1 <= a_n).
    { rewrite Hval. destruct (upto_positive n Hn) as [Hpos _].
      destruct (Hpos n) as (v & -> & ?); [lia|done]. }
    assert (Hinv : fst (inverse (__init__ max_order) n)
                   = (PrimFloat.div PrimFloat.one
                        <$> Binary64.float_of_int a_n)).
    { assert (Hsome : is_Some (_cache (snd (__getitem__ (__init__ max_order) n))
                                 !! n)).
      { unfold __getitem__ in Hdef |- *. cbn [fst snd] in Hdef |- *.
        destruct (_cache _ !! n) as [w|] eqn:Ew; [done|].
        simpl in Hdef. lia. }
      apply getitem_again in Hsome. unfold inverse.
      destruct (__getitem__ (__init__ max_order) n) as [v self'] eqn:E.
      cbn [fst snd] in Hdef, Hsome. subst v.
      replace (a_n =? 0) with false by (symmetry; apply Z.eqb_neq; lia).
      rewrite Hsome. reflexivity. }
    split; [done|]. split; [done|]. rewrite Hinv.
    unfold Binary64.float_of_int. rewrite Z.abs_eq by lia.
    destruct (Z.ltb_spec a_n Binary64.overflow_threshold); split;
      [discriminate|lia|lia|done].
  - assert (Ha : a_n = 0).
    { rewrite Hval.
      destruct (decide (n = 0)) as [->|]; [done|].
      rewrite upto_lookup_low by lia.
      by rewrite lookup_insert_ne, lookup_singleton_ne by lia. }
    split; [done|]. unfold inverse.
    destruct (__getitem__ (__init__ max_order) n) as [v self'] eqn:E.
    cbn [fst] in Hdef. subst v. rewrite Ha. reflexivity.
Qed.

Import PrimFloat.

Lemma terms_positive_inverse_defined_witness :
  fst (__getitem__ (__init__ 3) 8) = 115
  /\ fst (inverse (__init__ 3) 8) = Some 0x1.1cf06ada2811dp-7%float.
Proof.
  destruct (proj1 (terms_positive_inverse_defined 3 8)) as (_ & H & _); [lia|].
  split; [vm_compute; reflexivity|].
  rewrite H. vm_compute. reflexivity.
Defined.

End OntogeneticMore.

(** ** More on the AtomSpace *)

Section AtomspaceMore.
Import Atomspace Cogkernel.

Lemma pln_state_inv : state_inv pln_state.
Proof.
  destruct (run_keeps_inv
              [Add "uA"; Add "uB"; Add "uC"; Add "l1"; Add "l2"]
              {| heap := heap pln_state;
                 space := __init__ (JStr "test-kernel-space");
                 calls := [] |}) as (st & Hrun & Hst).
  - apply index_inv_empty.
  - vm_compute. repeat constructor; eexists; reflexivity.
  - vm_compute. reflexivity.
  - vm_compute in Hrun. injection Hrun as <-. exact Hst.
Qed.

(** X12. A truth value and an attention value come back unchanged from
    [from_dict(to_dict())]. [from_dict] of an empty dict gives the strength,
    confidence and type of [TruthValue.simple()] with the count 1, which
    [simple()] does not set: the two values differ. [from_dict] of an empty
    dict gives the defaults of an attention value, and an unknown type name
    is a KeyError. *)
Theorem values_from_dict_to_dict (t : TruthValue) (v : AttentionValue) :
  tv_from_dict (TV.to_dict t) = Built t
  /\ av_from_dict (AV.to_dict v) = Built v
  /\ tv_from_dict (JObj [])
     = Built {| strength := 1; confidence := 9 # 10; count := IntCount 1;
                tv_type := SIMPLE |}
  /\ tv_from_dict (JObj []) <> Built TV.simple_default
  /\ av_from_dict (JObj []) = Built AV.default
  /\ (forall s items,
        type_of_name (JStr s) = inl KeyError ->
        dict_get "type" items = Some (JStr s) ->
        tv_from_dict (JObj items) = Failed KeyError).
Proof.
  repeat split.
  - by destruct t as [s c [n|] []].
  - by destruct v.
  - discriminate.
  - intros s items Hs Hi. unfold tv_from_dict. rewrite Hi. simpl default.
    by rewrite Hs.
Qed.

Lemma values_from_dict_to_dict_witness :
  tv_from_dict (JObj [("type", JStr "simple")]) = Failed KeyError.
Proof.
  destruct (values_from_dict_to_dict TV.indefinite AV.default)
    as (_ & _ & _ & _ & _ & H).
  apply (H "simple"); reflexivity.
Defined.

Lemma Qplus_comm_eq (x y : Q) : (x + y)%Q = (y + x)%Q.
Proof.
  unfold Qplus. f_equal; [apply Z.add_comm | apply Pos.mul_comm].
Qed.

(** X13. [merge] gives the same value in both orders unless both truth
    values are indefinite, when it gives its argument; an indefinite value
    is neutral on either side. *)
Theorem merge_commutes (a b : TruthValue) :
  (TV.is_indefinite a && TV.is_indefinite b = false ->
   TV.merge a b = TV.merge b a)
  /\ (TV.is_indefinite a = true -> TV.merge a b = b)
  /\ (TV.is_indefinite a = false -> TV.is_indefinite b = true ->
      TV.merge a b = a).
Proof.
  unfold TV.merge.
  destruct (TV.is_indefinite a) eqn:Ha, (TV.is_indefinite b) eqn:Hb;
    repeat split; try done.
  intros _.
  rewrite (Qplus_comm_eq (confidence b) (confidence a)).
  rewrite (Qplus_comm_eq (strength b * confidence b)%Q).
  reflexivity.
Qed.

Lemma merge_commutes_witness :
  TV.merge (TV.simple (4 # 5) (9 # 10)) TV.indefinite
  = TV.merge TV.indefinite (TV.simple (4 # 5) (9 # 10)).
Proof.
  destruct (merge_commutes (TV.simple (4 # 5) (9 # 10)) TV.indefinite)
    as [H _].
  apply H. reflexivity.
Defined.

(** X14. The revision of two definite truth values whose strengths and
    confidences are in [0, 1], one confidence positive: the result is the
    SIMPLE truth value that [simple] makes, whatever the types and counts
    were, so its count is not set; its strength is in [0, 1]; its
    confidence is in [0, 1], at least the smaller and at most the larger of
    the two confidences. With both confidences 0 the result is the
    indefinite truth value. *)
Theorem merge_revision_bounds (a b : TruthValue) :
  TV.is_indefinite a = false -> TV.is_indefinite b = false ->
  (0 <= confidence a <= 1)%Q -> (0 <= confidence b <= 1)%Q ->
  (0 <= strength a <= 1)%Q -> (0 <= strength b <= 1)%Q ->
  let m := TV.merge a b in
  ((0 < confidence a + confidence b)%Q ->
   tv_type m = SIMPLE /\ count m = MethodCount
   /\ (0 <= strength m <= 1)%Q
   /\ (0 <= confidence m <= 1)%Q
   /\ (Py.min (confidence a) (confidence b) <= confidence m)%Q
   /\ (confidence m <= Py.max (confidence a) (confidence b))%Q)
  /\ ((confidence a + confidence b == 0)%Q -> m = TV.indefinite).
Proof.
  intros Ha Hb Hca Hcb Hsa Hsb m. subst m. unfold TV.merge.
  rewrite Ha, Hb. split.
  - intros Hpos.
    destruct (Qeq_bool _ 0) eqn:E; [apply Qeq_bool_iff in E; lra|].
    simpl. split; [done|]. split; [done|].
    assert (La : (0 <= strength a * confidence a)%Q)
      by (apply Qmult_le_0_compat; lra).
    assert (Lb : (0 <= strength b * confidence b)%Q)
      by (apply Qmult_le_0_compat; lra).
    assert (Ua : (0 <= (1 - strength a) * confidence a)%Q)
      by (apply Qmult_le_0_compat; lra).
    assert (Ub : (0 <= (1 - strength b) * confidence b)%Q)
      by (apply Qmult_le_0_compat; lra).
    split; [split|].
    + apply Qle_shift_div_l; [done|]. lra.
    + apply Qle_shift_div_r; [done|]. lra.
    + unfold Py.min, Py.max, Qdiv. change (/ 2)%Q with (1 # 2)%Q.
      repeat match goal with
             | |- context [Qlt_le_dec ?x ?y] => destruct (Qlt_le_dec x y)
             end; repeat split; lra.
  - intros Hz. apply Qeq_bool_iff in Hz. by rewrite Hz.
Qed.

Lemma merge_revision_bounds_witness :
  let m := TV.merge (TV.count (1 # 5) 1 40) (TV.count (3 # 5) (1 # 2) 2) in
  tv_type m = SIMPLE /\ count m = MethodCount
  /\ (0 <= strength m <= 1)%Q /\ (1 # 2 <= confidence m <= 1)%Q.
Proof.
  destruct (merge_revision_bounds
              (TV.count (1 # 5) 1 40) (TV.count (3 # 5) (1 # 2) 2))
    as [H _]; try reflexivity; try (simpl; lra).
  destruct H as (H1 & H2 & H3 & H4 & H5 & H6); [simpl; lra|].
  split; [exact H1|]. split; [exact H2|]. split; [exact H3|].
  split; [exact H5|exact (proj2 H4)].
Defined.

(** X15. [add] of an atom that is not stored, and whose (type, name) key
    is free if it is a Node: the atom itself is returned, found by [get]
    and, for a Node, by [get_node]; it is the last of its type's list; the
    size grows by one; the "add" callbacks are called with it in the order
    of their registration; no atom object changes and the other entries of
    the indexes stay. *)
Theorem add_new_atom (st : State) (atom : ref) (a : Atom) :
  heap st !! atom = Some a ->
  get atom (space st) = None ->
  (forall n, class a = Node n -> get_node (atom_type a) n (space st) = None) ->
  exists st',
    add atom st = Return atom st'
    /\ heap st' = heap st
    /\ get atom (space st') = Some atom
    /\ (forall n, class a = Node n ->
          get_node (atom_type a) n (space st') = Some atom)
    /\ get_atoms_by_type (atom_type a) (space st')
       = get_atoms_by_type (atom_type a) (space st) ++ [atom]
    /\ size (space st') = S (size (space st))
    /\ calls st' = calls st ++ notified "add" (Some atom) (space st)
    /\ (forall u, u ≠ atom -> get u (space st') = get u (space st))
    /\ (forall t, t ≠ atom_type a ->
          get_atoms_by_type t (space st') = get_atoms_by_type t (space st))
    /\ (forall t n, class a ≠ Node n \/ t ≠ atom_type a ->
          get_node t n (space st') = get_node t n (space st)).
Proof.
  intros Ha Hu Hn. unfold add. rewrite Ha.
  assert (Hcommon : forall bn,
    let st' := _notify "add" (Some atom)
                 (with_space st (add_to_indexes atom a bn (space st))) in
    heap st' = heap st
    /\ get atom (space st') = Some atom
    /\ get_atoms_by_type (atom_type a) (space st')
       = get_atoms_by_type (atom_type a) (space st) ++ [atom]
    /\ size (space st') = S (size (space st))
    /\ calls st' = calls st ++ notified "add" (Some atom) (space st)
    /\ (forall u, u ≠ atom -> get u (space st') = get u (space st))
    /\ (forall t, t ≠ atom_type a ->
          get_atoms_by_type t (space st') = get_atoms_by_type t (space st))).
  { intros bn st'. subst st'. cbn [_notify heap space calls with_space].
    split; [done|]. split.
    { unfold get, add_to_indexes. simpl. apply lookup_insert_eq. }
    split.
    { unfold get_atoms_by_type at 1. rewrite add_to_indexes_by_type.
      by rewrite lookup_insert_eq. }
    split.
    { unfold size, add_to_indexes. simpl. by apply map_size_insert_None. }
    split; [done|]. split.
    { intros u Hne. unfold get, add_to_indexes. simpl.
      by apply lookup_insert_ne. }
    intros t Hne. unfold get_atoms_by_type at 1.
    rewrite add_to_indexes_by_type. by rewrite lookup_insert_ne. }
  destruct (class a) as [n|out] eqn:Hc.
  - specialize (Hn n eq_refl). unfold get_node in Hn. rewrite Hn.
    eexists. split; [reflexivity|].
    destruct (Hcommon (<[(atom_type a, n) := atom]> (_atoms_by_name (space st))))
      as (H1 & H2 & H3 & H4 & H5 & H6 & H7).
    split; [done|]. split; [done|]. split.
    { intros n' [= <-]. unfold get_node. simpl. apply lookup_insert_eq. }
    split; [done|]. split; [done|]. split; [done|]. split; [done|].
    split; [done|].
    intros t n' Hne. unfold get_node. simpl. apply lookup_insert_ne.
    intros [= <- <-]. by destruct Hne.
  - eexists. split; [reflexivity|].
    destruct (Hcommon (_atoms_by_name (space st)))
      as (H1 & H2 & H3 & H4 & H5 & H6 & H7).
    split; [done|]. split; [done|]. split; [done|].
    split; [done|]. split; [done|]. split; [done|]. split; [done|].
    split; [done|]. done.
Qed.

Lemma add_new_atom_witness :
  exists st',
    add "l" link_state = Return "l" st'
    /\ get "l" (space st') = Some "l"
    /\ size (space st') = 1%nat.
Proof.
  destruct (add_new_atom link_state "l"
              {| atom_type := "ListLink"; tv := TV.simple_default;
                 av := AV.default; _incoming := []; class := Link [] |})
    as (st' & H1 & _ & H3 & _ & _ & H6 & _); [reflexivity|reflexivity|done|].
  exists st'. split; [exact H1|]. split; [exact H3|]. exact H6.
Defined.

Lemma list_remove_last (x : ref) (l : list ref) :
  x ∉ l -> list_remove x (l ++ [x]) = Some l.
Proof.
  induction l as [|y l IH]; intros Hx; simpl.
  - by rewrite bool_decide_eq_true_2.
  - apply not_elem_of_cons in Hx as [Hne Hx].
    rewrite bool_decide_eq_false_2 by done. by rewrite IH.
Qed.

(** X16. [remove] in an AtomSpace whose indexes are consistent. A stored
    atom leaves all three indexes, the others keep their places, the size
    drops by one, the "remove" callbacks are called with it and the indexes
    are consistent again; an atom that is not stored gives False and
    changes nothing, with no callback called. No atom object changes: the
    links that hold the atom still do. *)
Theorem remove_stored_atom (st : State) (atom : ref) (a : Atom) :
  state_inv st ->
  heap st !! atom = Some a ->
  (is_Some (get atom (space st)) ->
   exists st',
     remove atom st = Return true st'
     /\ heap st' = heap st
     /\ get atom (space st') = None
     /\ (forall t, atom ∉ get_atoms_by_type t (space st'))
     /\ (forall n, class a = Node n ->
           get_node (atom_type a) n (space st') = None)
     /\ S (size (space st')) = size (space st)
     /\ calls st' = calls st ++ notified "remove" (Some atom) (space st)
     /\ (forall u, u ≠ atom -> get u (space st') = get u (space st))
     /\ (forall t r, r ≠ atom ->
           r ∈ get_atoms_by_type t (space st')
           <-> r ∈ get_atoms_by_type t (space st))
     /\ state_inv st')
  /\ (get atom (space st) = None -> remove atom st = Return false st).
Proof.
  intros Hinv Ha. split.
  - intros [v Hv]. unfold get in Hv.
    pose proof (shapes_lookup _ _ _ Ha) as Hsh.
    destruct (index_inv_remove _ _ _ _ _ _ Hinv Hsh Hv)
      as (l & l' & Hl & Hl' & Hinv').
    destruct (inv_type _ _ Hinv _ _ Hl) as [Hnd Hmem].
    assert (Hin : atom ∈ l).
    { destruct (inv_uuid _ _ Hinv _ _ Hv) as [<- _].
      pose proof (inv_type_mem _ _ Hinv _ _ _ Hv Hsh) as Hin.
      unfold get_atoms_by_type in Hin. by rewrite Hl in Hin. }
    destruct (list_remove_spec atom l Hnd Hin) as (l2 & Hl2 & Hnd2 & Hspec).
    assert (l2 = l') as -> by congruence.
    unfold remove. rewrite Ha, Hv, Hl, Hl'.
    eexists. split; [reflexivity|].
    cbn [_notify heap space calls with_space _atoms_by_uuid _atoms_by_type
         _atoms_by_name _callbacks].
    split; [done|]. split; [apply lookup_delete_eq|]. split.
    { intros t Hc. unfold get_atoms_by_type in Hc. simpl in Hc.
      destruct (decide (t = atom_type a)) as [->|Hne].
      - rewrite lookup_insert_eq in Hc. simpl in Hc.
        apply Hspec in Hc as [_ Hc]. done.
      - rewrite lookup_insert_ne in Hc by done.
        destruct (_atoms_by_type (space st) !! t) as [lt|] eqn:Hlt;
          [|by apply elem_of_nil in Hc].
        simpl in Hc. destruct (inv_type _ _ Hinv _ _ Hlt) as [_ Hm].
        destruct (Hm _ Hc) as [[c Hc'] _]. rewrite Hsh in Hc'.
        congruence. }
    split.
    { intros n Hn. unfold get_node. simpl. rewrite Hn.
      apply lookup_delete_eq. }
    split.
    { unfold size. simpl. rewrite map_size_delete, Hv. simpl.
      assert (base.size (_atoms_by_uuid (space st)) ≠ 0%nat); [|lia].
      intros H0. apply map_size_empty_inv in H0. rewrite H0 in Hv.
      by rewrite lookup_empty in Hv. }
    split; [done|]. split.
    { intros u Hne. unfold get. simpl. by apply lookup_delete_ne. }
    split.
    { intros t r Hne. unfold get_atoms_by_type. simpl.
      destruct (decide (t = atom_type a)) as [->|Hnt].
      - rewrite lookup_insert_eq, Hl. simpl. rewrite Hspec. tauto.
      - by rewrite lookup_insert_ne. }
    unfold state_inv. simpl.
    destruct (class a); exact Hinv'.
  - intros Hn. unfold get in Hn. unfold remove. by rewrite Ha, Hn.
Qed.

Lemma remove_stored_atom_witness :
  exists st',
    remove "l1" pln_state = Return true st'
    /\ get "l1" (space st') = None
    /\ size (space st') = 4%nat.
Proof.
  pose proof pln_state_inv as Hinv.
  destruct (remove_stored_atom pln_state "l1"
              (inheritance "uA" "uB" (9 # 10) (8 # 10)) Hinv eq_refl)
    as [H _].
  destruct H as (st' & H1 & _ & H3 & _ & _ & H6 & _); [by eexists|].
  exists st'. split; [exact H1|]. split; [exact H3|].
  vm_compute in H6. by injection H6.
Defined.

(** X17. Adding an atom that is new to a consistent AtomSpace and removing
    it again restores what the AtomSpace answers: the uuid and name indexes
    are as before and every type has its former list; both callbacks have
    been called. *)
Theorem add_then_remove_restores (st : State) (atom : ref) (a : Atom) :
  state_inv st ->
  heap st !! atom = Some a ->
  get atom (space st) = None ->
  (forall n, class a = Node n -> get_node (atom_type a) n (space st) = None) ->
  exists st1 st2,
    add atom st = Return atom st1
    /\ remove atom st1 = Return true st2
    /\ heap st2 = heap st
    /\ _atoms_by_uuid (space st2) = _atoms_by_uuid (space st)
    /\ _atoms_by_name (space st2) = _atoms_by_name (space st)
    /\ (forall t, get_atoms_by_type t (space st2) = get_atoms_by_type t (space st))
    /\ size (space st2) = size (space st)
    /\ calls st2 = calls st ++ notified "add" (Some atom) (space st)
                            ++ notified "remove" (Some atom) (space st).
Proof.
  intros Hinv Ha Hu Hn. unfold get in Hu.
  assert (Hnotin : atom ∉ get_atoms_by_type (atom_type a) (space st)).
  { intros Hin. destruct (get_atoms_by_type_elem _ _ _ _ Hinv Hin) as [_ H].
    congruence. }
  assert (Hrem : forall bn,
    let st1 := _notify "add" (Some atom)
                 (with_space st (add_to_indexes atom a bn (space st))) in
    remove atom st1
    = Return true
        (_notify "remove" (Some atom)
           (with_space st1
              {| name := name (space st);
                 _atoms_by_uuid := delete atom (<[atom := atom]> (_atoms_by_uuid (space st)));
                 _atoms_by_type :=
                   <[atom_type a := get_atoms_by_type (atom_type a) (space st)]>
                     (_atoms_by_type (add_to_indexes atom a bn (space st)));
                 _atoms_by_name :=
                   match class a with
                   | Node n => delete (atom_type a, n) bn
                   | Link _ => bn
                   end;
                 _callbacks := _callbacks (space st) |}))).
  { intros bn st1. subst st1. unfold remove.
    cbn [_notify heap space with_space]. rewrite Ha.
    replace (_atoms_by_uuid (add_to_indexes atom a bn (space st)) !! atom)
      with (Some atom) by (symmetry; apply lookup_insert_eq).
    rewrite add_to_indexes_by_type, lookup_insert_eq.
    rewrite list_remove_last by done. reflexivity. }
  assert (Htypes : forall bn t,
    default [] (<[atom_type a := get_atoms_by_type (atom_type a) (space st)]>
                  (_atoms_by_type (add_to_indexes atom a bn (space st))) !! t)
    = get_atoms_by_type t (space st)).
  { intros bn t. rewrite add_to_indexes_by_type.
    destruct (decide (t = atom_type a)) as [->|Hne].
    - by rewrite lookup_insert_eq.
    - by rewrite !lookup_insert_ne. }
  unfold add. rewrite Ha.
  destruct (class a) as [n|out] eqn:Hc.
  - specialize (Hn n eq_refl). unfold get_node in Hn. rewrite Hn.
    eexists. eexists. split; [reflexivity|].
    split; [rewrite Hrem; reflexivity|].
    cbn [_notify heap space calls with_space _atoms_by_uuid _atoms_by_name
         _callbacks].
    split; [done|]. split; [by apply delete_insert_id|].
    split; [by apply delete_insert_id|]. split; [apply Htypes|].
    split; [unfold size; simpl; by rewrite delete_insert_id|].
    unfold notified. by rewrite <- app_assoc.
  - eexists. eexists. split; [reflexivity|].
    split; [rewrite Hrem; reflexivity|].
    cbn [_notify heap space calls with_space _atoms_by_uuid _atoms_by_name
         _callbacks].
    split; [done|]. split; [by apply delete_insert_id|].
    split; [done|]. split; [apply Htypes|].
    split; [unfold size; simpl; by rewrite delete_insert_id|].
    unfold notified. by rewrite <- app_assoc.
Qed.

Lemma add_then_remove_restores_witness :
  exists st1 st2,
    add "l" link_state = Return "l" st1
    /\ remove "l" st1 = Return true st2
    /\ size (space st2) = 0%nat.
Proof.
  destruct (add_then_remove_restores link_state "l"
              {| atom_type := "ListLink"; tv := TV.simple_default;
                 av := AV.default; _incoming := []; class := Link [] |})
    as (st1 & st2 & H1 & H2 & _ & _ & _ & _ & H7 & _);
    [apply index_inv_empty|reflexivity|reflexivity|done|].
  exists st1, st2. split; [exact H1|]. split; [exact H2|]. exact H7.
Defined.

Lemma add_incoming_again (a : Atom) (link : ref) :
  add_incoming (add_incoming a link) link = add_incoming a link.
Proof.
  unfold add_incoming. simpl.
  destruct (bool_decide (link ∈ _incoming a)) eqn:E.
  - by rewrite E.
  - rewrite bool_decide_eq_true_2; [done|].
    apply elem_of_app. right. apply list_elem_of_singleton. done.
Qed.

Lemma register_incoming_spec (link : ref) (outgoing : list ref) :
  forall h,
    (forall r, r ∈ outgoing -> is_Some (h !! r)) ->
    exists h',
      register_incoming link outgoing h = Some h'
      /\ forall r,
           h' !! r = (fun a => if bool_decide (r ∈ outgoing)
                               then add_incoming a link else a) <$> h !! r.
Proof.
  induction outgoing as [|x rest IH]; intros h Hall.
  - exists h. split; [done|]. intros r. simpl.
    destruct (h !! r); done.
  - destruct (Hall x (list_elem_of_here _ _)) as [a Ha]. simpl. rewrite Ha.
    destruct (IH (<[x := add_incoming a link]> h)) as (h' & Hreg & Hh').
    { intros r Hr. apply lookup_insert_is_Some'. right.
      apply Hall. by apply list_elem_of_further. }
    exists h'. split; [done|]. intros r. rewrite Hh'.
    destruct (decide (r = x)) as [->|Hne].
    + rewrite lookup_insert_eq, Ha. simpl. f_equal.
      rewrite (bool_decide_eq_true_2 (x ∈ x :: rest))
        by apply list_elem_of_here.
      destruct (bool_decide (x ∈ rest)); [apply add_incoming_again|done].
    + rewrite lookup_insert_ne by done.
      destruct (h !! r) as [b|]; [|done]. simpl. f_equal.
      assert (bool_decide (r ∈ x :: rest) = bool_decide (r ∈ rest)) as ->;
        [|done].
      apply bool_decide_ext. rewrite elem_of_cons. tauto.
Qed.

(** X18. Constructing a Link registers it as incoming with every atom of
    its outgoing list exactly once, also with an atom that occurs there
    several times: the link is appended to the atom's incoming list, and
    nothing else of the atom changes. The atoms outside the outgoing list
    and the AtomSpace are untouched: the new link is not stored. *)
Theorem new_link_registers_once
    (fresh : ref) (link_type : string) (out : list ref) (t : TruthValue)
    (st : State) :
  heap st !! fresh = None ->
  (forall r, r ∈ out -> is_Some (heap st !! r)) ->
  exists st',
    new_link fresh link_type out t st = Some st'
    /\ space st' = space st /\ calls st' = calls st
    /\ heap st' !! fresh
       = Some {| atom_type := link_type; tv := t; av := AV.default;
                 _incoming := []; class := Link out |}
    /\ get fresh (space st') = get fresh (space st)
    /\ forall r a, heap st !! r = Some a ->
         (r ∉ out -> heap st' !! r = Some a)
         /\ (r ∈ out ->
             exists a', heap st' !! r = Some a'
               /\ atom_type a' = atom_type a /\ tv a' = tv a /\ av a' = av a
               /\ class a' = class a
               /\ (fresh ∉ _incoming a -> _incoming a' = _incoming a ++ [fresh])
               /\ (NoDup (_incoming a) -> NoDup (_incoming a'))).
Proof.
  intros Hfresh Hall. unfold new_link. rewrite Hfresh.
  set (link := {| atom_type := link_type; tv := t; av := AV.default;
                  _incoming := []; class := Link out |}).
  assert (Hout : fresh ∉ out).
  { intros Hin. destruct (Hall _ Hin). congruence. }
  destruct (register_incoming_spec fresh out (<[fresh := link]> (heap st)))
    as (h' & Hreg & Hh').
  { intros r Hr. apply lookup_insert_is_Some'. right. by apply Hall. }
  rewrite Hreg. eexists. split; [reflexivity|]. simpl.
  split; [done|]. split; [done|]. split.
  { rewrite Hh', lookup_insert_eq. simpl.
    by rewrite bool_decide_eq_false_2. }
  split; [done|]. intros r a Ha.
  assert (r ≠ fresh) by congruence.
  rewrite Hh', lookup_insert_ne, Ha by done. simpl. split.
  - intros Hr. by rewrite bool_decide_eq_false_2.
  - intros Hr. rewrite bool_decide_eq_true_2 by done.
    eexists. split; [reflexivity|]. unfold add_incoming. simpl.
    repeat split.
    + intros Hnew. by rewrite bool_decide_eq_false_2.
    + intros Hnd. destruct (bool_decide (fresh ∈ _incoming a)) eqn:E; [done|].
      apply bool_decide_eq_false in E.
      apply NoDup_app. split; [done|]. split; [|apply NoDup_singleton].
      intros x Hx Hx'. apply list_elem_of_singleton in Hx'. by subst.
Qed.

Lemma new_link_registers_once_witness :
  exists st' a',
    new_link "new" "SimilarityLink" ["uC"; "uC"] TV.simple_default pln_state
    = Some st'
    /\ heap st' !! "uC" = Some a'
    /\ _incoming a' = ["l2"; "new"].
Proof.
  destruct (new_link_registers_once "new" "SimilarityLink" ["uC"; "uC"]
              TV.simple_default pln_state)
    as (st' & H1 & _ & _ & _ & _ & H);
    [reflexivity
    |intros r Hr; apply elem_of_cons in Hr as [->|Hr];
       [by eexists|apply elem_of_cons in Hr as [->|Hr];
                     [by eexists|by apply elem_of_nil in Hr]]|].
  destruct (H "uC" (concept "C" TV.simple_default ["l2"]) eq_refl) as [_ H'].
  destruct H' as (a' & H2 & _ & _ & _ & _ & H3 & _); [apply list_elem_of_here|].
  exists st', a'. split; [exact H1|]. split; [exact H2|].
  apply H3. intros Hin. apply list_elem_of_singleton in Hin. done.
Defined.

Lemma get_all_atoms_spec (sh : gmap ref (string * atom_class)) (sp : AtomSpace) :
  index_inv sh sp ->
  NoDup (get_all_atoms sp)
  /\ forall r, r ∈ get_all_atoms sp <-> _atoms_by_uuid sp !! r = Some r.
Proof.
  intros Hinv. unfold get_all_atoms.
  assert (Heq : (map_to_list (_atoms_by_uuid sp)).*2
                = (map_to_list (_atoms_by_uuid sp)).*1).
  { apply list_fmap_ext. intros i [k r] Hkr.
    apply list_elem_of_lookup_2 in Hkr. apply elem_of_map_to_list in Hkr.
    destruct (inv_uuid _ _ Hinv _ _ Hkr) as [-> _]. done. }
  rewrite Heq. split; [apply NoDup_fst_map_to_list|].
  intros r. rewrite list_elem_of_fmap. split.
  - intros ([k r'] & -> & Hkr). apply elem_of_map_to_list in Hkr. simpl.
    destruct (inv_uuid _ _ Hinv _ _ Hkr) as [-> _]. done.
  - intros Hr. exists (r, r). split; [done|]. by apply elem_of_map_to_list.
Qed.

Lemma decay_rounds (rate : Q) (l : list ref) :
  forall h,
    NoDup l -> (forall r, r ∈ l -> is_Some (h !! r)) ->
    exists h',
      foldl (decay_atom rate) (Some h) l = Some h'
      /\ forall r,
           h' !! r = (fun a => if bool_decide (r ∈ l)
                               then set_av a (AV.decay (av a) rate) else a)
                     <$> h !! r.
Proof.
  induction l as [|x l IH]; intros h Hnd Hall.
  - exists h. split; [done|]. intros r. simpl. by destruct (h !! r).
  - apply NoDup_cons in Hnd as [Hx Hnd].
    destruct (Hall x (list_elem_of_here _ _)) as [a Ha].
    cbn [foldl]. unfold decay_atom at 2. rewrite Ha.
    destruct (IH (<[x := set_av a (AV.decay (av a) rate)]> h) Hnd)
      as (h' & Hfold & Hh').
    { intros r Hr. apply lookup_insert_is_Some'. right.
      apply Hall. by apply list_elem_of_further. }
    exists h'. split; [done|]. intros r. rewrite Hh'.
    destruct (decide (r = x)) as [->|Hne].
    + rewrite lookup_insert_eq, Ha. simpl.
      rewrite (bool_decide_eq_false_2 (x ∈ l)) by done.
      by rewrite bool_decide_eq_true_2 by apply list_elem_of_here.
    + rewrite lookup_insert_ne by done.
      destruct (h !! r) as [b|]; [|done]. simpl. f_equal.
      assert (bool_decide (r ∈ x :: l) = bool_decide (r ∈ l)) as ->; [|done].
      apply bool_decide_ext. rewrite elem_of_cons. tauto.
Qed.

Lemma focus_spec (threshold : Q) (h : gmap ref Atom) (l : list ref) :
  (forall r, r ∈ l -> is_Some (h !! r)) ->
  exists atoms,
    mapM (fun r => (fun a => (r, a)) <$> h !! r) l = Some atoms
    /\ forall r,
         r ∈ (List.filter (fun ra => in_focus threshold (snd ra)) atoms).*1
         <-> r ∈ l /\ exists a, h !! r = Some a /\ in_focus threshold a = true.
Proof.
  induction l as [|x l IH]; intros Hall.
  - exists []. split; [done|]. intros r. simpl. split.
    + intros Hr. by apply elem_of_nil in Hr.
    + intros [Hr _]. by apply elem_of_nil in Hr.
  - destruct (Hall x (list_elem_of_here _ _)) as [a Ha].
    destruct IH as (atoms & Hm & Hspec).
    { intros r Hr. apply Hall. by apply list_elem_of_further. }
    exists ((x, a) :: atoms). split.
    { simpl. rewrite Ha. simpl. by rewrite Hm. }
    intros r. cbn [List.filter snd]. rewrite elem_of_cons.
    destruct (in_focus threshold a) eqn:Hf.
    + rewrite fmap_cons, elem_of_cons, Hspec. simpl. split.
      * intros [->|[Hr Ha']]; [|tauto]. split; [by left|]. by exists a.
      * intros [[->|Hr] Ha']; [by left|right; tauto].
    + rewrite Hspec. split.
      * intros [Hr Ha']. tauto.
      * intros [[->|Hr] Ha']; [|tauto].
        destruct Ha' as (a' & Ha' & Hf'). congruence.
Qed.

(** X19. In an AtomSpace with consistent indexes, [decay_attention] with a
    rate between 0 and 1 multiplies the STI of every stored atom by
    (1 - rate) once and leaves the other atom objects alone; for a positive
    threshold it brings no atom into the attentional focus: the focus
    afterwards is part of the focus before. *)
Theorem decay_never_adds_focus (st : State) (rate threshold : Q) :
  state_inv st ->
  (0 <= rate <= 1)%Q -> (0 < threshold)%Q ->
  exists st' before after,
    decay_attention rate st = Return tt st'
    /\ space st' = space st /\ calls st' = calls st
    /\ (forall r a, heap st !! r = Some a ->
          heap st' !! r
          = Some (if bool_decide (get r (space st) = Some r)
                  then set_av a (AV.decay (av a) rate) else a))
    /\ get_attentional_focus threshold st = Return before st
    /\ get_attentional_focus threshold st' = Return after st'
    /\ after ⊆ before.
Proof.
  intros Hinv Hrate Hthr.
  destruct (get_all_atoms_spec _ _ Hinv) as [Hnd Hall].
  assert (Hheap : forall r, r ∈ get_all_atoms (space st) ->
                            is_Some (heap st !! r)).
  { intros r Hr. apply Hall in Hr.
    destruct (inv_uuid _ _ Hinv _ _ Hr) as [_ [s Hs]].
    unfold shapes in Hs. rewrite lookup_fmap in Hs.
    destruct (heap st !! r); [by eexists|done]. }
  destruct (decay_rounds rate _ (heap st) Hnd Hheap) as (h' & Hfold & Hh').
  destruct (focus_spec threshold (heap st) _ Hheap) as (atoms & Hm & Hb).
  destruct (focus_spec threshold h' (get_all_atoms (space st)))
    as (atoms' & Hm' & Ha').
  { intros r Hr. rewrite Hh'. destruct (Hheap r Hr) as [a ->]. by eexists. }
  exists (with_heap st h').
  exists ((List.filter (fun ra => in_focus threshold (snd ra)) atoms).*1).
  exists ((List.filter (fun ra => in_focus threshold (snd ra)) atoms').*1).
  split; [unfold decay_attention; by rewrite Hfold|].
  split; [done|]. split; [done|]. split.
  { intros r a Hr. cbn [heap with_heap]. rewrite Hh', Hr. simpl. f_equal.
    assert (bool_decide (r ∈ get_all_atoms (space st))
            = bool_decide (get r (space st) = Some r)) as ->; [|done].
    apply bool_decide_ext. apply Hall. }
  split; [unfold get_attentional_focus; by rewrite Hm|].
  split.
  { unfold get_attentional_focus. cbn [heap space with_heap].
    by rewrite Hm'. }
  intros r Hr. apply Ha' in Hr as (Hin & a' & Hr & Hf).
  apply Hb. split; [done|].
  destruct (Hheap r Hin) as [a Ha]. exists a. split; [done|].
  rewrite Hh', Ha in Hr. simpl in Hr.
  rewrite bool_decide_eq_true_2 in Hr by done. injection Hr as <-.
  unfold in_focus in *. simpl in Hf.
  apply Qle_bool_iff in Hf. apply Qle_bool_iff.
  assert (0 <= 1 - rate)%Q by lra.
  destruct (Qlt_le_dec 0 (sti (av a))) as [Hpos|Hneg].
  - assert (0 <= sti (av a) * rate)%Q by (apply Qmult_le_0_compat; lra).
    lra.
  - assert (0 <= (- sti (av a)) * (1 - rate))%Q
      by (apply Qmult_le_0_compat; lra).
    lra.
Qed.

Lemma decay_never_adds_focus_witness :
  exists st' before after,
    decay_attention (1 # 10) pln_state = Return tt st'
    /\ get_attentional_focus (1 # 2) pln_state = Return before pln_state
    /\ get_attentional_focus (1 # 2) st' = Return after st'
    /\ after ⊆ before.
Proof.
  pose proof pln_state_inv as Hinv.
  destruct (decay_never_adds_focus pln_state (1 # 10) (1 # 2) Hinv)
    as (st' & before & after & H1 & _ & _ & _ & H5 & H6 & H7);
    [split; done|done|].
  exists st', before, after.
  split; [exact H1|]. split; [exact H5|]. split; [exact H6|]. exact H7.
Defined.

End AtomspaceMore.

(** ** More on the cognitive kernel *)

Section CogkernelMore.
Import Atomspace Cogkernel.

Lemma with_heap_same (st : State) (atom : ref) (a : Atom) :
  heap st !! atom = Some a -> with_heap st (<[atom := a]> (heap st)) = st.
Proof.
  intros Ha. rewrite insert_id by done. by destruct st.
Qed.

Lemma set_tv_same (a : Atom) : set_tv a (tv a) = a.
Proof. by destruct a. Qed.

Lemma set_av_same (a : Atom) : set_av a (av a) = a.
Proof. by destruct a. Qed.

Lemma tv_from_to_dict (t : TruthValue) : tv_from_dict (TV.to_dict t) = Built t.
Proof. by destruct t as [s c [n|] []]. Qed.

Lemma av_from_to_dict (v : AttentionValue) :
  av_from_dict (AV.to_dict v) = Built v.
Proof. by destruct v. Qed.

Lemma atom_write_both (st : State) (atom : ref) (a : Atom)
    (t : TruthValue) (v : AttentionValue) (items : list (string * json))
    (n : Z) :
  heap st !! atom = Some a ->
  dict_get "tv" items = Some (TV.to_dict t) ->
  dict_get "av" items = Some (AV.to_dict v) ->
  atom_write atom {| len := n; loads := Some (JObj items) |} st
  = Some (n, with_heap st (<[atom := set_av (set_tv a t) v]> (heap st))).
Proof.
  intros Ha Htv Hav. unfold atom_write, atom_update. cbn [loads len].
  unfold contains, getitem. rewrite Htv, Hav.
  rewrite !bool_decide_eq_true_2 by (by eexists).
  rewrite tv_from_to_dict, Ha, av_from_to_dict. cbn [heap with_heap].
  rewrite lookup_insert_eq. unfold with_heap. simpl.
  by rewrite insert_insert_eq.
Qed.

(** [json.dumps] takes the dict of an atom when the count of its truth
    value is an int, and only then. *)
Lemma atom_dict_serializable (atom : ref) (a : Atom) :
  serializable (atom_to_dict atom a)
  = match count (tv a) with IntCount _ => true | MethodCount => false end.
Proof.
  assert (Hout : forall refs : list ref,
             forallb serializable (JStr <$> refs) = true)
    by (intros refs; induction refs as [|o refs IH]; [reflexivity|];
        rewrite fmap_cons; cbn [forallb serializable andb]; exact IH).
  unfold atom_to_dict.
  destruct (class a) as [name|outgoing]; cbn [serializable forallb snd];
    rewrite ?Hout; unfold TV.to_dict, AV.to_dict;
    by destruct (count (tv a)).
Qed.

(** X20. A read of an atom's file. For an atom whose truth value holds an
    int count, the read returns the JSON text of the atom's dict, and
    writing that text back changes no value and is accepted: the write
    returns the length of the data. For an atom whose truth value holds no
    count (one made by [simple], [indefinite] or [merge]), the read raises
    TypeError. *)
Theorem write_back_what_was_read
    (path : string) (fs : CogFS) (st : State) (r : resolved)
    (atom : ref) (a : Atom) (n : Z) :
  resolve_path path fs st = Some r ->
  node_of r = AtomNode atom ->
  heap st !! atom = Some a ->
  (forall k, count (tv a) = IntCount k ->
     read path fs st = Some (Dumps (atom_to_dict atom a))
     /\ write path {| len := n; loads := Some (atom_to_dict atom a) |} fs st
        = Some (n, fs, st))
  /\ (count (tv a) = MethodCount -> read path fs st = Some RaisesTypeError).
Proof.
  intros Hr Hn Ha.
  assert (Hread : read path fs st = Some (dumps (atom_to_dict atom a))).
  { unfold read. rewrite Hr, Hn. unfold atom_read. by rewrite Ha. }
  rewrite Hread. unfold dumps. rewrite atom_dict_serializable.
  split; [intros k Hk; rewrite Hk; split; [done|]|by intros ->].
  unfold write. rewrite Hr, Hn.
  assert (exists items, atom_to_dict atom a = JObj items
                        /\ dict_get "tv" items = Some (TV.to_dict (tv a))
                        /\ dict_get "av" items = Some (AV.to_dict (av a)))
    as (items & -> & Htv & Hav).
  { unfold atom_to_dict. destruct (class a); eexists; done. }
  rewrite (atom_write_both st atom a (tv a) (av a)) by done. simpl.
  by rewrite set_tv_same, set_av_same, with_heap_same.
Qed.

Lemma write_back_what_was_read_witness :
  read "/atomspace/nodes/ConceptNode/dog" cogfs_init dog_state
  = Some (Dumps (atom_to_dict "d1"
                   (concept "dog" (TV.count (4 # 5) (9 # 10) 3) [])))
  /\ write "/atomspace/nodes/ConceptNode/dog"
        {| len := 200;
           loads := Some (atom_to_dict "d1"
                            (concept "dog" (TV.count (4 # 5) (9 # 10) 3) [])) |}
        cogfs_init dog_state
     = Some (200%Z, cogfs_init, dog_state)
  /\ read "/atomspace/nodes/ConceptNode/A" cogfs_init pln_state
     = Some RaisesTypeError.
Proof.
  destruct (write_back_what_was_read "/atomspace/nodes/ConceptNode/dog"
              cogfs_init dog_state (Made (AtomNode "d1")) "d1"
              (concept "dog" (TV.count (4 # 5) (9 # 10) 3) []) 200
              eq_refl eq_refl eq_refl) as [H _].
  destruct (write_back_what_was_read "/atomspace/nodes/ConceptNode/A"
              cogfs_init pln_state (Made (AtomNode "uA")) "uA"
              (concept "A" TV.simple_default ["l1"]) 0
              eq_refl eq_refl eq_refl) as [_ H'].
  destruct (H 3%Z eq_refl) as [H1 H2].
  split; [exact H1|]. split; [exact H2|]. exact (H' eq_refl).
Defined.

(** X21. A write to an atom sets the fields in the order "tv", "av": with
    a well-formed "tv" and no "av" in the data, the truth value is replaced
    and the attention value kept; with a well-formed "tv" and an "av" that
    is no dict, the write returns -1, yet the truth value has been
    replaced. *)
Theorem write_sets_tv_before_av
    (st : State) (atom : ref) (a : Atom) (t : TruthValue)
    (items : list (string * json)) (n : Z) :
  heap st !! atom = Some a ->
  dict_get "tv" items = Some (TV.to_dict t) ->
  let st' := with_heap st (<[atom := set_tv a t]> (heap st)) in
  (dict_get "av" items = None ->
   atom_write atom {| len := n; loads := Some (JObj items) |} st = Some (n, st'))
  /\ (forall v, dict_get "av" items = Some v ->
        (forall its, v ≠ JObj its) ->
        atom_write atom {| len := n; loads := Some (JObj items) |} st
        = Some ((-1)%Z, st')).
Proof.
  intros Ha Htv st'. unfold atom_write, atom_update. cbn [loads len].
  unfold contains, getitem. rewrite Htv.
  rewrite bool_decide_eq_true_2 by (by eexists).
  rewrite tv_from_to_dict, Ha. fold st'. split.
  - intros Hav. rewrite Hav.
    by rewrite bool_decide_eq_false_2 by (intros [? ?]; done).
  - intros v Hav Hv. rewrite Hav.
    rewrite bool_decide_eq_true_2 by (by eexists).
    destruct v; try done. by destruct (Hv items0).
Qed.

Lemma write_sets_tv_before_av_witness :
  exists st',
    atom_write "uA"
      {| len := 60;
         loads := Some (JObj [("tv", TV.to_dict (TV.count (1 # 4) (1 # 2) 5));
                              ("av", JNull)]) |}
      pln_state = Some ((-1)%Z, st')
    /\ (tv <$> heap st' !! "uA") = Some (TV.count (1 # 4) (1 # 2) 5).
Proof.
  destruct (write_sets_tv_before_av pln_state "uA"
              (concept "A" TV.simple_default ["l1"])
              (TV.count (1 # 4) (1 # 2) 5)
              [("tv", TV.to_dict (TV.count (1 # 4) (1 # 2) 5)); ("av", JNull)]
              60 eq_refl eq_refl) as [_ H].
  eexists. split; [apply (H JNull); [reflexivity|done]|].
  reflexivity.
Defined.

Lemma append_cons (c : ascii) (a s : string) :
  String c a +:+ s = String c (a +:+ s).
Proof. reflexivity. Qed.

Lemma append_empty (s : string) : s +:+ "" = s.
Proof. induction s as [|c s IH]; [done|]. by rewrite append_cons, IH. Qed.

Lemma append_assoc (a b c : string) : (a +:+ b) +:+ c = a +:+ (b +:+ c).
Proof.
  induction a as [|x a IH]; [done|]. by rewrite !append_cons, IH.
Qed.

Lemma rstrip_app_free (a s : string) :
  slash_free a = true -> rstrip (a +:+ s) = a +:+ rstrip s.
Proof.
  induction a as [|c a IH]; intros Ha; [done|].
  simpl in Ha. apply andb_true_iff in Ha as [Hc Ha].
  apply negb_true_iff in Hc. rewrite !append_cons. simpl.
  rewrite Hc. simpl. by rewrite IH.
Qed.

Lemma rstrip_free (a : string) : slash_free a = true -> rstrip a = a.
Proof.
  intros Ha. rewrite <- (append_empty a) at 1.
  rewrite rstrip_app_free by done. apply append_empty.
Qed.

Lemma rstrip_segment (a s : string) :
  slash_free a = true -> rstrip s ≠ "" ->
  rstrip (a +:+ String "/" s) = a +:+ String "/" (rstrip s)
  /\ a +:+ String "/" (rstrip s) ≠ "".
Proof.
  intros Ha Hs. split; [|by destruct a].
  rewrite rstrip_app_free by done. f_equal. simpl.
  destruct (rstrip s); done.
Qed.

Lemma rstrip_trailing (a s : string) :
  slash_free a = true -> rstrip s = "" ->
  rstrip (a +:+ String "/" s) = a.
Proof.
  intros Ha Hs. rewrite rstrip_app_free by done. simpl. rewrite Hs. simpl.
  apply append_empty.
Qed.

Lemma split_app_free (a s : string) :
  slash_free a = true -> split (a +:+ String "/" s) = a :: split s.
Proof.
  induction a as [|c a IH]; intros Ha; [done|].
  simpl in Ha. apply andb_true_iff in Ha as [Hc Ha].
  apply negb_true_iff in Hc. rewrite !append_cons. simpl.
  rewrite Hc. by rewrite IH.
Qed.

Lemma split_free (a : string) : slash_free a = true -> split a = [a].
Proof.
  induction a as [|c a IH]; intros Ha; [done|].
  simpl in Ha. apply andb_true_iff in Ha as [Hc Ha].
  apply negb_true_iff in Hc. simpl. rewrite Hc. by rewrite IH.
Qed.

(** The parts of a path below "/atomspace": the directory, two names, and
    what may follow the second name. *)
Lemma parts_of_path (dir x y more : string) :
  slash_free dir = true -> slash_free x = true -> slash_free y = true ->
  y ≠ "" -> slash_free more = true ->
  split (strip ("/atomspace/" +:+ dir +:+ "/" +:+ x +:+ "/" +:+ y))
  = ["atomspace"; dir; x; y]
  /\ exists rest,
       split (strip ("/atomspace/" +:+ dir +:+ "/" +:+ x +:+ "/" +:+ y
                     +:+ "/" +:+ more))
       = "atomspace" :: dir :: x :: y :: rest.
Proof.
  intros Hd Hx Hy Hne Hm. unfold strip.
  assert (Hy' : rstrip y ≠ "") by (by rewrite rstrip_free).
  split.
  - change (lstrip ("/atomspace/" +:+ dir +:+ "/" +:+ x +:+ "/" +:+ y))
      with ("atomspace" +:+ String "/" (dir +:+ String "/" (x +:+ String "/" y))).
    destruct (rstrip_segment x y Hx Hy') as [E1 N1]. rewrite <- E1 in N1.
    destruct (rstrip_segment dir _ Hd N1) as [E2 N2]. rewrite <- E2 in N2.
    destruct (rstrip_segment "atomspace" _ eq_refl N2) as [E3 _].
    rewrite E3, E2, E1, (rstrip_free y) by done.
    rewrite !split_app_free by done. by rewrite split_free.
  - change (lstrip ("/atomspace/" +:+ dir +:+ "/" +:+ x +:+ "/" +:+ y
                    +:+ "/" +:+ more))
      with ("atomspace" +:+ String "/" (dir +:+ String "/"
              (x +:+ String "/" (y +:+ String "/" more)))).
    destruct more as [|c more'] eqn:Em.
    + assert (E0 : rstrip (y +:+ String "/" "") = y)
        by (by apply rstrip_trailing).
      assert (N0 : rstrip (y +:+ String "/" "") ≠ "") by (by rewrite E0).
      destruct (rstrip_segment x _ Hx N0) as [E1 N1]. rewrite <- E1 in N1.
      destruct (rstrip_segment dir _ Hd N1) as [E2 N2]. rewrite <- E2 in N2.
      destruct (rstrip_segment "atomspace" _ eq_refl N2) as [E3 _].
      rewrite E3, E2, E1, E0.
      rewrite !split_app_free by done. rewrite split_free by done.
      by exists [].
    + rewrite <- Em in *.
      assert (Hm' : rstrip more ≠ "") by (rewrite rstrip_free by done; by subst).
      destruct (rstrip_segment y _ Hy Hm') as [E0 N0]. rewrite <- E0 in N0.
      destruct (rstrip_segment x _ Hx N0) as [E1 N1]. rewrite <- E1 in N1.
      destruct (rstrip_segment dir _ Hd N1) as [E2 N2]. rewrite <- E2 in N2.
      destruct (rstrip_segment "atomspace" _ eq_refl N2) as [E3 _].
      rewrite E3, E2, E1, E0, (rstrip_free more) by done.
      rewrite !split_app_free by done. rewrite split_free by done.
      by exists [more].
Qed.

Lemma parts_of_short_path (dir x : string) :
  slash_free dir = true -> slash_free x = true -> x ≠ "" ->
  split (strip ("/atomspace/" +:+ dir +:+ "/" +:+ x)) = ["atomspace"; dir; x].
Proof.
  intros Hd Hx Hne. unfold strip.
  assert (Hx' : rstrip x ≠ "") by (by rewrite rstrip_free).
  change (lstrip ("/atomspace/" +:+ dir +:+ "/" +:+ x))
    with ("atomspace" +:+ String "/" (dir +:+ String "/" x)).
  destruct (rstrip_segment dir x Hd Hx') as [E2 N2]. rewrite <- E2 in N2.
  destruct (rstrip_segment "atomspace" _ eq_refl N2) as [E3 _].
  rewrite E3, E2, (rstrip_free x) by done.
  rewrite !split_app_free by done. by rewrite split_free.
Qed.

(** X22. Path resolution undoes the path scheme. For a type and a name
    without slashes, the name not empty, the path
    "/atomspace/nodes/<type>/<name>" resolves to what
    [get_node(type, name)] gives, and so does the path with one more
    component after the name, which is ignored. For a uuid without slashes
    and not empty, "/atomspace/links/<uuid>" resolves to what [get(uuid)]
    gives, a Node as well as a Link. *)
Theorem paths_resolve_by_name_and_uuid
    (fs : CogFS) (st : State) (node_type node_name more uuid : string) :
  slash_free node_type = true -> slash_free node_name = true ->
  node_name ≠ "" -> slash_free more = true ->
  slash_free uuid = true -> uuid ≠ "" ->
  let node := fun atom => Made (AtomNode atom) in
  let path := "/atomspace/nodes/" +:+ node_type +:+ "/" +:+ node_name in
  let link_path := "/atomspace/links/" +:+ uuid in
  (_nodes fs !! path = None ->
   resolve_path path fs st = node <$> get_node node_type node_name (space st))
  /\ (_nodes fs !! (path +:+ "/" +:+ more) = None ->
      resolve_path (path +:+ "/" +:+ more) fs st
      = node <$> get_node node_type node_name (space st))
  /\ (_nodes fs !! link_path = None ->
      resolve_path link_path fs st = node <$> get uuid (space st)).
Proof.
  intros Ht Hn Hne Hm Hu Hune node path link_path.
  destruct (parts_of_path "nodes" node_type node_name more eq_refl Ht Hn Hne Hm)
    as [E1 [rest E2]].
  pose proof (parts_of_short_path "links" uuid eq_refl Hu Hune) as E3.
  assert (Hp : path = "/atomspace/" +:+ "nodes" +:+ "/" +:+ node_type
                      +:+ "/" +:+ node_name) by reflexivity.
  assert (Hl : link_path = "/atomspace/" +:+ "links" +:+ "/" +:+ uuid)
    by reflexivity.
  split; [|split]; intros Hnone; unfold resolve_path; rewrite Hnone.
  - rewrite Hp, E1. simpl. by rewrite ?bool_decide_eq_true_2 by done.
  - replace (path +:+ "/" +:+ more)
      with ("/atomspace/" +:+ "nodes" +:+ "/" +:+ node_type +:+ "/"
            +:+ node_name +:+ "/" +:+ more)
      by (rewrite Hp; by rewrite !append_assoc).
    rewrite E2. simpl. by rewrite ?bool_decide_eq_true_2 by done.
  - rewrite Hl, E3. simpl. by rewrite ?bool_decide_eq_true_2 by done.
Qed.

Lemma paths_resolve_by_name_and_uuid_witness :
  resolve_path "/atomspace/nodes/ConceptNode/B/tv" cogfs_init pln_state
  = Some (Made (AtomNode "uB"))
  /\ resolve_path "/atomspace/links/uB" cogfs_init pln_state
     = Some (Made (AtomNode "uB")).
Proof.
  destruct (paths_resolve_by_name_and_uuid cogfs_init pln_state
              "ConceptNode" "B" "tv" "uB" eq_refl eq_refl ltac:(done) eq_refl
              eq_refl ltac:(done))
    as (_ & H1 & H2).
  split; [apply H1|apply H2]; reflexivity.
Defined.

(** X23. Modus ponens on a stored InheritanceLink A->B and a stored Node,
    the premises in either order, each atom with an AttentionValue object
    of its own: when the Node is A, the uuid of B is returned and 10 is
    added to the STI of B; nothing else changes: no atom is created, no
    truth value is computed, no callback is called. When the Node is not
    A, None is returned and nothing changes. (An atom that shares the
    AttentionValue object of B sees the same stimulation: the state here
    keeps one attention value per atom.) *)
Theorem modus_ponens_stimulates_consequent
    (st : State) (fresh impl ante : ref) (link node : Atom)
    (A B : ref) (b : Atom) :
  get impl (space st) = Some impl -> get ante (space st) = Some ante ->
  heap st !! impl = Some link -> heap st !! ante = Some node ->
  atom_type link = "InheritanceLink" -> class link = Link [A; B] ->
  is_node node = true ->
  heap st !! B = Some b ->
  let result := sys_infer fresh "modus_ponens" [impl; ante] st in
  sys_infer fresh "modus_ponens" [ante; impl] st = result
  /\ (A = ante ->
      result = Return (Some B)
                 (with_heap st
                    (<[B := set_av b (AV.stimulate (av b) 10)]> (heap st))))
  /\ (A ≠ ante -> result = Return None st).
Proof.
  intros Gi Ga Hi Ha Ht Hc Hn Hb result.
  assert (Il : is_inheritance_link link = true)
    by (unfold is_inheritance_link, is_link; by rewrite Hc, Ht).
  assert (In : is_inheritance_link node = false).
  { unfold is_inheritance_link, is_link. unfold is_node in Hn.
    by destruct (class node). }
  assert (O : outgoing link = [A; B]) by (unfold outgoing; by rewrite Hc).
  assert (E : forall premises,
    premises = [impl; ante] \/ premises = [ante; impl] ->
    sys_infer fresh "modus_ponens" premises st
    = if bool_decide (A ≠ ante) then Return None st
      else Return (Some B)
             (with_heap st
                (<[B := set_av b (AV.stimulate (av b) 10)]> (heap st)))).
  { intros premises [-> | ->]; unfold sys_infer;
      rewrite premises_resolve by (repeat constructor; done);
      simpl; unfold _modus_ponens; simpl;
      rewrite Hi, Ha, Il, In, Hn; simpl; rewrite ?Il, Hi, O; simpl;
      destruct (bool_decide (A ≠ ante)); [done| |done|]; by rewrite Hb. }
  subst result. rewrite !E by tauto. split; [done|]. split.
  - intros ->. by rewrite bool_decide_eq_false_2 by (intros ?; done).
  - intros Hne. by rewrite bool_decide_eq_true_2.
Qed.

Lemma modus_ponens_stimulates_consequent_witness :
  sys_infer "new" "modus_ponens" ["uA"; "l1"] pln_state
  = Return (Some "uB")
      (with_heap pln_state
         (<["uB" := set_av (concept "B" TV.simple_default ["l1"; "l2"])
                           (AV.stimulate AV.default 10)]> (heap pln_state))).
Proof.
  destruct (modus_ponens_stimulates_consequent pln_state "new" "l1" "uA"
              (inheritance "uA" "uB" (9 # 10) (8 # 10))
              (concept "A" TV.simple_default ["l1"]) "uA" "uB"
              (concept "B" TV.simple_default ["l1"; "l2"])
              eq_refl eq_refl eq_refl eq_refl eq_refl eq_refl eq_refl eq_refl)
    as (H1 & H2 & _).
  rewrite H1. apply H2. reflexivity.
Defined.

Lemma deduction_chains (st : State) (fresh u1 u2 : ref) (link1 link2 : Atom)
    (A B C : ref) :
  get u1 (space st) = Some u1 -> get u2 (space st) = Some u2 ->
  heap st !! u1 = Some link1 -> heap st !! u2 = Some link2 ->
  atom_type link1 = "InheritanceLink" -> class link1 = Link [A; B] ->
  atom_type link2 = "InheritanceLink" -> class link2 = Link [B; C] ->
  sys_infer fresh "deduction" [u1; u2] st = conclude fresh link1 link2 st.
Proof.
  intros G1 G2 H1 H2 T1 C1 T2 C2.
  assert (O1 : outgoing link1 = [A; B]) by (unfold outgoing; by rewrite C1).
  assert (O2 : outgoing link2 = [B; C]) by (unfold outgoing; by rewrite C2).
  assert (I1 : is_inheritance_link link1 = true)
    by (unfold is_inheritance_link, is_link; by rewrite C1, T1).
  assert (I2 : is_inheritance_link link2 = true)
    by (unfold is_inheritance_link, is_link; by rewrite C2, T2).
  unfold sys_infer. rewrite premises_resolve by (repeat constructor; done).
  simpl. rewrite H1, H2, I1, I2, O1, O2. simpl.
  by rewrite bool_decide_eq_false_2 by (intros ?; done).
Qed.

(** The state after [conclude]: the heap with the new link, registered as
    incoming with A and C, and the link added to the indexes. *)
Lemma conclude_state (st : State) (fresh : ref) (link1 link2 : Atom)
    (A B C : ref) :
  class link1 = Link [A; B] -> class link2 = Link [B; C] ->
  heap st !! fresh = None ->
  is_Some (heap st !! A) -> is_Some (heap st !! C) ->
  let new := {| atom_type := "InheritanceLink";
                tv := TV.simple (strength (tv link1) * strength (tv link2))
                                (confidence (tv link1) * confidence (tv link2)
                                 * strength (tv link2));
                av := AV.default; _incoming := []; class := Link [A; C] |} in
  exists h1,
    conclude fresh link1 link2 st
    = Return (Some fresh)
        (_notify "add" (Some fresh)
           (with_space (with_heap st h1)
              (add_to_indexes fresh new (_atoms_by_name (space st)) (space st))))
    /\ h1 !! fresh = Some new
    /\ (forall r, r ≠ fresh -> heap st !! r = None -> h1 !! r = None)
    /\ forall r a, heap st !! r = Some a ->
         exists a', h1 !! r = Some a'
                    /\ atom_type a' = atom_type a /\ class a' = class a
                    /\ tv a' = tv a.
Proof.
  intros C1 C2 Hf HA HC new.
  assert (O1 : outgoing link1 = [A; B]) by (unfold outgoing; by rewrite C1).
  assert (O2 : outgoing link2 = [B; C]) by (unfold outgoing; by rewrite C2).
  assert (Hout : fresh ∉ [A; C]).
  { intros Hin. apply elem_of_cons in Hin as [->|Hin];
      [destruct HA; congruence|].
    apply list_elem_of_singleton in Hin as ->. destruct HC; congruence. }
  destruct (register_incoming_spec fresh [A; C] (<[fresh := new]> (heap st)))
    as (h1 & Hreg & Hh1).
  { intros r Hr. apply lookup_insert_is_Some'. right.
    apply elem_of_cons in Hr as [->|Hr]; [done|].
    by apply list_elem_of_singleton in Hr as ->. }
  assert (Hnew : h1 !! fresh = Some new).
  { rewrite Hh1, lookup_insert_eq. simpl. by rewrite bool_decide_eq_false_2. }
  exists h1. split; [|split; [done|split]].
  - unfold conclude. rewrite O1, O2. cbn [lookup list_lookup].
    unfold new_link. rewrite Hf. fold new. rewrite Hreg. simpl.
    unfold add. cbn [heap with_heap space]. rewrite Hnew. done.
  - intros r Hne Hr. by rewrite Hh1, lookup_insert_ne, Hr.
  - intros r a Hr. assert (r ≠ fresh) by congruence.
    rewrite Hh1, lookup_insert_ne, Hr by done. simpl.
    eexists. split; [reflexivity|]. by destruct (bool_decide _).
Qed.

(** X24. Deduction does not look for a conclusion that is there already:
    asked twice for the same premises A->B and B->C, it creates and stores
    two links A->C with the same truth value, the last two of the
    InheritanceLink list. *)
Theorem deduction_repeated_duplicates
    (st : State) (fresh1 fresh2 u1 u2 : ref) (link1 link2 : Atom)
    (A B C : ref) :
  get u1 (space st) = Some u1 -> get u2 (space st) = Some u2 ->
  heap st !! u1 = Some link1 -> heap st !! u2 = Some link2 ->
  atom_type link1 = "InheritanceLink" -> class link1 = Link [A; B] ->
  atom_type link2 = "InheritanceLink" -> class link2 = Link [B; C] ->
  is_Some (heap st !! A) -> is_Some (heap st !! C) ->
  heap st !! fresh1 = None -> heap st !! fresh2 = None -> fresh1 ≠ fresh2 ->
  let t := TV.simple (strength (tv link1) * strength (tv link2))
                     (confidence (tv link1) * confidence (tv link2)
                      * strength (tv link2)) in
  exists st1 st2 c1 c2,
    sys_infer fresh1 "deduction" [u1; u2] st = Return (Some fresh1) st1
    /\ sys_infer fresh2 "deduction" [u1; u2] st1 = Return (Some fresh2) st2
    /\ get_atoms_by_type "InheritanceLink" (space st2)
       = get_atoms_by_type "InheritanceLink" (space st) ++ [fresh1; fresh2]
    /\ get fresh1 (space st2) = Some fresh1
    /\ get fresh2 (space st2) = Some fresh2
    /\ heap st2 !! fresh1 = Some c1 /\ heap st2 !! fresh2 = Some c2
    /\ class c1 = Link [A; C] /\ class c2 = Link [A; C]
    /\ tv c1 = t /\ tv c2 = t.
Proof.
  intros G1 G2 H1 H2 T1 C1 T2 C2 HA HC Hf1 Hf2 Hne t.
  destruct (conclude_state st fresh1 link1 link2 A B C C1 C2 Hf1 HA HC)
    as (h1 & E1 & Hn1 & Hno1 & Hk1).
  set (new := {| atom_type := "InheritanceLink"; tv := t; av := AV.default;
                 _incoming := []; class := Link [A; C] |}) in *.
  set (st1 := _notify "add" (Some fresh1)
                (with_space (with_heap st h1)
                   (add_to_indexes fresh1 new (_atoms_by_name (space st))
                      (space st)))) in *.
  destruct (Hk1 u1 link1 H1) as (l1' & H1' & T1' & C1' & V1').
  destruct (Hk1 u2 link2 H2) as (l2' & H2' & T2' & C2' & V2').
  assert (u1 ≠ fresh1) by congruence. assert (u2 ≠ fresh1) by congruence.
  assert (Hf2' : heap st1 !! fresh2 = None).
  { cbn [st1 heap _notify with_space with_heap]. by apply Hno1. }
  destruct (conclude_state st1 fresh2 l1' l2' A B C)
    as (h2 & E2 & Hn2 & _ & Hk2).
  { by rewrite C1'. } { by rewrite C2'. } { done. }
  { destruct HA as [a Ha]. destruct (Hk1 A a Ha) as (a' & Ha' & _).
    by exists a'. }
  { destruct HC as [c Hc]. destruct (Hk1 C c Hc) as (c' & Hc' & _).
    by exists c'. }
  rewrite V1', V2' in E2, Hn2. fold t in E2, Hn2. fold new in E2, Hn2.
  destruct (Hk2 fresh1 new Hn1) as (c1 & Hc1 & _ & Hcl1 & Htv1).
  eexists st1, _, c1, new.
  split.
  { rewrite (deduction_chains st fresh1 u1 u2 link1 link2 A B C) by done.
    exact E1. }
  split.
  { rewrite (deduction_chains st1 fresh2 u1 u2 l1' l2' A B C); try done.
    - unfold get. cbn [st1 space _notify with_space add_to_indexes
                       _atoms_by_uuid]. by rewrite lookup_insert_ne.
    - unfold get. cbn [st1 space _notify with_space add_to_indexes
                       _atoms_by_uuid]. by rewrite lookup_insert_ne.
    - by rewrite T1'.
    - by rewrite C1'.
    - by rewrite T2'.
    - by rewrite C2'. }
  cbn [space _notify with_space heap with_heap].
  split.
  { unfold get_atoms_by_type at 1. rewrite add_to_indexes_by_type.
    rewrite lookup_insert_eq. simpl.
    unfold get_atoms_by_type at 1. cbn [st1 space _notify with_space].
    rewrite add_to_indexes_by_type, lookup_insert_eq. simpl.
    by rewrite <- app_assoc. }
  split.
  { unfold get. cbn [add_to_indexes _atoms_by_uuid st1 space _notify
                     with_space].
    rewrite lookup_insert_ne by done. apply lookup_insert_eq. }
  split.
  { unfold get. cbn [add_to_indexes _atoms_by_uuid]. apply lookup_insert_eq. }
  split; [done|]. split; [done|]. split; [done|]. split; [done|].
  split; [done|]. done.
Qed.

Lemma deduction_repeated_duplicates_witness :
  exists st1 st2,
    sys_infer "n1" "deduction" ["l1"; "l2"] pln_state = Return (Some "n1") st1
    /\ sys_infer "n2" "deduction" ["l1"; "l2"] st1 = Return (Some "n2") st2
    /\ get_atoms_by_type "InheritanceLink" (space st2)
       = ["l1"; "l2"; "n1"; "n2"].
Proof.
  destruct (deduction_repeated_duplicates pln_state "n1" "n2" "l1" "l2"
              (inheritance "uA" "uB" (9 # 10) (8 # 10))
              (inheritance "uB" "uC" (8 # 10) (7 # 10)) "uA" "uB" "uC"
              eq_refl eq_refl eq_refl eq_refl eq_refl eq_refl eq_refl eq_refl
              ltac:(by eexists) ltac:(by eexists) eq_refl eq_refl ltac:(done))
    as (st1 & st2 & c1 & c2 & H1 & H2 & H3 & _).
  exists st1, st2. split; [exact H1|]. split; [exact H2|]. exact H3.
Defined.

Lemma query_read_dicts (st : State) (atoms : list ref) :
  (forall r, r ∈ atoms -> is_Some (heap st !! r)) ->
  exists dicts, query_read atoms st = Some (dumps (JArr dicts))
                /\ dicts_of st atoms dicts.
Proof.
  intros Hall. unfold query_read.
  assert (exists dicts,
            mapM (fun r => atom_to_dict r <$> heap st !! r) atoms = Some dicts
            /\ dicts_of st atoms dicts) as (dicts & -> & Hd).
  { induction atoms as [|x l IH].
    - exists []. split; [done|constructor].
    - destruct (Hall x (list_elem_of_here _ _)) as [a Ha].
      destruct IH as (dicts & Hm & Hd).
      { intros r Hr. apply Hall. by apply list_elem_of_further. }
      exists (atom_to_dict x a :: dicts). split.
      + simpl. rewrite Ha. simpl. by rewrite Hm.
      + constructor; [by exists a|done]. }
  by exists dicts.
Qed.

(** [json.dumps] takes the list of the atoms' dicts when every truth value
    holds an int count, and raises when one holds none. *)
Lemma dicts_dumps (st : State) (atoms : list ref) (dicts : list json) :
  dicts_of st atoms dicts ->
  (Forall (counted st) atoms -> dumps (JArr dicts) = Dumps (JArr dicts))
  /\ (Exists (uncounted st) atoms -> dumps (JArr dicts) = RaisesTypeError).
Proof.
  intros Hd.
  assert (Hs : (Forall (counted st) atoms -> forallb serializable dicts = true)
               /\ (Exists (uncounted st) atoms ->
                   forallb serializable dicts = false)).
  { induction Hd as [|r d atoms dicts (a & Ha & ->) Hd IH].
    - split; [done|]. intros H. by apply Exists_nil in H.
    - cbn [forallb]. rewrite atom_dict_serializable. split.
      + intros Hc. apply Forall_cons_1 in Hc as [(a' & k & Ha' & Hk) Hc].
        rewrite Ha in Ha'. injection Ha' as <-. rewrite Hk. cbn [andb].
        by apply IH.
      + intros He. apply Exists_cons in He as [(a' & Ha' & Hk)|He].
        * rewrite Ha in Ha'. injection Ha' as <-. by rewrite Hk.
        * destruct IH as [_ IH]. rewrite (IH He). apply andb_false_r. }
  unfold dumps. cbn [serializable]. destruct Hs as [Hok Hraise].
  split; intros H; [by rewrite Hok|by rewrite Hraise].
Qed.

Lemma stored_atoms_live (st : State) :
  state_inv st ->
  (forall t r, r ∈ get_atoms_by_type t (space st) -> is_Some (heap st !! r))
  /\ (forall r, r ∈ get_all_atoms (space st) -> is_Some (heap st !! r)).
Proof.
  intros Hinv.
  assert (Hsh : forall r, is_Some (shapes (heap st) !! r) ->
                          is_Some (heap st !! r)).
  { intros r [x Hx]. unfold shapes in Hx. rewrite lookup_fmap in Hx.
    destruct (heap st !! r); [by eexists|done]. }
  split.
  - intros t r Hr.
    destruct (get_atoms_by_type_elem _ _ _ _ Hinv Hr) as [[c Hc] _].
    apply Hsh. by eexists.
  - intros r Hr. unfold get_all_atoms in Hr.
    apply list_elem_of_fmap in Hr as ([k r'] & -> & Hkr).
    apply elem_of_map_to_list in Hkr.
    destruct (inv_uuid _ _ Hinv _ _ Hkr) as [_ Hs]. by apply Hsh.
Qed.

Lemma dog_state_inv : state_inv dog_state.
Proof.
  destruct (run_keeps_inv [Add "d1"]
              {| heap := heap dog_state; space := __init__ (JStr "kb");
                 calls := [] |}) as (st & Hrun & Hst).
  - apply index_inv_empty.
  - vm_compute. repeat constructor; eexists; reflexivity.
  - vm_compute. reflexivity.
  - vm_compute in Hrun. injection Hrun as <-. exact Hst.
Qed.

(** X25. A query written to the mounted query file selects the atoms that
    the next read of that file serializes. In an AtomSpace with consistent
    indexes, a write of a JSON object whose "type" is the string T selects
    the atoms of type T in the order they were added (none for a type that
    has no atoms); a write of an object without "type" selects all stored
    atoms. The write returns the length of the data and changes no atom.
    The read that follows returns the list of the dicts of the selected
    atoms when the truth value of each holds an int count, and raises
    TypeError when one of them holds none. *)
Theorem query_answered_by_read
    (st : State) (fs : CogFS) (q0 : option json) (r0 : list ref)
    (items : list (string * json)) (n : Z) :
  state_inv st ->
  _nodes fs !! "/atomspace/query" = Some (QueryNode q0 r0) ->
  let data := {| len := n; loads := Some (JObj items) |} in
  let answered_with atoms :=
    exists fs' dicts,
      write "/atomspace/query" data fs st = Some (n, fs', st)
      /\ dicts_of st atoms dicts
      /\ (Forall (counted st) atoms ->
          read "/atomspace/query" fs' st = Some (Dumps (JArr dicts)))
      /\ (Exists (uncounted st) atoms ->
          read "/atomspace/query" fs' st = Some RaisesTypeError) in
  (forall T, dict_get "type" items = Some (JStr T) ->
             answered_with (get_atoms_by_type T (space st)))
  /\ (dict_get "type" items = None ->
      exists atoms, atoms ≡ₚ get_all_atoms (space st) /\ answered_with atoms).
Proof.
  intros Hinv Hq data answered_with.
  destruct (stored_atoms_live st Hinv) as [Htype Hall].
  split.
  - intros T HT.
    destruct (query_read_dicts st (get_atoms_by_type T (space st)) (Htype T))
      as (dicts & Hread & Hd).
    destruct (dicts_dumps st _ dicts Hd) as [Hok Hraise].
    assert (Hnext : read "/atomspace/query"
                      {| _mount_point := _mount_point fs;
                         _nodes := <["/atomspace/query" :=
                                      QueryNode (Some (JObj items))
                                        (get_atoms_by_type T (space st))]>
                                     (_nodes fs) |} st
                    = Some (dumps (JArr dicts))).
    { unfold read, resolve_path. cbn [_nodes]. rewrite lookup_insert_eq.
      cbn [node_of]. exact Hread. }
    eexists. exists dicts. split; [|split; [exact Hd|]].
    + unfold write, resolve_path. rewrite Hq. cbn [node_of].
      unfold query_write. cbn [loads len data].
      unfold contains, getitem. rewrite HT.
      rewrite bool_decide_eq_true_2 by (by eexists). cbn. reflexivity.
    + rewrite Hnext. split; intros H; f_equal; auto.
  - intros HT. exists (get_all_atoms (space st)). split; [done|].
    destruct (query_read_dicts st (get_all_atoms (space st)) Hall)
      as (dicts & Hread & Hd).
    destruct (dicts_dumps st _ dicts Hd) as [Hok Hraise].
    assert (Hnext : read "/atomspace/query"
                      {| _mount_point := _mount_point fs;
                         _nodes := <["/atomspace/query" :=
                                      QueryNode (Some (JObj items))
                                        (get_all_atoms (space st))]>
                                     (_nodes fs) |} st
                    = Some (dumps (JArr dicts))).
    { unfold read, resolve_path. cbn [_nodes]. rewrite lookup_insert_eq.
      cbn [node_of]. exact Hread. }
    eexists. exists dicts. split; [|split; [exact Hd|]].
    + unfold write, resolve_path. rewrite Hq. cbn [node_of].
      unfold query_write. cbn [loads len data].
      unfold contains. rewrite HT.
      rewrite bool_decide_eq_false_2 by (intros [? ?]; done). reflexivity.
    + rewrite Hnext. split; intros H; f_equal; auto.
Qed.

Lemma query_answered_by_read_witness :
  (exists fs' dicts,
     write "/atomspace/query"
           {| len := 22; loads := Some (JObj [("type", JStr "ConceptNode")]) |}
           cogfs_init dog_state
     = Some (22%Z, fs', dog_state)
     /\ dicts_of dog_state ["d1"] dicts
     /\ read "/atomspace/query" fs' dog_state = Some (Dumps (JArr dicts)))
  /\ (exists fs',
        write "/atomspace/query"
              {| len := 27;
                 loads := Some (JObj [("type", JStr "InheritanceLink")]) |}
              cogfs_init pln_state
        = Some (27%Z, fs', pln_state)
        /\ read "/atomspace/query" fs' pln_state = Some RaisesTypeError).
Proof.
  split.
  - pose proof dog_state_inv as Hinv.
    destruct (query_answered_by_read dog_state cogfs_init None []
                [("type", JStr "ConceptNode")] 22 Hinv eq_refl) as [H _].
    destruct (H "ConceptNode" eq_refl) as (fs' & dicts & Hw & Hd & Hok & _).
    exists fs', dicts. split; [exact Hw|]. split; [exact Hd|].
    apply Hok. repeat constructor.
    exists (concept "dog" (TV.count (4 # 5) (9 # 10) 3) []), 3%Z.
    split; reflexivity.
  - pose proof pln_state_inv as Hinv.
    destruct (query_answered_by_read pln_state cogfs_init None []
                [("type", JStr "InheritanceLink")] 27 Hinv eq_refl) as [H _].
    destruct (H "InheritanceLink" eq_refl) as (fs' & dicts & Hw & _ & _ & Hr).
    exists fs'. split; [exact Hw|].
    apply Hr. apply Exists_cons_hd.
    exists (inheritance "uA" "uB" (9 # 10) (8 # 10)).
    split; reflexivity.
Defined.

End CogkernelMore.

(** ** Processes and their scheduler *)

Section SchedulerFacts.
Import Atomspace Scheduler.

(** X26. The effective priority of a process is never negative; with a
    non-negative STI it is at most the base priority; it is 0 from an STI
    of 100 times the base priority on; and of two processes of the same
    base priority the one with the higher STI has the lower or the same
    effective priority. *)
Theorem effective_priority_bounds (p q : CogProc) :
  let base := inject_Z (priority_value (priority p)) in
  (0 <= get_effective_priority p)%Q
  /\ ((0 <= sti (attention p))%Q -> (get_effective_priority p <= base)%Q)
  /\ ((100 * base <= sti (attention p))%Q -> (get_effective_priority p == 0)%Q)
  /\ ((sti (attention p) < 100 * base)%Q ->
      (get_effective_priority p == base - sti (attention p) / 100)%Q)
  /\ (priority p = priority q ->
      (sti (attention p) <= sti (attention q))%Q ->
      (get_effective_priority q <= get_effective_priority p)%Q).
Proof.
  intros base. unfold get_effective_priority, Py.max. fold base.
  assert (Hb : (0 <= base)%Q).
  { unfold base. destruct (priority p); done. }
  unfold Qdiv. change (/ 100)%Q with (1 # 100)%Q.
  assert (Hq : priority p = priority q ->
               inject_Z (priority_value (priority q)) = base)
    by (by intros <-).
  clearbody base.
  split; [destruct (Qlt_le_dec _ _); lra|].
  split; [intros Hs; destruct (Qlt_le_dec _ _); lra|].
  split; [intros Hs; destruct (Qlt_le_dec _ _); lra|].
  split; [intros Hs; destruct (Qlt_le_dec _ _); lra|].
  intros Hpq Hs. rewrite (Hq Hpq).
  destruct (Qlt_le_dec _ _), (Qlt_le_dec _ _); lra.
Qed.

Lemma effective_priority_bounds_witness :
  (get_effective_priority
     {| pid := 1; name := "p"; state := READY; priority := NORMAL;
        attention := {| sti := 50; lti := 10; vlti := false |} |}
   == 5 # 2)%Q.
Proof.
  destruct (effective_priority_bounds
              {| pid := 1; name := "p"; state := READY; priority := NORMAL;
                 attention := {| sti := 50; lti := 10; vlti := false |} |}
              {| pid := 1; name := "p"; state := READY; priority := NORMAL;
                 attention := {| sti := 50; lti := 10; vlti := false |} |})
    as (_ & _ & _ & H & _).
  rewrite H; reflexivity.
Defined.

Lemma entry_le_refl (e : entry) : entry_le e e = true.
Proof.
  unfold entry_le.
  assert ((fst e ?= fst e)%Q = Eq) as -> by (apply Qeq_alt; reflexivity).
  apply Z.leb_refl.
Qed.

Lemma schedule_empty (m : Machine) :
  _lock (scheduler m) = false -> ready_queue (scheduler m) = [] ->
  schedule m = Returns None (set_lock (set_lock m true) false).
Proof.
  intros Hfree Hq. unfold schedule. rewrite Hq. simpl.
  unfold with_lock. rewrite Hfree. simpl. by rewrite Hq.
Qed.

Lemma schedule_calls_held (n : nat) (m : Machine) :
  _lock (scheduler m) = true -> schedule_calls n m = Blocks.
Proof.
  intros Hheld. destruct n; simpl; unfold with_lock; by rewrite Hheld.
Qed.

Lemma schedule_ready (m : Machine) (prio : Q) (id : Z) (rest : list entry)
    (r : pref) (p : CogProc) :
  _lock (scheduler m) = false ->
  queue_get (ready_queue (scheduler m)) = Some ((prio, id), rest) ->
  all_procs (scheduler m) !! id = Some r ->
  procs m !! r = Some p -> is_ready p = true ->
  schedule m = Returns (Some r) (taken m rest (Some r)).
Proof.
  intros Hfree Hget Hr Hp Hready. unfold schedule.
  destruct (ready_queue (scheduler m)) as [|x q] eqn:Hq; [done|].
  rewrite <- Hq in Hget. cbn [length schedule_calls].
  unfold with_lock. rewrite Hfree.
  cbn [set_lock scheduler ready_queue procs all_procs set_queue].
  rewrite Hget. cbn [set_queue scheduler all_procs procs].
  by rewrite Hr, Hp, Hready.
Qed.

Lemma schedule_stale (m : Machine) (prio : Q) (id : Z) (rest : list entry) :
  _lock (scheduler m) = false ->
  queue_get (ready_queue (scheduler m)) = Some ((prio, id), rest) ->
  match all_procs (scheduler m) !! id with
  | Some r => exists p, procs m !! r = Some p /\ is_ready p = false
  | None => True
  end ->
  schedule m = Blocks.
Proof.
  intros Hfree Hget Hstale. unfold schedule.
  destruct (ready_queue (scheduler m)) as [|x q] eqn:Hq; [done|].
  rewrite <- Hq in Hget. cbn [length schedule_calls].
  unfold with_lock at 1. rewrite Hfree.
  cbn [set_lock scheduler ready_queue procs all_procs set_queue].
  rewrite Hget. cbn [set_queue scheduler all_procs procs].
  destruct (all_procs (scheduler m) !! id) as [r|].
  - destruct Hstale as (p & -> & ->). by rewrite schedule_calls_held.
  - by rewrite schedule_calls_held.
Qed.

(** X27. [schedule] looks at the least entry of the ready queue only. When
    that entry names a READY process, the process is returned and becomes
    the running one, its entry leaves the queue, and its state stays READY.
    When the entry names a process that is not READY, or no process,
    [schedule] does not return: it calls itself while it holds its lock,
    which is not reentrant. With an empty queue it returns None. *)
Theorem schedule_returns_or_blocks
    (m : Machine) (prio : Q) (id : Z) (rest : list entry) :
  _lock (scheduler m) = false ->
  (ready_queue (scheduler m) = [] ->
   schedule m = Returns None (set_lock (set_lock m true) false))
  /\ (queue_get (ready_queue (scheduler m)) = Some ((prio, id), rest) ->
      (forall r p, all_procs (scheduler m) !! id = Some r ->
                   procs m !! r = Some p -> is_ready p = true ->
                   schedule m = Returns (Some r) (taken m rest (Some r))
                   /\ procs (taken m rest (Some r)) = procs m)
      /\ (forall r p, all_procs (scheduler m) !! id = Some r ->
                      procs m !! r = Some p -> is_ready p = false ->
                      schedule m = Blocks)
      /\ (all_procs (scheduler m) !! id = None -> schedule m = Blocks)).
Proof.
  intros Hfree. split; [by apply schedule_empty|].
  intros Hget. split; [|split].
  - intros r p Hr Hp Hready. split; [|done]. by eapply schedule_ready.
  - intros r p Hr Hp Hready. eapply schedule_stale; [done..|].
    rewrite Hr. by exists p.
  - intros Hr. eapply schedule_stale; [done..|]. by rewrite Hr.
Qed.

Lemma schedule_returns_or_blocks_witness :
  schedule {| procs := {[7%nat := forked 3 "p"]};
              scheduler := {| time_slice := 1 # 10;
                              ready_queue := [(5 # 2, 4%Z); (5 # 2, 3%Z)];
                              running := None; waiting := ∅;
                              all_procs := {[3%Z := 7%nat]};
                              _lock := false |} |}
  = Returns (Some 7%nat)
      {| procs := {[7%nat := forked 3 "p"]};
         scheduler := {| time_slice := 1 # 10;
                         ready_queue := [(5 # 2, 4%Z)];
                         running := Some 7%nat; waiting := ∅;
                         all_procs := {[3%Z := 7%nat]};
                         _lock := false |} |}.
Proof.
  destruct (schedule_returns_or_blocks
              {| procs := {[7%nat := forked 3 "p"]};
                 scheduler := {| time_slice := 1 # 10;
                                 ready_queue := [(5 # 2, 4%Z); (5 # 2, 3%Z)];
                                 running := None; waiting := ∅;
                                 all_procs := {[3%Z := 7%nat]};
                                 _lock := false |} |}
              (5 # 2) 3 [(5 # 2, 4%Z)] eq_refl) as [_ H].
  destruct (H eq_refl) as [H1 _].
  destruct (H1 7%nat (forked 3 "p") eq_refl eq_refl eq_refl) as [H2 _].
  exact H2.
Defined.

(** X28. From a kernel whose scheduler has a free lock and an empty ready
    queue: [fork] returns a new READY process under the next pid, and
    [schedule] then returns this process; but when the process is killed
    before, [kill] returns True and [schedule] never returns, since the
    entry of the killed process is still in the queue. *)
Theorem killed_process_blocks_scheduler
    (k : CogKernel) (name : string) (fresh : pref) :
  _lock (scheduler (machine k)) = false ->
  ready_queue (scheduler (machine k)) = [] ->
  procs (machine k) !! fresh = None ->
  is_Some (stats k !! "processes_created") ->
  is_Some (stats k !! "processes_terminated") ->
  exists k1 k2 m,
    fork name fresh k = KReturns fresh k1
    /\ procs (machine k1) !! fresh = Some (forked (_next_pid k) name)
    /\ _next_pid k1 = (_next_pid k + 1)%Z
    /\ schedule (machine k1) = Returns (Some fresh) m
    /\ running (scheduler m) = Some fresh
    /\ ready_queue (scheduler m) = []
    /\ procs m !! fresh = Some (forked (_next_pid k) name)
    /\ kill (_next_pid k) k1 = KReturns true k2
    /\ schedule (machine k2) = Blocks.
Proof.
  intros Hfree Hq Hfresh [c Hc] [t Ht].
  destruct k as [[ps s] next st]. simpl in *.
  destruct s as [ts q run wt ap lk]. simpl in *. subst q lk.
  set (e := (get_effective_priority (forked next name), next)).
  set (m1 := {| procs := <[fresh := forked next name]> ps;
                scheduler := {| time_slice := ts; ready_queue := [e];
                                running := run; waiting := wt;
                                all_procs := <[next := fresh]> ap;
                                _lock := false |} |}).
  set (m2 := {| procs := <[fresh := set_state (forked next name) TERMINATED]> ps;
                scheduler := scheduler m1 |}).
  assert (Hget : queue_get [e] = Some (e, [])).
  { unfold queue_get. simpl. by rewrite entry_le_refl. }
  exists {| machine := m1; _next_pid := (next + 1)%Z;
            stats := <["processes_created" := (c + 1)%Z]> st |}.
  exists {| machine := m2; _next_pid := (next + 1)%Z;
            stats := <["processes_terminated" := (t + 1)%Z]>
                       (<["processes_created" := (c + 1)%Z]> st) |}.
  exists (taken m1 [] (Some fresh)).
  split.
  { unfold fork. simpl. rewrite Hfresh.
    unfold add_process, with_lock. simpl. rewrite lookup_insert_eq. simpl.
    unfold count_up. simpl. rewrite Hc. simpl.
    by rewrite insert_insert_eq. }
  cbn [machine _next_pid].
  split; [apply lookup_insert_eq|]. split; [done|].
  split.
  { apply (schedule_ready m1 (fst e) next [] fresh (forked next name)).
    - done.
    - exact Hget.
    - apply lookup_insert_eq.
    - apply lookup_insert_eq.
    - done. }
  split; [done|]. split; [done|]. split; [apply lookup_insert_eq|].
  split.
  { unfold kill. cbn [machine m1 scheduler all_procs procs].
    rewrite !lookup_insert_eq. unfold count_up. cbn [stats].
    rewrite lookup_insert_ne by done. rewrite Ht. simpl.
    unfold set_proc. simpl. by rewrite insert_insert_eq. }
  apply (schedule_stale m2 (fst e) next []).
  - done.
  - exact Hget.
  - cbn [m2 m1 scheduler all_procs procs]. rewrite lookup_insert_eq.
    eexists. split; [apply lookup_insert_eq|done].
Qed.

Lemma killed_process_blocks_scheduler_witness :
  exists k1 k2,
    fork "thinker" 0%nat kernel_init = KReturns 0%nat k1
    /\ kill 1 k1 = KReturns true k2
    /\ schedule (machine k2) = Blocks.
Proof.
  destruct (killed_process_blocks_scheduler kernel_init "thinker" 0%nat
              eq_refl eq_refl eq_refl ltac:(by eexists) ltac:(by eexists))
    as (k1 & k2 & m & H1 & _ & _ & _ & _ & _ & _ & H8 & H9).
  exists k1, k2. split; [exact H1|]. split; [exact H8|exact H9].
Defined.

End SchedulerFacts.

(** ** Partitions *)

Section PartitionFacts.
Import Ontogenetic.
Local Open Scope Z_scope.

Lemma partition_of_nonneg (p : list Z) : forall n max_val,
  partition_of n max_val p = true -> 0 <= n.
Proof.
  induction p as [|i p IH]; intros n max_val H; simpl in H.
  - apply Z.eqb_eq in H. lia.
  - apply andb_true_iff in H as [H Hp]. apply andb_true_iff in H as [H1 _].
    apply Z.leb_le in H1. apply IH in Hp. lia.
Qed.

Lemma partition_of_spec (p : list Z) : forall n max_val,
  partition_of n max_val p = true
  <-> foldr Z.add 0 p = n /\ Forall (fun i => 1 <= i <= max_val) p
      /\ StronglySorted Z.ge p.
Proof.
  induction p as [|i p IH]; intros n max_val; simpl.
  - rewrite Z.eqb_eq. split.
    + intros ->. repeat split; constructor.
    + intros [H _]. done.
  - rewrite !andb_true_iff, !Z.leb_le, IH. split.
    + intros [[H1 H2] (Hs & Hf & Hsort)]. split; [lia|]. split.
      * constructor; [lia|]. eapply Forall_impl; [exact Hf|].
        intros x Hx. simpl in Hx. lia.
      * constructor; [done|]. eapply Forall_impl; [exact Hf|].
        intros x Hx. simpl in Hx. lia.
    + intros (Hs & Hf & Hsort).
      apply Forall_cons in Hf as [Hi Hf].
      apply StronglySorted_inv in Hsort as [Hsort Hge].
      split; [lia|]. split; [lia|]. split; [|done].
      apply Forall_forall. intros x Hx.
      rewrite Forall_forall in Hf, Hge.
      specialize (Hf x Hx). specialize (Hge x Hx). simpl in *. lia.
Qed.

Lemma descending_spec (m : Z) :
  NoDup (descending m) /\ forall i, i ∈ descending m <-> 1 <= i <= m.
Proof.
  unfold descending. split.
  - rewrite reverse_Permutation. apply NoDup_seqZ.
  - intros i. rewrite elem_of_reverse, elem_of_seqZ. lia.
Qed.

Lemma partition_rounds (fuel : nat) (n : Z) (current : list Z)
    (IH : forall n max_val current result,
            0 <= n <= Z.of_nat fuel ->
            exists new,
              _partition_helper fuel n max_val current result
              = Some (result ++ ((fun p => current ++ p) <$> new))
              /\ NoDup new
              /\ forall p, p ∈ new <-> partition_of n max_val p = true) :
  forall (l : list Z) (result : list (list Z)),
    (forall i, i ∈ l -> 1 <= i <= n) -> n <= Z.of_nat (S fuel) -> NoDup l ->
    exists new,
      foldl (fun result i =>
               result ≫= _partition_helper fuel (n - i) i (current ++ [i]))
            (Some result) l
      = Some (result ++ ((fun p => current ++ p) <$> new))
      /\ NoDup new
      /\ forall p, p ∈ new <-> exists i p', p = i :: p' /\ i ∈ l
                                          /\ partition_of (n - i) i p' = true.
Proof.
  induction l as [|i l IHl]; intros result Hl Hn Hnd.
  - exists []. split; [by rewrite app_nil_r|]. split; [constructor|].
    intros p. split.
    + intros Hp. by apply elem_of_nil in Hp.
    + intros (i & p' & _ & Hi & _). by apply elem_of_nil in Hi.
  - apply NoDup_cons in Hnd as [Hi Hnd].
    pose proof (Hl i (list_elem_of_here _ _)) as Hrange.
    destruct (IH (n - i) i (current ++ [i]) result) as (new_i & E & Hndi & Hmi);
      [lia|].
    destruct (IHl (result ++ ((fun p => (current ++ [i]) ++ p) <$> new_i)))
      as (new_l & El & Hndl & Hml).
    { intros j Hj. apply Hl. by apply list_elem_of_further. }
    { done. } { done. }
    exists (((fun p => i :: p) <$> new_i) ++ new_l). split; [|split].
    + cbn [foldl]. simpl. rewrite E, El. f_equal.
      rewrite <- app_assoc. f_equal. rewrite fmap_app. f_equal.
      rewrite <- list_fmap_compose. apply list_fmap_ext.
      intros k p _. simpl. by rewrite <- app_assoc.
    + apply NoDup_app. split; [|split; [|done]].
      * apply NoDup_fmap_2; [|done]. by intros p q [= ->].
      * intros p Hp Hp'. apply list_elem_of_fmap in Hp as (p' & -> & _).
        apply Hml in Hp' as (j & q & [= <- <-] & Hj & _). done.
    + intros p. rewrite elem_of_app, list_elem_of_fmap, Hml. split.
      * intros [(p' & -> & Hp')|(j & p' & -> & Hj & Hp')].
        -- exists i, p'. split; [done|]. split; [apply list_elem_of_here|].
           by apply Hmi.
        -- exists j, p'. split; [done|]. split; [|done].
           by apply list_elem_of_further.
      * intros (j & p' & -> & Hj & Hp').
        apply elem_of_cons in Hj as [->|Hj].
        -- left. exists p'. split; [done|]. by apply Hmi.
        -- right. by exists j, p'.
Qed.

Lemma partition_helper_spec (fuel : nat) :
  forall n max_val current result,
    0 <= n <= Z.of_nat fuel ->
    exists new,
      _partition_helper fuel n max_val current result
      = Some (result ++ ((fun p => current ++ p) <$> new))
      /\ NoDup new
      /\ forall p, p ∈ new <-> partition_of n max_val p = true.
Proof.
  induction fuel as [|fuel IH]; intros n max_val current result Hn.
  - assert (n = 0) as -> by lia. exists [[]]. split; [|split].
    + simpl. by rewrite app_nil_r.
    + apply NoDup_singleton.
    + intros p. rewrite list_elem_of_singleton. split; [by intros ->|].
      destruct p as [|i p]; [done|]. simpl. intros H.
      apply andb_true_iff in H as [H Hp]. apply andb_true_iff in H as [H1 _].
      apply Z.leb_le in H1. apply partition_of_nonneg in Hp. lia.
  - destruct (decide (n = 0)) as [->|Hne].
    + exists [[]]. split; [|split].
      * simpl. by rewrite app_nil_r.
      * apply NoDup_singleton.
      * intros p. rewrite list_elem_of_singleton. split; [by intros ->|].
        destruct p as [|i p]; [done|]. simpl. intros H.
        apply andb_true_iff in H as [H Hp]. apply andb_true_iff in H as [H1 _].
        apply Z.leb_le in H1. apply partition_of_nonneg in Hp. lia.
    + destruct (descending_spec (Z.min n max_val)) as [Hnd Hmem].
      destruct (partition_rounds fuel n current IH
                  (descending (Z.min n max_val)) result)
        as (new & E & Hndn & Hm).
      { intros i Hi. apply Hmem in Hi. lia. } { lia. } { done. }
      exists new. split; [|split; [done|]].
      * cbn [_partition_helper].
        replace (n =? 0) with false by (symmetry; by apply Z.eqb_neq).
        exact E.
      * intros p. rewrite Hm. split.
        -- intros (i & p' & -> & Hi & Hp'). apply Hmem in Hi. simpl.
           rewrite Hp'. rewrite andb_true_r. apply andb_true_iff.
           split; apply Z.leb_le; lia.
        -- destruct p as [|i p'].
           { simpl. intros H. apply Z.eqb_eq in H. done. }
           simpl. intros H.
           apply andb_true_iff in H as [H Hp]. apply andb_true_iff in H as [H1 H2].
           apply Z.leb_le in H1, H2. exists i, p'. split; [done|].
           split; [|done]. apply Hmem.
           apply partition_of_nonneg in Hp. lia.
Qed.

(** X29. For n >= 0, [_partitions(n)] lists the partitions of n, each
    once: a list of integers is in the result exactly when its elements are
    positive, non-increasing and have the sum n. For n < 0 the result is
    empty. *)
Theorem partitions_are_the_partitions (n : Z) :
  (0 <= n ->
   exists ps,
     _partitions n = Some ps /\ NoDup ps
     /\ forall p, p ∈ ps <-> foldr Z.add 0 p = n
                            /\ Forall (fun i => 1 <= i) p
                            /\ StronglySorted Z.ge p)
  /\ (n < 0 -> _partitions n = Some []).
Proof.
  split.
  - intros Hn.
    destruct (partition_helper_spec (Z.to_nat n) n n [] []) as (ps & E & Hnd & Hm);
      [lia|].
    exists ps. split; [|split; [done|]].
    + unfold _partitions. rewrite E. simpl. rewrite list_fmap_id.
      destruct (n =? 0) eqn:E0; [|done].
      apply Z.eqb_eq in E0. subst n. f_equal.
      simpl in E. rewrite list_fmap_id in E. by injection E.
    + intros p. rewrite Hm, partition_of_spec. split.
      * intros (Hs & Hf & Hsort). split; [done|]. split; [|done].
        eapply Forall_impl; [exact Hf|]. intros x Hx. simpl in Hx. lia.
      * intros (Hs & Hf & Hsort). split; [done|]. split; [|done].
        apply Forall_forall. intros x Hx. split.
        { rewrite Forall_forall in Hf. by apply Hf. }
        subst n. clear - Hf Hx. induction p as [|y p IH]; [by apply elem_of_nil in Hx|].
        apply Forall_cons in Hf as [Hy Hf]. simpl.
        assert (0 <= foldr Z.add 0 p).
        { clear - Hf. induction p as [|z p IH]; simpl; [done|].
          apply Forall_cons in Hf as [Hz Hf]. specialize (IH Hf). lia. }
        apply elem_of_cons in Hx as [->|Hx]; [lia|].
        specialize (IH Hf Hx). lia.
  - intros Hn. unfold _partitions.
    replace (n =? 0) with false by (symmetry; apply Z.eqb_neq; lia).
    replace (Z.to_nat n) with 0%nat by lia. simpl.
    replace (n =? 0) with false by (symmetry; apply Z.eqb_neq; lia).
    unfold descending. rewrite seqZ_nil by lia. done.
Qed.

Lemma partitions_are_the_partitions_witness :
  exists ps, _partitions 4 = Some ps /\ [2; 1; 1] ∈ ps /\ [1; 2; 1] ∉ ps.
Proof.
  destruct (proj1 (partitions_are_the_partitions 4)) as (ps & E & _ & H); [lia|].
  exists ps. split; [exact E|]. split.
  - apply H. split; [reflexivity|]. split.
    + apply Forall_forall. intros x Hx.
      repeat (apply elem_of_cons in Hx as [->|Hx]; [lia|]).
      by apply elem_of_nil in Hx.
    + repeat (apply SSorted_cons;
              [|apply Forall_forall; intros x Hx;
                repeat (apply elem_of_cons in Hx as [->|Hx]; [lia|]);
                by apply elem_of_nil in Hx]).
      apply SSorted_nil.
  - intros Hin. apply H in Hin as (_ & _ & Hs).
    apply StronglySorted_inv in Hs as [_ Hs].
    apply Forall_cons in Hs as [Hs _]. lia.
Defined.

End PartitionFacts.

(** ** Rooted trees and their enumeration *)

Section TreeFacts.
Import Ontogenetic.
Local Open Scope Z_scope.

Lemma RootedTree_nested_ind (P : RootedTree -> Prop) :
  (forall children label order symmetry_factor,
      Forall P children ->
      P (mkRootedTree children label order symmetry_factor)) ->
  forall t, P t.
Proof.
  intros H. fix IH 1. intros [cs l o s]. apply H.
  induction cs as [|c cs IHcs]; constructor; [apply IH|apply IHcs].
Qed.

Lemma ordered_children (cs : list RootedTree) :
  foldr (fun c rest => ordered c /\ rest) True cs <-> Forall ordered cs.
Proof.
  induction cs as [|c cs IH]; simpl.
  - split; [constructor|done].
  - rewrite IH. split.
    + intros [? ?]. by constructor.
    + intros H. by apply Forall_cons in H.
Qed.

Lemma ordered_nodes (t : RootedTree) : ordered t -> order t = nodes t.
Proof.
  induction t as [cs l o s IH] using RootedTree_nested_ind.
  simpl. intros [-> Hcs]. f_equal. f_equal.
  apply ordered_children in Hcs.
  induction cs as [|c cs IHcs]; [done|].
  apply Forall_cons in IH as [Hc IH]. apply Forall_cons in Hcs as [Oc Hcs].
  simpl. f_equal; [by apply Hc|by apply IHcs].
Qed.

Lemma compute_order_ordered (t : RootedTree) : ordered t -> compute_order t = t.
Proof.
  induction t as [cs l o s IH] using RootedTree_nested_ind.
  simpl. intros [-> Hcs]. apply ordered_children in Hcs.
  assert (compute_order <$> cs = cs) as ->; [|done].
  induction cs as [|c cs IHcs]; [done|].
  apply Forall_cons in IH as [Hc IH]. apply Forall_cons in Hcs as [Oc Hcs].
  simpl. f_equal; [by apply Hc|by apply IHcs].
Qed.

Lemma compute_symmetry_order (t : RootedTree) :
  order (compute_symmetry t) = order t
  /\ (ordered t -> ordered (compute_symmetry t)).
Proof.
  induction t as [cs l o s IH] using RootedTree_nested_ind.
  destruct cs as [|c cs]; [done|].
  cbn [compute_symmetry]. cbn [order ordered]. split; [done|].
  assert (Hsame : order <$> (compute_symmetry <$> c :: cs) = order <$> c :: cs).
  { rewrite <- list_fmap_compose. apply Forall_fmap_ext_1.
    eapply Forall_impl; [exact IH|]. intros x [Hx _]. exact Hx. }
  intros [Ho Hcs]. rewrite Hsame. split; [done|].
  apply ordered_children. apply ordered_children in Hcs.
  apply Forall_fmap. rewrite Forall_forall in IH, Hcs.
  apply Forall_forall. intros x Hx. simpl.
  by apply (IH x Hx), Hcs.
Qed.

Lemma compute_order_children (cs : list RootedTree) :
  Forall ordered cs -> compute_order <$> cs = cs.
Proof.
  induction 1 as [|c cs Hc _ IH]; [done|].
  by rewrite fmap_cons, compute_order_ordered, IH.
Qed.

Lemma built_of_order (n : Z) (trees children : list RootedTree) (parts : list Z) :
  Forall2 of_order parts children ->
  Forall (of_order n) trees -> n = 1 + foldr Z.add 0 parts ->
  Forall (of_order n) (enumerated n trees children).
Proof.
  intros Hc Ht Hn. unfold enumerated. apply Forall_app. split; [done|].
  apply Forall_singleton.
  assert (Hord : Forall ordered children).
  { clear - Hc. induction Hc as [|i c parts cs [H _] _ IH]; by constructor. }
  assert (Hsum : foldr Z.add 0 (order <$> children) = foldr Z.add 0 parts).
  { clear - Hc. induction Hc as [|i c parts cs [_ H] _ IH]; [done|].
    rewrite fmap_cons. cbn [foldr]. by rewrite H, IH. }
  assert (Hco : of_order n (compute_order (new_tree children))).
  { unfold new_tree. cbn [compute_order].
    rewrite compute_order_children by done. split.
    - simpl. split; [done|]. by apply ordered_children.
    - simpl. by rewrite Hsum. }
  destruct Hco as [Ho Hn'].
  destruct (compute_symmetry_order (compute_order (new_tree children)))
    as [Hs1 Hs2].
  split.
  - specialize (Hs2 Ho).
    destruct (compute_symmetry (compute_order (new_tree children))). exact Hs2.
  - unfold set_label. cbn [order]. by rewrite Hs1.
Qed.

Lemma enumerated_all (n : Z) (parts_of : list (list RootedTree)) :
  forall trees,
    Forall (of_order n) trees ->
    Forall (fun children =>
              exists parts, Forall2 of_order parts children
                            /\ n = 1 + foldr Z.add 0 parts) parts_of ->
    Forall (of_order n) (foldl (enumerated n) trees parts_of).
Proof.
  induction parts_of as [|children rest IH]; intros trees Ht Hall; [done|].
  apply Forall_cons in Hall as [(parts & Hc & Hn) Hall]. simpl.
  apply IH; [|done]. by eapply built_of_order.
Qed.

Lemma children_helper_spec (enum : Z -> option (list RootedTree))
    (partition : list Z) :
  forall current,
    Forall (fun i => exists trees, enum i = Some trees
                                   /\ Forall (of_order i) trees) partition ->
    exists combinations,
      _children_helper enum partition current = Some combinations
      /\ Forall (fun c => exists chosen, c = current ++ chosen
                                         /\ Forall2 of_order partition chosen)
                combinations.
Proof.
  induction partition as [|i partition IH]; intros current Hall.
  - exists [current]. split; [done|]. apply Forall_singleton.
    exists []. split; [by rewrite app_nil_r|constructor].
  - apply Forall_cons in Hall as [(trees & Ei & Hi) Hall].
    cbn [_children_helper]. rewrite Ei. simpl.
    assert (exists results,
              mapM (fun tree =>
                      _children_helper enum partition (current ++ [tree])) trees
              = Some results
              /\ Forall (fun c => exists chosen,
                                    c = current ++ chosen
                                    /\ Forall2 of_order (i :: partition) chosen)
                        (concat results)) as (results & -> & Hres).
    { clear Ei. induction trees as [|t trees IHt].
      - exists []. split; [done|constructor].
      - apply Forall_cons in Hi as [Ht Hi].
        destruct (IHt Hi) as (results & Em & Hres).
        destruct (IH (current ++ [t]) Hall) as (combos & Ec & Hc).
        exists (combos :: results). split.
        + simpl. rewrite Ec. simpl. by rewrite Em.
        + simpl. apply Forall_app. split; [|done].
          eapply Forall_impl; [exact Hc|]. intros c (chosen & -> & Hch).
          exists (t :: chosen). split; [by rewrite <- app_assoc|].
          by constructor. }
    by exists (concat results).
Qed.

Lemma enumerate_of_order (fuel : nat) :
  forall n, 1 <= n <= Z.of_nat fuel ->
    exists trees, enumerate fuel n = Some trees /\ Forall (of_order n) trees.
Proof.
  induction fuel as [|fuel IH]; intros n Hn; [lia|].
  cbn [enumerate]. destruct (n =? 1) eqn:E1.
  - apply Z.eqb_eq in E1 as ->. eexists. split; [done|].
    apply Forall_singleton. done.
  - apply Z.eqb_neq in E1.
    destruct (partition_helper_spec (Z.to_nat (n - 1)) (n - 1) (n - 1) [] [])
      as (ps & Eps & _ & Hps); [lia|].
    assert (Ep : _partitions (n - 1) = Some ps).
    { unfold _partitions.
      replace (n - 1 =? 0) with false by (symmetry; apply Z.eqb_neq; lia).
      rewrite Eps. simpl. by rewrite list_fmap_id. }
    rewrite Ep. cbn [mbind option_bind].
    assert (exists combinations,
              mapM (_generate_children (enumerate fuel)) ps = Some combinations
              /\ Forall (fun children =>
                           exists parts, Forall2 of_order parts children
                                         /\ n = 1 + foldr Z.add 0 parts)
                        (concat combinations)) as (combinations & Em & Hcomb).
    { assert (Hall : Forall (fun p => partition_of (n - 1) (n - 1) p = true) ps).
      { apply Forall_forall. intros p Hp. by apply Hps. }
      clear Eps Ep Hps. induction ps as [|p ps IHps].
      - exists []. split; [done|constructor].
      - apply Forall_cons in Hall as [Hp Hall].
        destruct (IHps Hall) as (combinations & Em & Hc).
        apply partition_of_spec in Hp as (Hsum & Hparts & _).
        destruct (children_helper_spec (enumerate fuel) p []) as (cs & Ec & Hcs).
        { eapply Forall_impl; [exact Hparts|]. intros i Hi. simpl in Hi.
          apply IH. lia. }
        exists (cs :: combinations). split.
        + apply mapM_Some. constructor; [|by apply mapM_Some].
          unfold _generate_children. destruct p as [|i p]; [|done].
          simpl in Ec. by injection Ec as <-.
        + simpl. apply Forall_app. split; [|done].
          eapply Forall_impl; [exact Hcs|]. intros c (chosen & -> & Hch).
          exists p. split; [done|]. lia. }
    eexists. split; [by rewrite Em|].
    apply enumerated_all; [constructor|done].
Qed.

(** X30. For n >= 1, every tree that [enumerate(n)] returns has n nodes,
    and its [order] field is n. The number of trees returned is the term
    of A000081 for the orders 1 to 6; for the order 7 it is 49, while the
    term is 48: two of the 49 trees have the same canonical form. *)
Theorem enumerate_orders_and_counts :
  (forall n, 1 <= n ->
     exists trees, enumerate (Z.to_nat n) n = Some trees
                   /\ Forall (fun t => order t = n /\ nodes t = n) trees)
  /\ (forall n, 1 <= n <= 6 ->
        length <$> enumerate (Z.to_nat n) n
        = Some (Z.to_nat (fst (__getitem__ (__init__ default_max_order) n))))
  /\ (exists trees,
        enumerate 7 7 = Some trees
        /\ length trees = 49%nat
        /\ fst (__getitem__ (__init__ default_max_order) 7) = 48
        /\ ~ NoDup (canonical_form <$> trees)).
Proof.
  split; [|split].
  - intros n Hn.
    destruct (enumerate_of_order (Z.to_nat n) n) as (trees & E & Ht); [lia|].
    exists trees. split; [done|].
    eapply Forall_impl; [exact Ht|]. intros t [Ho Hn']. split; [done|].
    by rewrite <- (ordered_nodes t Ho).
  - intros n Hn.
    assert (n = 1 \/ n = 2 \/ n = 3 \/ n = 4 \/ n = 5 \/ n = 6)
      as [->|[->|[->|[->|[->| ->]]]]] by lia; vm_compute; reflexivity.
  - eexists. split; [vm_compute; reflexivity|].
    split; [vm_compute; reflexivity|]. split; [vm_compute; reflexivity|].
    intros Hnd. apply (bool_decide_pack _) in Hnd. vm_compute in Hnd. done.
Qed.

Lemma enumerate_orders_and_counts_witness :
  exists trees, enumerate 3 3 = Some trees
                /\ Forall (fun t => order t = 3 /\ nodes t = 3) trees.
Proof.
  destruct enumerate_orders_and_counts as [H _].
  exact (H 3 ltac:(lia)).
Defined.

End TreeFacts.
